(** * Motion UI MCP server: the request-resilience layer

    A shallow embedding of the TypeScript sources of the server
    (src/utils/cache.ts, src/utils/circuit-breaker.ts,
    src/utils/validation.ts and the five tool handlers under src/tools/)
    together with the properties of the design document that can be
    checked against them.

    Conventions of the embedding:
    - JavaScript values are the inductive type [value]; an object carries
      its prototype slot and its own enumerable properties in property
      order, an array its elements.
    - [Date.now()] is an explicit argument [now : Z] (milliseconds); numbers
      are integers, which is exact for the timestamps and durations the
      code computes with.
    - strings are [string]; the characters that matter to the code (case,
      white space, the name patterns) are ASCII.
    - the process-wide [Map] of the cache is a [gmap string CacheEntry],
      threaded explicitly through every operation that touches it. *)

From Stdlib Require Import ZArith Lia Ascii String List Bool DecimalString Sorted.
From stdpp Require Import base option list strings gmap fin_maps.

Local Open Scope Z_scope.
Local Open Scope string_scope.
Local Open Scope list_scope.

(** * Part I: the program *)

(** ** JavaScript values *)

#[local] Unset Elimination Schemes.
Inductive value : Type :=
| VUndefined
| VNull
| VBool (b : bool)
| VNum (n : Z)
| VStr (s : string)
| VArr (items : list value)
| VObj (proto : option value) (props : list (string * value))
| VFunction (name : string).
#[local] Set Elimination Schemes.

(** [proto = None] is the ordinary prototype [Object.prototype] (what an
    object literal, [{}] and [JSON.parse] give); [Some VNull] is no
    prototype at all; [Some o] is the object [o]. [props] are the own
    enumerable properties in the order [Object.keys] lists them. *)

Definition obj (props : list (string * value)) : value := VObj None props.

(** ToBoolean: the test of [if (x)], [x || y], [!x]. *)
Definition truthy (v : value) : bool :=
  match v with
  | VUndefined | VNull => false
  | VBool b => b
  | VNum n => negb (Z.eqb n 0)
  | VStr s => negb (String.eqb s "")
  | VArr _ | VObj _ _ | VFunction _ => true
  end.

(** Induction over values, through the arrays, the properties and the
    prototype. *)
Section value_induction.
Variable P : value -> Prop.
Hypothesis HUndefined : P VUndefined.
Hypothesis HNull : P VNull.
Hypothesis HBool : forall b, P (VBool b).
Hypothesis HNum : forall n, P (VNum n).
Hypothesis HStr : forall s, P (VStr s).
Hypothesis HArr : forall items, Forall P items -> P (VArr items).
Hypothesis HObj : forall proto props,
  match proto with Some q => P q | None => True end ->
  Forall (fun kv => P (snd kv)) props -> P (VObj proto props).
Hypothesis HFunction : forall name, P (VFunction name).

Fixpoint value_ind' (v : value) : P v :=
  match v with
  | VUndefined => HUndefined
  | VNull => HNull
  | VBool b => HBool b
  | VNum n => HNum n
  | VStr s => HStr s
  | VArr items =>
      HArr items
        ((fix go (l : list value) : Forall P l :=
            match l with
            | [] => List.Forall_nil P
            | x :: r => @List.Forall_cons _ P x r (value_ind' x) (go r)
            end) items)
  | VObj proto props =>
      HObj proto props
        (match proto with Some q => value_ind' q | None => I end)
        ((fix go (l : list (string * value)) : Forall (fun kv => P (snd kv)) l :=
            match l with
            | [] => List.Forall_nil _
            | kv :: r => @List.Forall_cons _ _ kv r (value_ind' (snd kv)) (go r)
            end) props)
  | VFunction name => HFunction name
  end.
End value_induction.

(** ** src/utils/cache.ts *)

Record CacheEntry : Type := mkEntry {
  data : value;
  timestamp : Z;
  ttl : Z
}.

Module Cache.

Definition defaultTTL : Z := 300000.

(** [ttl || this.defaultTTL]: an omitted argument and the number 0 both
    select the default. *)
Definition effective_ttl (ttl : option Z) : Z :=
  match ttl with
  | Some t => if Z.eqb t 0 then defaultTTL else t
  | None => defaultTTL
  end.

Definition isExpired (now : Z) (entry : CacheEntry) : bool :=
  Z.ltb (ttl entry) (now - timestamp entry).

Definition set (cache : gmap string CacheEntry) (now : Z)
    (key : string) (d : value) (ttl : option Z) : gmap string CacheEntry :=
  <[key := mkEntry d now (effective_ttl ttl)]> cache.

(** The absent answer of [get] is the JavaScript [null]. *)
Definition get (cache : gmap string CacheEntry) (now : Z) (key : string)
    : value * gmap string CacheEntry :=
  match cache !! key with
  | None => (VNull, cache)
  | Some entry =>
      if isExpired now entry then (VNull, base.delete key cache)
      else (data entry, cache)
  end.

Definition has (cache : gmap string CacheEntry) (now : Z) (key : string)
    : bool * gmap string CacheEntry :=
  match cache !! key with
  | None => (false, cache)
  | Some entry =>
      if isExpired now entry then (false, base.delete key cache)
      else (true, cache)
  end.

Definition delete (cache : gmap string CacheEntry) (key : string)
    : bool * gmap string CacheEntry :=
  (bool_decide (is_Some (cache !! key)), base.delete key cache).

Definition clear (cache : gmap string CacheEntry) : gmap string CacheEntry := ∅.

Definition size (cache : gmap string CacheEntry) : nat := base.size cache.

Definition cleanup (cache : gmap string CacheEntry) (now : Z)
    : gmap string CacheEntry :=
  filter (fun kv => isExpired now (snd kv) = false) cache.

End Cache.

(** ** src/utils/circuit-breaker.ts *)

(** What JavaScript code can throw: an [Error] instance (the name of its
    class and its message), zod's [ZodError] (its issues, each by its
    message) or any other value. *)
Inductive exn : Type :=
| JsError (class message : string)
| ZodError (issues : list string)
| Thrown (v : value).

(** The settled state of a promise. *)
Inductive settled (T : Type) : Type :=
| Fulfilled (v : T)
| Rejected (e : exn).
Arguments Fulfilled {T} v.
Arguments Rejected {T} e.

Inductive BreakerState : Type := CLOSED | OPEN | HALF_OPEN.

Record CircuitBreaker : Type := mkBreaker {
  failures : Z;
  lastFailTime : Z;
  state : BreakerState;
  failureThreshold : Z;
  timeout : Z;
  monitoringPeriod : Z
}.

(** [new CircuitBreaker(failureThreshold, timeout, monitoringPeriod)]. *)
Definition newCircuitBreaker (failureThreshold timeout monitoringPeriod : Z)
    : CircuitBreaker :=
  mkBreaker 0 0 CLOSED failureThreshold timeout monitoringPeriod.

Definition with_state (cb : CircuitBreaker) (s : BreakerState) : CircuitBreaker :=
  mkBreaker (failures cb) (lastFailTime cb) s
            (failureThreshold cb) (timeout cb) (monitoringPeriod cb).

Definition with_failure (cb : CircuitBreaker) (n t : Z) : CircuitBreaker :=
  mkBreaker n t (state cb)
            (failureThreshold cb) (timeout cb) (monitoringPeriod cb).

Definition with_failures (cb : CircuitBreaker) (n : Z) : CircuitBreaker :=
  mkBreaker n (lastFailTime cb) (state cb)
            (failureThreshold cb) (timeout cb) (monitoringPeriod cb).

(** [new Error('Circuit breaker is OPEN')]: a plain [Error]. *)
Definition circuit_open_error : exn := JsError "Error" "Circuit breaker is OPEN".

(** The synchronous head of [execute], up to the [await]: the state check.
    [inl e] is the [throw]; [inr cb'] lets the operation run. *)
Definition gate (cb : CircuitBreaker) (now : Z) : exn + CircuitBreaker :=
  match state cb with
  | OPEN =>
      if Z.ltb (now - lastFailTime cb) (timeout cb)
      then inl circuit_open_error
      else inr (with_state cb HALF_OPEN)
  | _ => inr cb
  end.

Definition onSuccess (cb : CircuitBreaker) : CircuitBreaker :=
  let cb1 := with_failures cb 0 in
  match state cb1 with
  | HALF_OPEN => with_state cb1 CLOSED
  | _ => cb1
  end.

(** [now] is the reading of [Date.now()] inside [onFailure]. *)
Definition onFailure (cb : CircuitBreaker) (now : Z) : CircuitBreaker :=
  let cb1 := with_failure cb (failures cb + 1) now in
  if Z.leb (failureThreshold cb1) (failures cb1)
  then with_state cb1 OPEN
  else cb1.

(** An operation is a zero-argument asynchronous call on a dependency whose
    state is [W]: invoked, it changes that state and settles, and
    [settledAt] is the clock reading when its promise settles. *)
Record attempt (W T : Type) : Type := mkAttempt {
  world : W;
  outcome : settled T;
  settledAt : Z
}.
Arguments mkAttempt {W T} world outcome settledAt.
Arguments world {W T} a.
Arguments outcome {W T} a.
Arguments settledAt {W T} a.

Definition operation (W T : Type) : Type := W -> attempt W T.

(** One call of [execute] that runs to the end before anything else touches
    the breaker: the breaker afterwards, the dependency afterwards, and how
    the returned promise settles. *)
Definition execute {W T : Type} (cb : CircuitBreaker) (now : Z)
    (op : operation W T) (w : W) : CircuitBreaker * W * settled T :=
  match gate cb now with
  | inl e => (cb, w, Rejected e)
  | inr cb1 =>
      let a := op w in
      match outcome a with
      | Fulfilled v => (onSuccess cb1, world a, Fulfilled v)
      | Rejected e => (onFailure cb1 (settledAt a), world a, Rejected e)
      end
  end.

Definition getState (cb : CircuitBreaker) : BreakerState := state cb.
Definition getFailures (cb : CircuitBreaker) : Z := failures cb.

(** The two breakers the module exports. *)
Definition circuitBreakers_external : CircuitBreaker := newCircuitBreaker 5 60000 10000.
Definition circuitBreakers_github : CircuitBreaker := newCircuitBreaker 3 30000 5000.

(** A run of calls made one after the other, each awaited before the next
    is made: every call comes with the clock reading at its start. *)
Fixpoint run_calls {W T : Type} (cb : CircuitBreaker) (w : W)
    (calls : list (Z * operation W T)) : CircuitBreaker * W * list (settled T) :=
  match calls with
  | [] => (cb, w, [])
  | (now, op) :: rest =>
      let '(cb1, w1, r) := execute cb now op w in
      let '(cb2, w2, rs) := run_calls cb1 w1 rest in
      (cb2, w2, r :: rs)
  end.

(** [execute] is [async]: between the state check and [onSuccess] or
    [onFailure] it is suspended at [await operation()], and other calls of
    [execute] on the same breaker may start or finish meanwhile. The
    breaker sees three kinds of atomic step. *)
Inductive event : Type :=
| Call (now : Z)
| SettleOk
| SettleFail (now : Z).

(** [pending] counts the calls that passed the state check and whose
    operation has not settled; a settlement needs one. *)
Definition handle (cb : CircuitBreaker) (pending : nat) (ev : event)
    : option (CircuitBreaker * nat) :=
  match ev with
  | Call now =>
      match gate cb now with
      | inl _ => Some (cb, pending)
      | inr cb1 => Some (cb1, S pending)
      end
  | SettleOk =>
      match pending with
      | O => None
      | S p => Some (onSuccess cb, p)
      end
  | SettleFail now =>
      match pending with
      | O => None
      | S p => Some (onFailure cb now, p)
      end
  end.

Fixpoint schedule (cb : CircuitBreaker) (pending : nat) (evs : list event)
    : option (CircuitBreaker * nat) :=
  match evs with
  | [] => Some (cb, pending)
  | ev :: rest =>
      match handle cb pending ev with
      | None => None
      | Some (cb1, p1) => schedule cb1 p1 rest
      end
  end.

(** The events of one call that is awaited at once. *)
Definition events_of_call {W T : Type} (now : Z) (a : attempt W T) : list event :=
  match outcome a with
  | Fulfilled _ => [Call now; SettleOk]
  | Rejected _ => [Call now; SettleFail (settledAt a)]
  end.

(** What holds of a breaker between calls that do not overlap. *)
Definition breaker_inv (cb : CircuitBreaker) : Prop :=
  0 <= failures cb /\
  state cb <> HALF_OPEN /\
  (state cb = OPEN -> failureThreshold cb <= failures cb).

(** An operation that rejects whatever the state of the dependency. *)
Definition always_fails {W T : Type} (op : operation W T) : Prop :=
  forall w, exists e, outcome (op w) = Rejected e.

(** A dependency that only counts how often it was called. *)
Definition counting_failure (e : exn) (t : Z) : operation nat unit :=
  fun calls => mkAttempt (S calls) (Rejected e) t.

Definition counting_success (t : Z) : operation nat unit :=
  fun calls => mkAttempt (S calls) (Fulfilled tt) t.

(** An operation that itself goes through a breaker, as in
    [outer.execute(() => inner.execute(op))]; only the call and its
    outcome matter here, so the state [inner] is left in is not kept. *)
Definition through_breaker {W T : Type} (inner : CircuitBreaker) (now : Z)
    (op : operation W T) : operation W T :=
  fun w =>
    match gate inner now with
    | inl e => mkAttempt w (Rejected e) now
    | inr _ => op w
    end.

(** ** Strings

    The white space of [String.prototype.trim] and of the regular
    expression class [\s], within ASCII: TAB, LF, VT, FF, CR and space. *)
Definition is_space (c : ascii) : bool :=
  match nat_of_ascii c with
  | 9%nat | 10%nat | 11%nat | 12%nat | 13%nat | 32%nat => true
  | _ => false
  end.

Fixpoint trimStart (s : string) : string :=
  match s with
  | EmptyString => EmptyString
  | String c rest => if is_space c then trimStart rest else s
  end.

Fixpoint trimEnd (s : string) : string :=
  match s with
  | EmptyString => EmptyString
  | String c rest =>
      match trimEnd rest with
      | EmptyString => if is_space c then EmptyString else String c EmptyString
      | rest' => String c rest'
      end
  end.

(** [s.trim()] *)
Definition trim (s : string) : string := trimEnd (trimStart s).

(** ** Objects: own properties and the prototype chain *)

Fixpoint assoc (k : string) (props : list (string * value)) : option value :=
  match props with
  | [] => None
  | (k', v) :: rest => if String.eqb k k' then Some v else assoc k rest
  end.

(** Writing an own data property: an existing key keeps its place, a new
    key goes last. *)
Fixpoint assoc_set (props : list (string * value)) (k : string) (v : value)
    : list (string * value) :=
  match props with
  | [] => [(k, v)]
  | (k', v') :: rest =>
      if String.eqb k k' then (k, v) :: rest else (k', v') :: assoc_set rest k v
  end.

Definition keys (props : list (string * value)) : list string := map fst props.

(** The properties every ordinary object inherits from [Object.prototype]:
    eleven functions and the accessor [__proto__]. *)
Definition object_prototype_functions : list string :=
  ["constructor"; "__defineGetter__"; "__defineSetter__"; "hasOwnProperty";
   "__lookupGetter__"; "__lookupSetter__"; "isPrototypeOf";
   "propertyIsEnumerable"; "toString"; "valueOf"; "toLocaleString"].

Definition mem_string (k : string) (l : list string) : bool :=
  existsb (String.eqb k) l.

(** [Object.prototype] seen as a value: no prototype of its own and no
    enumerable property. *)
Definition object_prototype : value := VObj (Some VNull) [].

(** Does looking up [__proto__] from the object [o] upwards find the
    accessor of [Object.prototype]? An own data property of that name on
    the way hides it, a [null] prototype ends the chain before it; arrays
    and functions inherit it through their own prototypes. *)
Fixpoint finds_proto_accessor (o : value) : bool :=
  match o with
  | VObj p props =>
      match assoc "__proto__" props with
      | Some _ => false
      | None =>
          match p with
          | None => true
          | Some q => finds_proto_accessor q
          end
      end
  | VArr _ | VFunction _ => true
  | _ => false
  end.

(** The values [Object.setPrototypeOf] accepts as a prototype. *)
Definition is_object_or_null (v : value) : bool :=
  match v with
  | VNull | VArr _ | VObj _ _ | VFunction _ => true
  | _ => false
  end.

(** The assignment [o[k] = v] on an ordinary object. The key [__proto__]
    is special: unless the object has it as an own property, the
    assignment runs the setter inherited from [Object.prototype], which
    replaces the prototype when [v] is an object or [null] and does nothing
    otherwise; no own property is created. *)
Definition set_prop (o : value) (k : string) (v : value) : value :=
  match o with
  | VObj proto props =>
      if String.eqb k "__proto__" && finds_proto_accessor o
      then if is_object_or_null v then VObj (Some v) props else o
      else VObj proto (assoc_set props k v)
  | _ => o
  end.

(** ** src/utils/validation.ts: sanitization *)

Fixpoint sanitizeObject (o : value) : value :=
  match o with
  | VNull | VUndefined => o
  | VStr s => VStr (trim s)
  | VArr items => VArr (map sanitizeObject items)
  | VObj _ props =>
      fold_left (fun sanitized kv => set_prop sanitized (fst kv) (snd kv))
                (map (fun kv => (fst kv, sanitizeObject (snd kv))) props)
                (VObj None [])
  | _ => o
  end.

(** [validateAndSanitizeParams]: a truthy [params] that is not an object
    is refused with a plain [Error]; a falsy one is replaced by [{}]. *)
Definition is_typeof_object (v : value) : bool :=
  match v with
  | VNull | VArr _ | VObj _ _ => true
  | _ => false
  end.

Definition validateAndSanitizeParams (method : string) (params : value) : exn + value :=
  if truthy params && negb (is_typeof_object params)
  then inl (JsError "Error" "Parameters must be an object")
  else inr (sanitizeObject (if truthy params then params else VObj None [])).

(** A value as [JSON.parse] builds it: ordinary prototypes throughout, no
    [undefined], no function, no key twice in one object. *)
Fixpoint json_shaped (v : value) : Prop :=
  match v with
  | VNull | VBool _ | VNum _ | VStr _ => True
  | VArr items => fold_right (fun x acc => json_shaped x /\ acc) True items
  | VObj None props =>
      NoDup (keys props) /\
      fold_right (fun kv acc => json_shaped (snd kv) /\ acc) True props
  | _ => False
  end.

(** No object of the value has an own property named [__proto__]. *)
Fixpoint proto_free (v : value) : Prop :=
  match v with
  | VArr items => fold_right (fun x acc => proto_free x /\ acc) True items
  | VObj _ props =>
      ~ In "__proto__" (keys props) /\
      fold_right (fun kv acc => proto_free (snd kv) /\ acc) True props
  | _ => True
  end.

(** The sanitizer as the design document words it: strings trimmed,
    sequences mapped element by element, mappings processed key by key
    with the keys kept, everything else unchanged. *)
Fixpoint sanitize_spec (v : value) : value :=
  match v with
  | VStr s => VStr (trim s)
  | VArr items => VArr (map sanitize_spec items)
  | VObj proto props =>
      VObj proto (map (fun kv => (fst kv, sanitize_spec (snd kv))) props)
  | _ => v
  end.

(** ** More of the JavaScript the handlers use *)

Definition dq : string := String (ascii_of_nat 34) EmptyString.

(** The texts of the reference tables are written with [~] for the double
    quote, a character none of them contains. *)
Fixpoint text (s : string) : string :=
  match s with
  | EmptyString => EmptyString
  | String c rest =>
      String (if Ascii.eqb c "~"%char then ascii_of_nat 34 else c) (text rest)
  end.

Definition lower_char (c : ascii) : ascii :=
  let n := nat_of_ascii c in
  if (Nat.leb 65 n && Nat.leb n 90)%bool then ascii_of_nat (n + 32) else c.

(** [s.toLowerCase()] *)
Fixpoint toLowerCase (s : string) : string :=
  match s with
  | EmptyString => EmptyString
  | String c rest => String (lower_char c) (toLowerCase rest)
  end.

(** [s.includes(sub)] *)
Fixpoint includes (s sub : string) : bool :=
  if String.prefix sub s then true
  else match s with
       | EmptyString => false
       | String _ rest => includes rest sub
       end.

(** [s.replace(/\s+/g, '-')]: every maximal run of white space becomes one
    hyphen. [in_run] tells that the previous character was white space. *)
Fixpoint replace_spaces (in_run : bool) (s : string) : string :=
  match s with
  | EmptyString => EmptyString
  | String c rest =>
      if is_space c
      then if in_run then replace_spaces true rest
           else String "-"%char (replace_spaces true rest)
      else String c (replace_spaces false rest)
  end.

(** [s.split(/\s+/)]: the pieces between maximal runs of white space; a
    run at either end leaves an empty piece there. [piece] is the piece
    being read. *)
Fixpoint split_spaces (in_run : bool) (piece : string) (s : string) : list string :=
  match s with
  | EmptyString => [piece]
  | String c rest =>
      if is_space c
      then if in_run then split_spaces true piece rest
           else piece :: split_spaces true EmptyString rest
      else split_spaces false (piece +:+ String c EmptyString) rest
  end.

Definition join (sep : string) (l : list string) : string :=
  match l with
  | [] => EmptyString
  | x :: rest => fold_left (fun acc y => acc +:+ sep +:+ y) rest x
  end.

(** The character class [[a-zA-Z0-9._-]]. *)
Definition is_name_char (c : ascii) : bool :=
  let n := nat_of_ascii c in
  ((Nat.leb 97 n && Nat.leb n 122) || (Nat.leb 65 n && Nat.leb n 90) ||
   (Nat.leb 48 n && Nat.leb n 57) ||
   Nat.eqb n 46 || Nat.eqb n 95 || Nat.eqb n 45)%bool.

Fixpoint all_chars (p : ascii -> bool) (s : string) : bool :=
  match s with
  | EmptyString => true
  | String c rest => p c && all_chars p rest
  end.

(** [/^[a-zA-Z0-9._-]+$/.test(s)] *)
Definition name_pattern (s : string) : bool :=
  negb (String.eqb s "") && all_chars is_name_char s.

(** The value of [Object.getPrototypeOf]. *)
Definition prototype_of (o : value) : value :=
  match o with
  | VObj None _ => object_prototype
  | VObj (Some q) _ => q
  | _ => VUndefined
  end.

(** What [Object.prototype] answers for the key [k], [receiver] being the
    object the read started from. *)
Definition object_prototype_get (receiver : value) (k : string) : value :=
  if mem_string k object_prototype_functions then VFunction k
  else if String.eqb k "__proto__" then prototype_of receiver
  else VUndefined.

(** The read [o[k]] on a value that is neither [undefined] nor [null]: own
    property first, then the prototype chain. For a primitive, an array or
    a function the answer given is right for the keys that are read in
    this program, none of which their own prototypes define. *)
Fixpoint get_from (receiver o : value) (k : string) : value :=
  match o with
  | VObj proto props =>
      match assoc k props with
      | Some v => v
      | None =>
          match proto with
          | Some q => get_from receiver q k
          | None => object_prototype_get receiver k
          end
      end
  | VArr _ | VFunction _ => object_prototype_get receiver k
  | _ => VUndefined
  end.

Definition get_prop (o : value) (k : string) : value := get_from o o k.

(** [k in o] for an object or function [o]. *)
Fixpoint has_prop (o : value) (k : string) : bool :=
  match o with
  | VObj proto props =>
      match assoc k props with
      | Some _ => true
      | None =>
          match proto with
          | Some q => has_prop q k
          | None => mem_string k object_prototype_functions || String.eqb k "__proto__"
          end
      end
  | VArr _ | VFunction _ =>
      mem_string k object_prototype_functions || String.eqb k "__proto__"
  | _ => false
  end.

(** The message of V8 (Node.js) for a property read on [undefined] or
    [null]. *)
Definition cannot_read (of_what k : string) : exn :=
  JsError "TypeError"
    ("Cannot read properties of " +:+ of_what +:+ " (reading '" +:+ k +:+ "')").

(** The read [v.k] for any [v]. *)
Definition read_prop (v : value) (k : string) : exn + value :=
  match v with
  | VUndefined => inl (cannot_read "undefined" k)
  | VNull => inl (cannot_read "null" k)
  | _ => inr (get_prop v k)
  end.

Definition string_of_Z (n : Z) : string :=
  DecimalString.NilZero.string_of_int (Z.to_int n).

(** ToString, the conversion a template literal applies. An object is
    converted by its [toString] method; an ordinary object inherits the one
    that answers "[object Object]", and an own property [toString] that is
    no function (all [JSON.parse] can give) leaves [valueOf], which answers
    the object itself, so the conversion throws. An array joins its
    elements with commas, [null] and [undefined] counting as empty. *)
Fixpoint join_items (convert : value -> exn + string) (first : bool)
    (items : list value) : exn + string :=
  match items with
  | [] => inr EmptyString
  | x :: rest =>
      match (match x with
             | VUndefined | VNull => inr EmptyString
             | _ => convert x
             end), join_items convert false rest with
      | inl e, _ => inl e
      | _, inl e => inl e
      | inr s, inr r => inr ((if first then "" else ",") +:+ s +:+ r)
      end
  end.

Fixpoint to_string (v : value) : exn + string :=
  match v with
  | VUndefined => inr "undefined"
  | VNull => inr "null"
  | VBool true => inr "true"
  | VBool false => inr "false"
  | VNum n => inr (string_of_Z n)
  | VStr s => inr s
  | VArr items => join_items to_string true items
  | VObj _ _ =>
      match get_prop v "toString" with
      | VFunction _ => inr "[object Object]"
      | _ => inl (JsError "TypeError" "Cannot convert object to primitive value")
      end
  | VFunction name => inr ("function " +:+ name +:+ "() { [native code] }")
  end.

(** [a === b] where one side is a primitive; two objects are the same
    only by identity, which a comparison of table fields never needs. *)
Definition strict_eq (a b : value) : bool :=
  match a, b with
  | VUndefined, VUndefined | VNull, VNull => true
  | VBool x, VBool y => Bool.eqb x y
  | VNum x, VNum y => Z.eqb x y
  | VStr x, VStr y => String.eqb x y
  | _, _ => false
  end.

(** A field that the tables hold as a string, and one they hold as an
    array of strings. *)
Definition str_field (o : value) (k : string) : string :=
  match get_prop o k with VStr s => s | _ => EmptyString end.

Definition strs_field (o : value) (k : string) : list string :=
  match get_prop o k with
  | VArr items =>
      flat_map (fun x => match x with VStr s => [s] | _ => [] end) items
  | _ => []
  end.

(** ** zod schemas (src/utils/validation.ts)

    A [ZodError] is modelled by the messages of its issues. *)
Definition zod_type_name (v : value) : string :=
  match v with
  | VUndefined => "undefined"
  | VNull => "null"
  | VBool _ => "boolean"
  | VNum _ => "number"
  | VStr _ => "string"
  | VArr _ => "array"
  | VObj _ _ => "object"
  | VFunction _ => "function"
  end.

Definition invalid_type (v : value) : exn :=
  ZodError [match v with
            | VUndefined => "Required"
            | _ => "Expected string, received " +:+ zod_type_name v
            end].

Record string_schema : Type := mkSchema {
  min_length : nat * string;
  max_length : nat * string;
  pattern : option ((string -> bool) * string)
}.

(** [schema.parse(v)] for [z.string().min(..).max(..)] with an optional
    [.regex(..)]: every check is run and every failure reported. *)
Definition parse (schema : string_schema) (v : value) : exn + string :=
  match v with
  | VStr s =>
      let issues :=
        (if Nat.ltb (String.length s) (fst (min_length schema))
         then [snd (min_length schema)] else []) ++
        (if Nat.ltb (fst (max_length schema)) (String.length s)
         then [snd (max_length schema)] else []) ++
        (match pattern schema with
         | Some (test, message) => if test s then [] else [message]
         | None => []
         end) in
      match issues with
      | [] => inr s
      | _ => inl (ZodError issues)
      end
  | _ => inl (invalid_type v)
  end.

Definition componentNameSchema : string_schema :=
  mkSchema (1%nat, "Component name cannot be empty")
           (100%nat, "Component name too long")
           (Some (name_pattern, "Component name contains invalid characters")).

Definition searchQuerySchema : string_schema :=
  mkSchema (1%nat, "Search query cannot be empty")
           (200%nat, "Search query too long")
           None.

Definition topicSchema : string_schema :=
  mkSchema (1%nat, "Topic cannot be empty")
           (100%nat, "Topic too long")
           (Some (name_pattern, "Topic contains invalid characters")).

(** [exampleTypeSchema] of get-motion-example.ts. *)
Definition exampleTypeSchema : string_schema :=
  mkSchema (1%nat, "Example type cannot be empty")
           (100%nat, "Example type too long")
           None.

Definition categories_allowed : list string :=
  ["react"; "javascript"; "hooks"; "gestures"; "layout"; "examples"].

(** [categorySchema.parse(v)], for
    [z.string().optional().refine(val => !val || [...].includes(val))]. *)
Definition parse_category (v : value) : exn + value :=
  match v with
  | VUndefined => inr VUndefined
  | VStr s =>
      if (String.eqb s "" || mem_string s categories_allowed)%bool
      then inr v else inl (ZodError ["Invalid category"])
  | _ => inl (invalid_type v)
  end.

(** ** The reference tables of the tools, as the sources give them *)

(** get-motion-component.ts: the components and APIs the server knows. *)
Definition MOTION_COMPONENTS : value :=
obj [
  ("motion.div", obj [
    ("type", VStr "React Component");
    ("description", VStr "Animated div element with Motion props");
    ("category", VStr "react");
    ("examples", VArr [
      obj [
        ("title", VStr "Basic Animation");
        ("code", VStr "<motion.div
  animate={{ x: 100, y: 100 }}
  transition={{ duration: 2 }}
>
  Animated div
</motion.div>")];
      obj [
        ("title", VStr "Spring Animation");
        ("code", VStr (text "<motion.div
  animate={{ scale: 1.2 }}
  transition={{ type: ~spring~, stiffness: 300 }}
>
  Spring animated div
</motion.div>"))]]);
    ("props", VArr [
      VStr "animate";
      VStr "initial";
      VStr "exit";
      VStr "transition";
      VStr "whileHover";
      VStr "whileTap";
      VStr "whileDrag";
      VStr "layout"])]);
  ("motion.button", obj [
    ("type", VStr "React Component");
    ("description", VStr "Animated button element with Motion props");
    ("category", VStr "react");
    ("examples", VArr [
      obj [
        ("title", VStr "Interactive Button");
        ("code", VStr (text "<motion.button
  whileHover={{ scale: 1.05 }}
  whileTap={{ scale: 0.95 }}
  transition={{ type: ~spring~, stiffness: 400, damping: 17 }}
>
  Click me
</motion.button>"))]]);
    ("props", VArr [
      VStr "animate";
      VStr "initial";
      VStr "exit";
      VStr "transition";
      VStr "whileHover";
      VStr "whileTap";
      VStr "whileDrag"])]);
  ("animate", obj [
    ("type", VStr "JavaScript API");
    ("description", VStr "Animate elements using CSS selectors or DOM elements");
    ("category", VStr "javascript");
    ("examples", VArr [
      obj [
        ("title", VStr "Basic CSS Selector Animation");
        ("code", VStr (text "import { animate } from ~motion~;

animate(~#box~, { x: 100, rotate: 45 });"))];
      obj [
        ("title", VStr "DOM Element Animation with Options");
        ("code", VStr (text "import { animate } from ~motion~;

const element = document.querySelector(~.target~);
animate(element, 
  { opacity: [0, 1], scale: [0.8, 1] },
  { duration: 1, ease: ~easeOut~ }
);"))];
      obj [
        ("title", VStr "Keyframes Animation");
        ("code", VStr (text "import { animate } from ~motion~;

animate(~.circle~, {
  x: [0, 100, 0],
  y: [0, -100, 0]
}, {
  duration: 2,
  repeat: Infinity
});"))]]);
    ("parameters", VArr [VStr "target"; VStr "keyframes"; VStr "options"])]);
  ("timeline", obj [
    ("type", VStr "JavaScript API");
    ("description", VStr "Create complex, sequenced animations");
    ("category", VStr "javascript");
    ("examples", VArr [
      obj [
        ("title", VStr "Sequential Animation");
        ("code", VStr (text "import { timeline } from ~motion~;

timeline([
  [~.box1~, { x: 100 }],
  [~.box2~, { y: 100 }, { at: ~-0.5~ }],
  [~.box3~, { rotate: 180 }, { at: ~<~ }]
]);"))]]);
    ("parameters", VArr [VStr "sequence"; VStr "options"])]);
  ("useAnimate", obj [
    ("type", VStr "React Hook");
    ("description", VStr "Hook for imperative animations in React");
    ("category", VStr "hooks");
    ("examples", VArr [
      obj [
        ("title", VStr "Basic useAnimate");
        ("code", VStr (text "import { useAnimate } from ~motion/react~;

function Component() {
  const [scope, animate] = useAnimate();
  
  return (
    <div ref={scope}>
      <button onClick={() => animate(scope.current, { x: 100 })}>
        Animate
      </button>
    </div>
  );
}"))]]);
    ("returns", VArr [VStr "scope"; VStr "animate"])]);
  ("useSpring", obj [
    ("type", VStr "React Hook");
    ("description", VStr "Create spring-animated values");
    ("category", VStr "hooks");
    ("examples", VArr [
      obj [
        ("title", VStr "Spring Value");
        ("code", VStr (text "import { useSpring } from ~motion/react~;

function Component() {
  const spring = useSpring(0, { stiffness: 300, damping: 30 });
  
  return (
    <motion.div style={{ x: spring }}>
      <button onClick={() => spring.set(100)}>
        Animate
      </button>
    </motion.div>
  );
}"))]]);
    ("parameters", VArr [VStr "initialValue"; VStr "options"])]);
  ("useScroll", obj [
    ("type", VStr "React Hook");
    ("description", VStr "Track scroll progress and create scroll-linked animations");
    ("category", VStr "hooks");
    ("examples", VArr [
      obj [
        ("title", VStr "Scroll Progress");
        ("code", VStr (text "import { useScroll, useTransform, motion } from ~motion/react~;

function Component() {
  const { scrollYProgress } = useScroll();
  const scale = useTransform(scrollYProgress, [0, 1], [1, 2]);
  
  return (
    <motion.div style={{ scale }}>
      Scales as you scroll
    </motion.div>
  );
}"))]]);
    ("returns", VArr [VStr "scrollX"; VStr "scrollY"; VStr "scrollXProgress"; VStr "scrollYProgress"])])].

(** list-motion-components.ts: the components by category. *)
Definition MOTION_COMPONENTS_LIST : value :=
obj [
  ("react", VArr [
    obj [
      ("name", VStr "motion.div");
      ("description", VStr "Animated div element with Motion props");
      ("usage", VStr "<motion.div animate={{ x: 100 }} />")];
    obj [
      ("name", VStr "motion.button");
      ("description", VStr "Animated button element with Motion props");
      ("usage", VStr "<motion.button whileHover={{ scale: 1.05 }} />")];
    obj [
      ("name", VStr "motion.img");
      ("description", VStr "Animated image element with Motion props");
      ("usage", VStr (text "<motion.img layoutId=~hero~ />"))];
    obj [
      ("name", VStr "motion.span");
      ("description", VStr "Animated span element with Motion props");
      ("usage", VStr "<motion.span animate={{ opacity: 1 }} />")];
    obj [
      ("name", VStr "motion.p");
      ("description", VStr "Animated paragraph element with Motion props");
      ("usage", VStr "<motion.p initial={{ y: 20 }} animate={{ y: 0 }} />")];
    obj [
      ("name", VStr "AnimatePresence");
      ("description", VStr "Component to animate components when they are removed from the tree");
      ("usage", VStr "<AnimatePresence>{show && <motion.div exit={{ opacity: 0 }} />}</AnimatePresence>")];
    obj [
      ("name", VStr "LazyMotion");
      ("description", VStr "Reduce bundle size by loading features on demand");
      ("usage", VStr "<LazyMotion features={domMax}><motion.div /></LazyMotion>")];
    obj [
      ("name", VStr "MotionConfig");
      ("description", VStr "Configure Motion settings for child components");
      ("usage", VStr "<MotionConfig transition={{ duration: 0.5 }}><motion.div /></MotionConfig>")]]);
  ("javascript", VArr [
    obj [
      ("name", VStr "animate");
      ("description", VStr "Animate elements using CSS selectors or DOM elements");
      ("usage", VStr (text "animate(~#box~, { x: 100 })"))];
    obj [
      ("name", VStr "timeline");
      ("description", VStr "Create complex, sequenced animations");
      ("usage", VStr (text "timeline([[~#box1~, { x: 100 }], [~#box2~, { y: 100 }]])"))];
    obj [
      ("name", VStr "scroll");
      ("description", VStr "Create scroll-triggered animations");
      ("usage", VStr (text "scroll(animate(~#box~, { x: 100 }))"))];
    obj [
      ("name", VStr "inView");
      ("description", VStr "Trigger animations when elements come into view");
      ("usage", VStr (text "inView(~#box~, () => animate(~#box~, { opacity: 1 }))"))];
    obj [
      ("name", VStr "stagger");
      ("description", VStr "Create staggered animations for multiple elements");
      ("usage", VStr (text "animate(~.item~, { x: 100 }, { delay: stagger(0.1) })"))]]);
  ("hooks", VArr [
    obj [
      ("name", VStr "useAnimate");
      ("description", VStr "Hook for imperative animations in React");
      ("usage", VStr "const [scope, animate] = useAnimate()")];
    obj [
      ("name", VStr "useSpring");
      ("description", VStr "Create spring-animated values");
      ("usage", VStr "const spring = useSpring(0, { stiffness: 300 })")];
    obj [
      ("name", VStr "useScroll");
      ("description", VStr "Track scroll progress and create scroll-linked animations");
      ("usage", VStr "const { scrollYProgress } = useScroll()")];
    obj [
      ("name", VStr "useTransform");
      ("description", VStr "Transform one motion value into another");
      ("usage", VStr "const y = useTransform(scrollYProgress, [0, 1], [0, -100])")];
    obj [
      ("name", VStr "useMotionValue");
      ("description", VStr "Create a motion value to track animated values");
      ("usage", VStr "const x = useMotionValue(0)")];
    obj [
      ("name", VStr "useAnimationControls");
      ("description", VStr "Create imperative animation controls");
      ("usage", VStr "const controls = useAnimationControls()")];
    obj [
      ("name", VStr "useInView");
      ("description", VStr "Track when an element is in view");
      ("usage", VStr "const { ref, inView } = useInView()")];
    obj [
      ("name", VStr "useDragControls");
      ("description", VStr "Create custom drag controls");
      ("usage", VStr "const dragControls = useDragControls()")]]);
  ("gestures", VArr [
    obj [
      ("name", VStr "whileHover");
      ("description", VStr "Animation state while hovering");
      ("usage", VStr "<motion.div whileHover={{ scale: 1.1 }} />")];
    obj [
      ("name", VStr "whileTap");
      ("description", VStr "Animation state while tapping/clicking");
      ("usage", VStr "<motion.div whileTap={{ scale: 0.9 }} />")];
    obj [
      ("name", VStr "whileDrag");
      ("description", VStr "Animation state while dragging");
      ("usage", VStr "<motion.div drag whileDrag={{ scale: 1.2 }} />")];
    obj [
      ("name", VStr "whileInView");
      ("description", VStr "Animation state while element is in viewport");
      ("usage", VStr "<motion.div whileInView={{ opacity: 1 }} />")];
    obj [
      ("name", VStr "drag");
      ("description", VStr "Make elements draggable");
      ("usage", VStr "<motion.div drag />")];
    obj [
      ("name", VStr "dragConstraints");
      ("description", VStr "Constrain drag movements");
      ("usage", VStr "<motion.div drag dragConstraints={{ left: 0, right: 300 }} />")]]);
  ("layout", VArr [
    obj [
      ("name", VStr "layout");
      ("description", VStr "Automatically animate layout changes");
      ("usage", VStr "<motion.div layout />")];
    obj [
      ("name", VStr "layoutId");
      ("description", VStr "Share layout animations between components");
      ("usage", VStr (text "<motion.div layoutId=~shared-element~ />"))];
    obj [
      ("name", VStr "layoutScroll");
      ("description", VStr "Maintain scroll position during layout animations");
      ("usage", VStr "<motion.div layout layoutScroll />")];
    obj [
      ("name", VStr "layoutRoot");
      ("description", VStr "Create a new layout animation context");
      ("usage", VStr "<motion.div layoutRoot />")];
    obj [
      ("name", VStr "LayoutGroup");
      ("description", VStr "Group related layout animations");
      ("usage", VStr (text "<LayoutGroup><motion.div layoutId=~item~ /></LayoutGroup>"))]])].

(** get-motion-example.ts: the examples by type. *)
Definition MOTION_EXAMPLES : value :=
obj [
  ("spring-animation", obj [
    ("title", VStr "Spring Animation");
    ("description", VStr "Smooth spring-based animations with customizable physics");
    ("category", VStr "animations");
    ("examples", VArr [
      obj [
        ("framework", VStr "React");
        ("code", VStr (text "import { motion } from ~motion/react~;

function SpringButton() {
  return (
    <motion.button
      whileHover={{ scale: 1.1 }}
      whileTap={{ scale: 0.95 }}
      transition={{
        type: ~spring~,
        stiffness: 400,
        damping: 17
      }}
      className=~px-6 py-3 bg-blue-500 text-white rounded-lg~
    >
      Spring Button
    </motion.button>
  );
}"))];
      obj [
        ("framework", VStr "JavaScript");
        ("code", VStr (text "import { animate } from ~motion~;

const button = document.querySelector('.spring-button');

button.addEventListener('mouseenter', () => {
  animate(button, 
    { scale: 1.1 },
    { 
      type: ~spring~,
      stiffness: 400,
      damping: 17
    }
  );
});

button.addEventListener('mouseleave', () => {
  animate(button, 
    { scale: 1 },
    { 
      type: ~spring~,
      stiffness: 400,
      damping: 17
    }
  );
});"))]]);
    ("relatedTopics", VArr [VStr "transitions"; VStr "hover-effects"; VStr "gestures"])]);
  ("drag-gesture", obj [
    ("title", VStr "Drag Gesture");
    ("description", VStr "Interactive dragging with constraints and snap-back behavior");
    ("category", VStr "gestures");
    ("examples", VArr [
      obj [
        ("framework", VStr "React");
        ("code", VStr (text "import { motion } from ~motion/react~;

function DraggableCard() {
  return (
    <motion.div
      drag
      dragConstraints={{
        top: -50,
        left: -50,
        right: 50,
        bottom: 50,
      }}
      dragElastic={0.1}
      whileDrag={{ scale: 1.1, zIndex: 1 }}
      className=~w-32 h-32 bg-gradient-to-br from-purple-400 to-pink-400 rounded-xl cursor-grab active:cursor-grabbing~
    >
      <div className=~flex items-center justify-center h-full text-white font-bold~>
        Drag me!
      </div>
    </motion.div>
  );
}"))];
      obj [
        ("framework", VStr "JavaScript");
        ("code", VStr (text "import { animate } from ~motion~;

const draggable = document.querySelector('.draggable');
let isDragging = false;
let startX, startY, currentX = 0, currentY = 0;

draggable.addEventListener('mousedown', (e) => {
  isDragging = true;
  startX = e.clientX - currentX;
  startY = e.clientY - currentY;
  
  animate(draggable, { scale: 1.1 }, { duration: 0.1 });
});

document.addEventListener('mousemove', (e) => {
  if (!isDragging) return;
  
  currentX = e.clientX - startX;
  currentY = e.clientY - startY;
  
  // Apply constraints
  currentX = Math.max(-50, Math.min(50, currentX));
  currentY = Math.max(-50, Math.min(50, currentY));
  
  draggable.style.transform = `translate(${currentX}px, ${currentY}px)`;
});

document.addEventListener('mouseup', () => {
  if (!isDragging) return;
  isDragging = false;
  
  animate(draggable, { scale: 1 }, { duration: 0.1 });
});"))]]);
    ("relatedTopics", VArr [VStr "constraints"; VStr "gestures"; VStr "interactive-animations"])]);
  ("layout-animation", obj [
    ("title", VStr "Layout Animation");
    ("description", VStr "Smooth animations when elements change size or position in the layout");
    ("category", VStr "layout");
    ("examples", VArr [
      obj [
        ("framework", VStr "React");
        ("code", VStr (text "import { motion, AnimatePresence } from ~motion/react~;
import { useState } from ~react~;

function ExpandableCard() {
  const [isExpanded, setIsExpanded] = useState(false);

  return (
    <motion.div
      layout
      onClick={() => setIsExpanded(!isExpanded)}
      className=~bg-white rounded-lg shadow-lg cursor-pointer overflow-hidden~
      whileHover={{ scale: 1.02 }}
      transition={{ type: ~spring~, stiffness: 300, damping: 30 }}
    >
      <motion.div layout className=~p-6~>
        <motion.h2 layout className=~text-xl font-bold mb-2~>
          Expandable Card
        </motion.h2>
        <AnimatePresence>
          {isExpanded && (
            <motion.div
              initial={{ opacity: 0, height: 0 }}
              animate={{ opacity: 1, height: ~auto~ }}
              exit={{ opacity: 0, height: 0 }}
              transition={{ duration: 0.3 }}
            >
              <p className=~text-gray-600~>
                This content appears with a smooth animation when the card expands.
                The layout animation ensures smooth transitions even when the
                content changes the card's dimensions.
              </p>
            </motion.div>
          )}
        </AnimatePresence>
      </motion.div>
    </motion.div>
  );
}"))];
      obj [
        ("framework", VStr "JavaScript");
        ("code", VStr (text "import { animate, timeline } from ~motion~;

const card = document.querySelector('.expandable-card');
const content = document.querySelector('.expandable-content');
let isExpanded = false;

card.addEventListener('click', () => {
  if (!isExpanded) {
    // Expand animation
    timeline([
      [card, { height: ~auto~ }],
      [content, { opacity: [0, 1] }, { at: ~<~ }]
    ], {
      duration: 0.3,
      ease: ~easeOut~
    });
  } else {
    // Collapse animation
    timeline([
      [content, { opacity: 0 }],
      [card, { height: ~60px~ }, { at: ~-0.1~ }]
    ], {
      duration: 0.3,
      ease: ~easeOut~
    });
  }
  
  isExpanded = !isExpanded;
});"))]]);
    ("relatedTopics", VArr [VStr "layout"; VStr "animate-presence"; VStr "height-animations"])]);
  ("scroll-triggered", obj [
    ("title", VStr "Scroll-Triggered Animation");
    ("description", VStr "Animations that trigger based on scroll position and element visibility");
    ("category", VStr "scroll");
    ("examples", VArr [
      obj [
        ("framework", VStr "React");
        ("code", VStr (text "import { motion, useScroll, useTransform } from ~motion/react~;
import { useRef } from ~react~;

function ScrollAnimation() {
  const ref = useRef(null);
  const { scrollYProgress } = useScroll({
    target: ref,
    offset: [~start end~, ~end start~]
  });

  const y = useTransform(scrollYProgress, [0, 1], [100, -100]);
  const opacity = useTransform(scrollYProgress, [0, 0.3, 0.7, 1], [0, 1, 1, 0]);

  return (
    <motion.div
      ref={ref}
      style={{ y, opacity }}
      className=~h-screen flex items-center justify-center bg-gradient-to-br from-blue-400 to-purple-600~
    >
      <motion.h1
        initial={{ scale: 0.8 }}
        whileInView={{ scale: 1 }}
        transition={{ duration: 0.5 }}
        className=~text-6xl font-bold text-white~
      >
        Scroll Magic
      </motion.h1>
    </motion.div>
  );
}"))];
      obj [
        ("framework", VStr "JavaScript");
        ("code", VStr (text "import { scroll, animate, inView } from ~motion~;

// Parallax effect based on scroll
scroll(
  animate(~.parallax-element~, {
    y: [0, -200]
  })
);

// Animate elements when they come into view
inView(~.fade-in-element~, (info) => {
  animate(info.target, 
    { opacity: [0, 1], y: [50, 0] },
    { duration: 0.6, ease: ~easeOut~ }
  );
});

// Progress bar based on scroll progress
const progressBar = document.querySelector('.progress-bar');
scroll(({ y }) => {
  const progress = y.progress;
  progressBar.style.transform = `scaleX(${progress})`;
});"))]]);
    ("relatedTopics", VArr [VStr "scroll"; VStr "parallax"; VStr "in-view"; VStr "progress-indicators"])]);
  ("stagger-animation", obj [
    ("title", VStr "Stagger Animation");
    ("description", VStr "Sequential animations with delays for multiple elements");
    ("category", VStr "animations");
    ("examples", VArr [
      obj [
        ("framework", VStr "React");
        ("code", VStr (text "import { motion } from ~motion/react~;

const items = [1, 2, 3, 4, 5];

function StaggerList() {
  return (
    <div className=~space-y-4~>
      {items.map((item, index) => (
        <motion.div
          key={item}
          initial={{ opacity: 0, x: -20 }}
          animate={{ opacity: 1, x: 0 }}
          transition={{
            delay: index * 0.1,
            type: ~spring~,
            stiffness: 100
          }}
          className=~p-4 bg-white rounded-lg shadow-md~
        >
          Item {item}
        </motion.div>
      ))}
    </div>
  );
}"))];
      obj [
        ("framework", VStr "JavaScript");
        ("code", VStr (text "import { animate, stagger } from ~motion~;

// Stagger animation for multiple elements
animate(
  ~.list-item~,
  { opacity: [0, 1], y: [20, 0] },
  { 
    delay: stagger(0.1),
    duration: 0.5,
    ease: ~easeOut~
  }
);

// Stagger with different directions
animate(
  ~.grid-item~,
  { scale: [0, 1], rotate: [180, 0] },
  { 
    delay: stagger(0.05, { from: ~center~ }),
    duration: 0.3
  }
);"))]]);
    ("relatedTopics", VArr [VStr "stagger"; VStr "lists"; VStr "sequential-animations"])])].

(** search-motion-examples.ts: the examples the search goes through. *)
Definition SEARCHABLE_EXAMPLES : value :=
VArr [
  obj [
    ("id", VStr "spring-button");
    ("title", VStr "Spring Button Animation");
    ("description", VStr "Interactive button with spring physics on hover and tap");
    ("tags", VArr [VStr "button"; VStr "spring"; VStr "hover"; VStr "tap"; VStr "interactive"]);
    ("category", VStr "gestures");
    ("difficulty", VStr "beginner");
    ("code", VStr (text "<motion.button
  whileHover={{ scale: 1.05 }}
  whileTap={{ scale: 0.95 }}
  transition={{ type: ~spring~, stiffness: 400, damping: 17 }}
>
  Click me
</motion.button>"))];
  obj [
    ("id", VStr "drag-card");
    ("title", VStr "Draggable Card");
    ("description", VStr "Card component that can be dragged with constraints and elastic behavior");
    ("tags", VArr [VStr "drag"; VStr "card"; VStr "constraints"; VStr "elastic"; VStr "gesture"]);
    ("category", VStr "gestures");
    ("difficulty", VStr "intermediate");
    ("code", VStr "<motion.div
  drag
  dragConstraints={{ left: -100, right: 100, top: -100, bottom: 100 }}
  dragElastic={0.1}
  whileDrag={{ scale: 1.1 }}
>
  Drag me around!
</motion.div>")];
  obj [
    ("id", VStr "fade-in-list");
    ("title", VStr "Staggered Fade-in List");
    ("description", VStr "List items that fade in with staggered timing");
    ("tags", VArr [VStr "list"; VStr "stagger"; VStr "fade"; VStr "opacity"; VStr "animation"]);
    ("category", VStr "animations");
    ("difficulty", VStr "beginner");
    ("code", VStr "{items.map((item, index) => (
  <motion.div
    key={item.id}
    initial={{ opacity: 0, y: 20 }}
    animate={{ opacity: 1, y: 0 }}
    transition={{ delay: index * 0.1 }}
  >
    {item.content}
  </motion.div>
))}")];
  obj [
    ("id", VStr "parallax-scroll");
    ("title", VStr "Parallax Scroll Effect");
    ("description", VStr "Background elements that move at different speeds during scroll");
    ("tags", VArr [
      VStr "parallax";
      VStr "scroll";
      VStr "background";
      VStr "transform";
      VStr "useScroll"]);
    ("category", VStr "scroll");
    ("difficulty", VStr "advanced");
    ("code", VStr (text "const { scrollYProgress } = useScroll();
const y = useTransform(scrollYProgress, [0, 1], ['0%', '50%']);

return (
  <motion.div
    style={{ y }}
    className=~parallax-background~
  >
    Background content
  </motion.div>
);"))];
  obj [
    ("id", VStr "modal-animation");
    ("title", VStr "Animated Modal");
    ("description", VStr "Modal that slides in from bottom with backdrop fade");
    ("tags", VArr [
      VStr "modal";
      VStr "slide";
      VStr "backdrop";
      VStr "overlay";
      VStr "animate-presence"]);
    ("category", VStr "layout");
    ("difficulty", VStr "intermediate");
    ("code", VStr (text "<AnimatePresence>
  {isOpen && (
    <>
      <motion.div
        initial={{ opacity: 0 }}
        animate={{ opacity: 1 }}
        exit={{ opacity: 0 }}
        className=~backdrop~
      />
      <motion.div
        initial={{ y: ~100%~ }}
        animate={{ y: 0 }}
        exit={{ y: ~100%~ }}
        className=~modal~
      >
        Modal content
      </motion.div>
    </>
  )}
</AnimatePresence>"))];
  obj [
    ("id", VStr "loading-spinner");
    ("title", VStr "Loading Spinner");
    ("description", VStr "Rotating loading spinner with smooth animation");
    ("tags", VArr [
      VStr "loading";
      VStr "spinner";
      VStr "rotate";
      VStr "infinite";
      VStr "transition"]);
    ("category", VStr "animations");
    ("difficulty", VStr "beginner");
    ("code", VStr (text "<motion.div
  animate={{ rotate: 360 }}
  transition={{
    duration: 1,
    repeat: Infinity,
    ease: ~linear~
  }}
  className=~spinner~
/>"))];
  obj [
    ("id", VStr "hero-text-animation");
    ("title", VStr "Hero Text Animation");
    ("description", VStr "Large hero text that animates in with typewriter effect");
    ("tags", VArr [VStr "text"; VStr "hero"; VStr "typewriter"; VStr "stagger"; VStr "letters"]);
    ("category", VStr "text");
    ("difficulty", VStr "advanced");
    ("code", VStr (text "const text = ~Hello World~;
const letters = Array.from(text);

return (
  <div>
    {letters.map((letter, index) => (
      <motion.span
        key={index}
        initial={{ opacity: 0, y: 50 }}
        animate={{ opacity: 1, y: 0 }}
        transition={{ delay: index * 0.1 }}
      >
        {letter === ~ ~ ? ~\u00A0~ : letter}
      </motion.span>
    ))}
  </div>
);"))];
  obj [
    ("id", VStr "image-gallery");
    ("title", VStr "Animated Image Gallery");
    ("description", VStr "Image gallery with hover effects and layout animations");
    ("tags", VArr [VStr "gallery"; VStr "images"; VStr "grid"; VStr "hover"; VStr "layout"]);
    ("category", VStr "layout");
    ("difficulty", VStr "intermediate");
    ("code", VStr (text "<motion.div
  layout
  whileHover={{ scale: 1.05 }}
  className=~image-container~
>
  <motion.img
    src={image.src}
    alt={image.alt}
    layoutId={image.id}
  />
</motion.div>"))];
  obj [
    ("id", VStr "navigation-menu");
    ("title", VStr "Animated Navigation Menu");
    ("description", VStr "Mobile navigation menu that slides in from the side");
    ("tags", VArr [VStr "navigation"; VStr "menu"; VStr "mobile"; VStr "slide"; VStr "hamburger"]);
    ("category", VStr "layout");
    ("difficulty", VStr "intermediate");
    ("code", VStr (text "<motion.nav
  initial={{ x: ~-100%~ }}
  animate={{ x: isOpen ? 0 : ~-100%~ }}
  transition={{ type: ~spring~, stiffness: 300, damping: 30 }}
  className=~mobile-nav~
>
  {menuItems.map(item => (
    <motion.a
      key={item.id}
      whileHover={{ x: 10 }}
      href={item.href}
    >
      {item.label}
    </motion.a>
  ))}
</motion.nav>"))];
  obj [
    ("id", VStr "progress-bar");
    ("title", VStr "Animated Progress Bar");
    ("description", VStr "Progress bar that fills based on scroll position");
    ("tags", VArr [VStr "progress"; VStr "bar"; VStr "scroll"; VStr "indicator"; VStr "transform"]);
    ("category", VStr "scroll");
    ("difficulty", VStr "beginner");
    ("code", VStr (text "const { scrollYProgress } = useScroll();

return (
  <motion.div
    className=~progress-bar~
    style={{ scaleX: scrollYProgress }}
    transformOrigin=~0%~
  />
);"))]].

(** get-motion-docs.ts: the documentation by topic. *)
Definition MOTION_DOCS : value :=
obj [
  ("getting-started", obj [
    ("title", VStr "Getting Started with Motion");
    ("description", VStr "Learn the basics of Motion animation library");
    ("content", VStr (text "# Getting Started with Motion

Motion is a powerful animation library that provides APIs for both JavaScript and React. It combines the simplicity of CSS transitions with the power of JavaScript animations.

## Installation

### For React projects:
```bash
npm install motion
```

### For vanilla JavaScript:
```bash
npm install motion
```

## Basic Usage

### React
```jsx
import { motion } from ~motion/react~;

function App() {
  return (
    <motion.div
      initial={{ opacity: 0, y: 20 }}
      animate={{ opacity: 1, y: 0 }}
      transition={{ duration: 0.5 }}
    >
      Hello, Motion!
    </motion.div>
  );
}
```

### JavaScript
```javascript
import { animate } from ~motion~;

animate(~#my-element~, { x: 100, rotate: 180 });
```

## Core Concepts

1. **Declarative**: Describe what you want, not how to achieve it
2. **Performant**: Optimized for smooth 60fps animations
3. **Flexible**: Works with any CSS property or custom values
4. **Gesture-ready**: Built-in support for drag, hover, and tap"));
    ("relatedTopics", VArr [VStr "animation-basics"; VStr "installation"; VStr "first-animation"]);
    ("nextSteps", VArr [VStr "animation-controls"; VStr "gestures"; VStr "layout-animations"])]);
  ("animation-controls", obj [
    ("title", VStr "Animation Controls");
    ("description", VStr "Learn how to control animations programmatically");
    ("content", VStr (text "# Animation Controls

Motion provides several ways to control animations programmatically, giving you fine-grained control over when and how animations play.

## useAnimationControls (React)

```jsx
import { motion, useAnimationControls } from ~motion/react~;

function ControlledAnimation() {
  const controls = useAnimationControls();

  const startAnimation = () => {
    controls.start({
      x: 100,
      transition: { duration: 1 }
    });
  };

  return (
    <div>
      <motion.div animate={controls} />
      <button onClick={startAnimation}>Start Animation</button>
    </div>
  );
}
```

## JavaScript Controls

```javascript
import { animate } from ~motion~;

const animation = animate(~#element~, { x: 100 });

// Control the animation
animation.pause();
animation.play();
animation.stop();
animation.finish();
```

## Animation States

- **Play**: Continue or start the animation
- **Pause**: Temporarily stop the animation
- **Stop**: End the animation and reset to initial state
- **Finish**: Jump to the final state

## Chaining Animations

```jsx
controls.start({ x: 100 })
  .then(() => controls.start({ y: 100 }))
  .then(() => controls.start({ rotate: 180 }));
```"));
    ("relatedTopics", VArr [VStr "useAnimationControls"; VStr "animation-lifecycle"; VStr "chaining"]);
    ("nextSteps", VArr [VStr "gestures"; VStr "timeline"; VStr "sequence"])]);
  ("gestures", obj [
    ("title", VStr "Gesture Animations");
    ("description", VStr "Interactive animations triggered by user gestures");
    ("content", VStr (text "# Gesture Animations

Motion makes it easy to create interactive animations that respond to user input like hover, tap, and drag.

## Hover Animations

```jsx
<motion.div
  whileHover={{ scale: 1.1, rotateZ: 5 }}
  transition={{ type: ~spring~, stiffness: 300 }}
>
  Hover me!
</motion.div>
```

## Tap Animations

```jsx
<motion.button
  whileTap={{ scale: 0.95 }}
  onTap={() => console.log(~Button tapped!~)}
>
  Tap me!
</motion.button>
```

## Drag Gestures

```jsx
<motion.div
  drag
  dragConstraints={{ left: 0, right: 300, top: 0, bottom: 300 }}
  whileDrag={{ scale: 1.2 }}
  onDrag={(event, info) => console.log(info.point)}
>
  Drag me around!
</motion.div>
```

## Advanced Drag Features

- **Constraints**: Limit drag movement to specific bounds
- **Elastic**: Add bounce-back behavior when dragging beyond constraints
- **Momentum**: Continue movement after release based on velocity
- **Snap**: Snap to specific positions or grid

## Gesture Event Handlers

- `onHoverStart` / `onHoverEnd`
- `onTapStart` / `onTap` / `onTapCancel`
- `onDragStart` / `onDrag` / `onDragEnd`
- `onPanStart` / `onPan` / `onPanEnd`"));
    ("relatedTopics", VArr [VStr "drag"; VStr "hover"; VStr "tap"; VStr "pan"; VStr "gestures"]);
    ("nextSteps", VArr [VStr "drag-controls"; VStr "gesture-recognition"; VStr "touch-gestures"])]);
  ("layout-animations", obj [
    ("title", VStr "Layout Animations");
    ("description", VStr "Smooth animations when elements change size or position");
    ("content", VStr (text "# Layout Animations

Layout animations automatically animate elements when their size or position changes in the DOM layout.

## Basic Layout Animation

```jsx
<motion.div layout>
  This element will animate when its layout changes
</motion.div>
```

## Shared Layout Animations

```jsx
// Component A
<motion.div layoutId=~shared-element~>
  I'm in component A
</motion.div>

// Component B (rendered conditionally)
<motion.div layoutId=~shared-element~>
  Now I'm in component B!
</motion.div>
```

## Layout Groups

```jsx
import { LayoutGroup } from ~motion/react~;

<LayoutGroup>
  <motion.div layout>Item 1</motion.div>
  <motion.div layout>Item 2</motion.div>
</LayoutGroup>
```

## Layout Transition Options

```jsx
<motion.div
  layout
  transition={{
    layout: { duration: 0.3, ease: ~easeOut~ }
  }}
>
  Custom layout transition
</motion.div>
```

## Common Use Cases

- **Reordering lists**: Smooth transitions when list items change order
- **Responsive grids**: Animate when grid layout changes
- **Accordion**: Smooth expand/collapse animations
- **Tab switching**: Seamless transitions between tabs
- **Modal positioning**: Animate modal placement changes

## Performance Tips

- Use `layout=~position~` for position-only changes
- Use `layout=~size~` for size-only changes  
- Avoid layout animations on many elements simultaneously
- Consider using transforms instead for better performance"));
    ("relatedTopics", VArr [VStr "layout"; VStr "shared-elements"; VStr "reorder"; VStr "responsive"]);
    ("nextSteps", VArr [VStr "animate-presence"; VStr "reorder-group"; VStr "layout-projections"])]);
  ("performance", obj [
    ("title", VStr "Performance Optimization");
    ("description", VStr "Best practices for smooth and efficient animations");
    ("content", VStr (text "# Performance Optimization

Follow these guidelines to ensure your Motion animations run smoothly at 60fps.

## Prefer Transform Properties

Transform properties are GPU-accelerated and don't trigger layout recalculations:

```jsx
// Good - uses transforms
<motion.div animate={{ x: 100, scale: 1.2, rotate: 45 }} />

// Avoid - triggers layout
<motion.div animate={{ left: 100, width: 200 }} />
```

## Animatable Properties (GPU-accelerated)

- `x`, `y`, `z`
- `scale`, `scaleX`, `scaleY`
- `rotate`, `rotateX`, `rotateY`, `rotateZ`
- `skew`, `skewX`, `skewY`
- `opacity`

## Layout-triggering Properties (Use sparingly)

- `width`, `height`
- `top`, `left`, `right`, `bottom`
- `margin`, `padding`
- `border-width`

## Reduce Motion for Accessibility

```jsx
import { useReducedMotion } from ~motion/react~;

function MyComponent() {
  const shouldReduceMotion = useReducedMotion();
  
  return (
    <motion.div
      animate={{ x: shouldReduceMotion ? 0 : 100 }}
      transition={{ duration: shouldReduceMotion ? 0 : 1 }}
    >
      Respects user preferences
    </motion.div>
  );
}
```

## LazyMotion for Bundle Size

```jsx
import { LazyMotion, domAnimation, m } from ~motion/react~;

<LazyMotion features={domAnimation}>
  <m.div animate={{ x: 100 }} />
</LazyMotion>
```

## Performance Monitoring

- Use browser dev tools to monitor FPS
- Watch for layout thrashing in the Performance tab
- Use Motion's built-in performance warnings
- Test on lower-end devices

## Best Practices

1. **Batch animations**: Group related animations together
2. **Use will-change sparingly**: Only when needed for complex animations
3. **Debounce scroll events**: Limit update frequency for scroll-based animations
4. **Prefer CSS transforms**: Over changing layout properties
5. **Test on mobile**: Ensure smooth performance on all devices"));
    ("relatedTopics", VArr [
      VStr "optimization";
      VStr "gpu-acceleration";
      VStr "reduced-motion";
      VStr "bundle-size"]);
    ("nextSteps", VArr [VStr "debugging"; VStr "profiling"; VStr "accessibility"])]);
  ("scroll-animations", obj [
    ("title", VStr "Scroll-Triggered Animations");
    ("description", VStr "Create animations that respond to scroll position");
    ("content", VStr (text "# Scroll-Triggered Animations

Motion provides powerful tools for creating animations that respond to scroll position and element visibility.

## useScroll Hook

```jsx
import { motion, useScroll, useTransform } from ~motion/react~;

function ScrollComponent() {
  const { scrollYProgress } = useScroll();
  const opacity = useTransform(scrollYProgress, [0, 1], [1, 0]);
  
  return (
    <motion.div style={{ opacity }}>
      Fades out as you scroll
    </motion.div>
  );
}
```

## Element-specific Scroll Tracking

```jsx
function ElementScroll() {
  const ref = useRef(null);
  const { scrollYProgress } = useScroll({
    target: ref,
    offset: [~start end~, ~end start~]
  });
  
  const y = useTransform(scrollYProgress, [0, 1], [0, -100]);
  
  return (
    <motion.div ref={ref} style={{ y }}>
      Parallax effect
    </motion.div>
  );
}
```

## whileInView Animation

```jsx
<motion.div
  initial={{ opacity: 0, y: 50 }}
  whileInView={{ opacity: 1, y: 0 }}
  viewport={{ once: true }}
>
  Animates when scrolled into view
</motion.div>
```

## JavaScript Scroll API

```javascript
import { scroll, animate } from ~motion~;

// Animate based on scroll progress
scroll(animate(~.parallax~, { y: [0, -200] }));

// Trigger animations when elements enter view
inView(~.fade-in~, (info) => {
  animate(info.target, { opacity: 1, y: 0 });
});
```

## Common Patterns

### Progress Indicator
```jsx
const { scrollYProgress } = useScroll();

<motion.div
  style={{ scaleX: scrollYProgress }}
  className=~progress-bar~
/>
```

### Parallax Backgrounds
```jsx
const y = useTransform(scrollYProgress, [0, 1], [~0%~, ~50%~]);

<motion.div style={{ y }} className=~background~ />
```

### Reveal Animations
```jsx
<motion.section
  initial={{ opacity: 0 }}
  whileInView={{ opacity: 1 }}
  transition={{ duration: 0.8 }}
>
  Content reveals on scroll
</motion.section>
```"));
    ("relatedTopics", VArr [
      VStr "scroll";
      VStr "parallax";
      VStr "useScroll";
      VStr "whileInView";
      VStr "inView"]);
    ("nextSteps", VArr [VStr "scroll-velocity"; VStr "intersection-observer"; VStr "scroll-snap"])])].

(** ** The tool handlers (src/tools/)

    A handler body runs against the process-wide cache and may throw: a
    computation answers a value or an exception together with the cache it
    leaves behind (what was done before a [throw] stays done). The body is
    synchronous, so one reading [now] of the clock serves it. The calls of
    [logDebug] and [logError] write to the log only and are left out. *)
Definition M (A : Type) : Type :=
  gmap string CacheEntry -> (exn + A) * gmap string CacheEntry.

Definition ret {A : Type} (a : A) : M A := fun cache => (inr a, cache).

Definition bind {A B : Type} (m : M A) (f : A -> M B) : M B :=
  fun cache =>
    match m cache with
    | (inl e, cache') => (inl e, cache')
    | (inr a, cache') => f a cache'
    end.

Definition lift {A : Type} (r : exn + A) : M A := fun cache => (r, cache).

Definition cache_get (now : Z) (key : string) : M value :=
  fun cache => let (v, cache') := Cache.get cache now key in (inr v, cache').

Definition cache_set (now : Z) (key : string) (d : value) (ttl : Z) : M unit :=
  fun cache => (inr tt, Cache.set cache now key d (Some ttl)).

Notation "x <- m ;; k" := (bind m (fun x => k))
  (at level 100, m at next level, right associativity).
Notation "m ;;; k" := (bind m (fun _ => k))
  (at level 100, right associativity).

Definition strings (l : list string) : value := VArr (map VStr l).

(** The [details] of a validation failure: zod's issues, each by its
    message. *)
Definition issues_value (issues : list string) : value :=
  VArr (map (fun m => obj [("message", VStr m)]) issues).

(** The [try { ... } catch (error) { ... }] around every handler body:
    [invalid] is the text for a [ZodError], [failed] the text for anything
    else, whose [message] is
    [error instanceof Error ? error.message : 'Unknown error']. *)
Definition catch_all (invalid failed : string) (body : M value)
    : gmap string CacheEntry -> value * gmap string CacheEntry :=
  fun cache =>
    match body cache with
    | (inr result, cache') => (result, cache')
    | (inl (ZodError issues), cache') =>
        (obj [("error", VStr invalid); ("details", issues_value issues)], cache')
    | (inl (JsError _ message), cache') =>
        (obj [("error", VStr failed); ("message", VStr message)], cache')
    | (inl (Thrown _), cache') =>
        (obj [("error", VStr failed); ("message", VStr "Unknown error")], cache')
    end.

(** [name.toLowerCase().includes(other.toLowerCase()) ||
     other.toLowerCase().includes(name.toLowerCase())] *)
Definition similar_name (other name : string) : bool :=
  includes (toLowerCase name) (toLowerCase other) ||
  includes (toLowerCase other) (toLowerCase name).

(** [Object.keys] of a table. *)
Definition object_keys (o : value) : list string :=
  match o with
  | VObj _ props => keys props
  | _ => []
  end.

(** *** get_motion_component *)

(** [...('k' in info && { k: info.k })] *)
Definition spread_if_in (info : value) (k : string) : list (string * value) :=
  if has_prop info k then [(k, get_prop info k)] else [].

Definition handleGetMotionComponent_body (now : Z) (params : value) : M value :=
  raw <- lift (read_prop params "componentName") ;;
  componentName <- lift (parse componentNameSchema raw) ;;
  let cacheKey := "motion-component-" +:+ componentName in
  cached <- cache_get now cacheKey ;;
  if truthy cached then ret cached else
  let componentInfo := get_prop MOTION_COMPONENTS componentName in
  if negb (truthy componentInfo) then
    let similar := List.filter (similar_name componentName) (object_keys MOTION_COMPONENTS) in
    let result := obj [
      ("error", VStr ("Component " +:+ dq +:+ componentName +:+ dq +:+ " not found"));
      ("availableComponents", strings (object_keys MOTION_COMPONENTS));
      ("suggestions", strings (match similar with
                               | [] => ["motion.div"; "animate"; "useAnimate"]
                               | _ => similar
                               end))] in
    cache_set now cacheKey result 300000 ;;;
    ret result
  else
    category <- lift (to_string (get_prop componentInfo "category")) ;;
    let result := obj (
      [("name", VStr componentName);
       ("type", get_prop componentInfo "type");
       ("description", get_prop componentInfo "description");
       ("category", get_prop componentInfo "category");
       ("examples", get_prop componentInfo "examples")] ++
      spread_if_in componentInfo "props" ++
      spread_if_in componentInfo "parameters" ++
      spread_if_in componentInfo "returns" ++
      [("documentation", VStr ("https://motion.dev/docs/" +:+ category));
       ("relatedComponents",
        strings (take 5 (List.filter
          (fun name =>
             strict_eq (get_prop (get_prop MOTION_COMPONENTS name) "category")
                       (get_prop componentInfo "category")
             && negb (String.eqb name componentName))
          (object_keys MOTION_COMPONENTS))))]) in
    cache_set now cacheKey result 300000 ;;;
    ret result.

Definition handleGetMotionComponent (now : Z) (params : value)
    : gmap string CacheEntry -> value * gmap string CacheEntry :=
  catch_all "Invalid parameters"
            "An error occurred while fetching component information"
            (handleGetMotionComponent_body now params).

(** *** list_motion_components *)

Definition array_length (v : value) : Z :=
  match v with
  | VArr items => Z.of_nat (length items)
  | _ => 0
  end.

Definition handleListMotionComponents_body (now : Z) (params : value) : M value :=
  let validatedParams := if truthy params then params else obj [] in
  let category := get_prop validatedParams "category" in
  (* the template literal of the first logDebug converts a truthy category *)
  _ <- lift (if truthy category then to_string category else inr EmptyString) ;;
  keyPart <- lift (if truthy category then to_string category else inr "all") ;;
  let cacheKey := "motion-components-list-" +:+ keyPart in
  cached <- cache_get now cacheKey ;;
  if truthy cached then ret cached else
  result <-
    (if truthy category then
       _ <- lift (parse_category category) ;;
       name <- lift (to_string category) ;;
       let components := get_prop MOTION_COMPONENTS_LIST name in
       if negb (truthy components) then
         ret (obj [("error", VStr ("Invalid category: " +:+ name));
                   ("availableCategories", strings (object_keys MOTION_COMPONENTS_LIST))])
       else
         ret (obj [("category", category);
                   ("components", components);
                   ("totalCount", VNum (array_length components))])
     else
       let counts :=
         map (fun k => (k, array_length (get_prop MOTION_COMPONENTS_LIST k)))
             (object_keys MOTION_COMPONENTS_LIST) in
       let totalCount := fold_left (fun sum kc => sum + snd kc) counts 0 in
       ret (obj [
         ("categories", MOTION_COMPONENTS_LIST);
         ("summary", obj [
            ("totalComponents", VNum totalCount);
            ("categoryCounts",
             fold_left (fun acc kc => set_prop acc (fst kc) (VNum (snd kc)))
                       counts (obj []))]);
         ("gettingStarted", obj [
            ("react", VStr "npm install motion");
            ("javascript", VStr (text "import { animate } from ~motion~"));
            ("documentation", VStr "https://motion.dev/docs")])])) ;;
  cache_set now cacheKey result 600000 ;;;
  ret result.

Definition handleListMotionComponents (now : Z) (params : value)
    : gmap string CacheEntry -> value * gmap string CacheEntry :=
  catch_all "Invalid parameters"
            "An error occurred while listing components"
            (handleListMotionComponents_body now params).

(** *** get_motion_example *)

Definition handleGetMotionExample_body (now : Z) (params : value) : M value :=
  raw <- lift (read_prop params "exampleType") ;;
  exampleType <- lift (parse exampleTypeSchema raw) ;;
  let cacheKey := "motion-example-" +:+ exampleType in
  cached <- cache_get now cacheKey ;;
  if truthy cached then ret cached else
  let example := get_prop MOTION_EXAMPLES exampleType in
  if negb (truthy example) then
    let similar := List.filter (similar_name exampleType) (object_keys MOTION_EXAMPLES) in
    let result := obj [
      ("error", VStr ("Example " +:+ dq +:+ exampleType +:+ dq +:+ " not found"));
      ("availableExamples", strings (object_keys MOTION_EXAMPLES));
      ("suggestions", strings (match similar with
                               | [] => ["spring-animation"; "drag-gesture"; "layout-animation"]
                               | _ => similar
                               end))] in
    cache_set now cacheKey result 300000 ;;;
    ret result
  else
    category <- lift (to_string (get_prop example "category")) ;;
    let result := obj [
      ("exampleType", VStr exampleType);
      ("title", get_prop example "title");
      ("description", get_prop example "description");
      ("category", get_prop example "category");
      ("examples", get_prop example "examples");
      ("relatedTopics", get_prop example "relatedTopics");
      ("tips", strings [
         text "Always import Motion components from ~motion/react~ for React projects";
         "Use TypeScript for better development experience and type safety";
         "Consider performance with many animated elements - use transform properties when possible";
         "Test animations on different devices and screen sizes"]);
      ("documentation", VStr ("https://motion.dev/docs/" +:+ category));
      ("playground", VStr "https://motion.dev/examples")] in
    cache_set now cacheKey result 600000 ;;;
    ret result.

Definition handleGetMotionExample (now : Z) (params : value)
    : gmap string CacheEntry -> value * gmap string CacheEntry :=
  catch_all "Invalid parameters"
            "An error occurred while fetching example"
            (handleGetMotionExample_body now params).

(** *** search_motion_examples *)

Definition array_items (v : value) : list value :=
  match v with
  | VArr items => items
  | _ => []
  end.

(** The key under which a search is cached. *)
Definition search_cache_key (query : string) : string :=
  "motion-search-" +:+ replace_spaces false (toLowerCase query).

(** [query.toLowerCase().split(/\s+/)] *)
Definition search_terms (query : string) : list string :=
  split_spaces false EmptyString (toLowerCase query).

(** The filter: some term occurs in the title, description, tags,
    category and code of the example, joined by spaces and lowered. *)
Definition example_matches (terms : list string) (example : value) : bool :=
  let searchableText :=
    toLowerCase (join " " ([str_field example "title"; str_field example "description"]
                           ++ strs_field example "tags"
                           ++ [str_field example "category"; str_field example "code"])) in
  existsb (fun term => includes searchableText term) terms.

Definition relevance (terms : list string) (example : value) : Z :=
  fold_left
    (fun score term =>
       score
       + (if includes (toLowerCase (str_field example "title")) term then 3 else 0)
       + (if includes (toLowerCase (str_field example "description")) term then 2 else 0)
       + (if existsb (fun tag => includes tag term) (strs_field example "tags")
          then 1 else 0))
    terms 0.

(** [sort((a, b) => b.relevanceScore - a.relevanceScore)]: by falling
    score, examples of equal score in their order of the table (the sort
    of arrays is stable). *)
Fixpoint insert_by_score (x : Z * value) (sorted : list (Z * value)) : list (Z * value) :=
  match sorted with
  | [] => [x]
  | y :: rest =>
      if Z.ltb (fst y) (fst x) then x :: sorted else y :: insert_by_score x rest
  end.

Definition sort_by_score (l : list (Z * value)) : list (Z * value) :=
  fold_left (fun sorted x => insert_by_score x sorted) l [].

Definition search_results (query : string) : list value :=
  let terms := search_terms query in
  let found := List.filter (example_matches terms) (array_items SEARCHABLE_EXAMPLES) in
  map snd (sort_by_score (map (fun example => (relevance terms example, example)) found)).

Definition handleSearchMotionExamples_body (now : Z) (params : value) : M value :=
  raw <- lift (read_prop params "query") ;;
  query <- lift (parse searchQuerySchema raw) ;;
  let cacheKey := search_cache_key query in
  cached <- cache_get now cacheKey ;;
  if truthy cached then ret cached else
  let results := search_results query in
  let result := obj [
    ("query", VStr query);
    ("totalResults", VNum (Z.of_nat (length results)));
    ("results", VArr results);
    ("suggestions",
     match results with
     | [] => strings [
         text "Try broader terms like ~animation~, ~gesture~, or ~scroll~";
         text "Search for specific components like ~button~, ~modal~, or ~card~";
         text "Look for animation types like ~spring~, ~fade~, or ~slide~"]
     | _ => VUndefined
     end);
    ("categories", strings ["animations"; "gestures"; "layout"; "scroll"; "text"]);
    ("popularExamples",
     match results with
     | [] => strings ["spring-button"; "drag-card"; "fade-in-list"; "parallax-scroll"]
     | _ => VUndefined
     end)] in
  cache_set now cacheKey result 300000 ;;;
  ret result.

Definition handleSearchMotionExamples (now : Z) (params : value)
    : gmap string CacheEntry -> value * gmap string CacheEntry :=
  catch_all "Invalid search query"
            "An error occurred while searching examples"
            (handleSearchMotionExamples_body now params).

(** *** get_motion_docs *)

Definition pad_left (width : nat) (s : string) : string :=
  string_of_list_ascii (repeat "0"%char (width - String.length s)) +:+ s.

(** [new Date(now).toISOString().split('T')[0]]: the UTC date of the
    clock reading, by the civil calendar. *)
Definition toISODate (now : Z) : string :=
  let z := now / 86400000 + 719468 in
  let era := z / 146097 in
  let doe := z - era * 146097 in
  let yoe := (doe - doe / 1460 + doe / 36524 - doe / 146096) / 365 in
  let doy := doe - (365 * yoe + yoe / 4 - yoe / 100) in
  let mp := (5 * doy + 2) / 153 in
  let d := doy - (153 * mp + 2) / 5 + 1 in
  let m := if Z.ltb mp 10 then mp + 3 else mp - 9 in
  let y := yoe + era * 400 + (if Z.leb m 2 then 1 else 0) in
  let year :=
    if (Z.leb 0 y && Z.leb y 9999)%bool then pad_left 4 (string_of_Z y)
    else (if Z.ltb y 0 then "-" else "+") +:+ pad_left 6 (string_of_Z (Z.abs y)) in
  year +:+ "-" +:+ pad_left 2 (string_of_Z m) +:+ "-" +:+ pad_left 2 (string_of_Z d).

Definition handleGetMotionDocs_body (now : Z) (params : value) : M value :=
  raw <- lift (read_prop params "topic") ;;
  topic <- lift (parse topicSchema raw) ;;
  let cacheKey := "motion-docs-" +:+ topic in
  cached <- cache_get now cacheKey ;;
  if truthy cached then ret cached else
  let doc := get_prop MOTION_DOCS topic in
  if negb (truthy doc) then
    let similar := List.filter (similar_name topic) (object_keys MOTION_DOCS) in
    let result := obj [
      ("error", VStr ("Documentation topic " +:+ dq +:+ topic +:+ dq +:+ " not found"));
      ("availableTopics", strings (object_keys MOTION_DOCS));
      ("suggestions", strings (match similar with
                               | [] => ["getting-started"; "animation-controls"; "gestures"]
                               | _ => similar
                               end))] in
    cache_set now cacheKey result 300000 ;;;
    ret result
  else
    let result := obj [
      ("topic", VStr topic);
      ("title", get_prop doc "title");
      ("description", get_prop doc "description");
      ("content", get_prop doc "content");
      ("relatedTopics", get_prop doc "relatedTopics");
      ("nextSteps", get_prop doc "nextSteps");
      ("officialDocs", VStr ("https://motion.dev/docs/" +:+ topic));
      ("examples", VStr "https://motion.dev/examples");
      ("lastUpdated", VStr (toISODate now))] in
    cache_set now cacheKey result 1800000 ;;;
    ret result.

Definition handleGetMotionDocs (now : Z) (params : value)
    : gmap string CacheEntry -> value * gmap string CacheEntry :=
  catch_all "Invalid topic parameter"
            "An error occurred while fetching documentation"
            (handleGetMotionDocs_body now params).

(** *** The registry of src/tools/index.ts *)

Inductive tool : Type :=
| get_motion_component
| list_motion_components
| get_motion_example
| search_motion_examples
| get_motion_docs.

Definition toolHandlers (t : tool) (now : Z) (params : value)
    : gmap string CacheEntry -> value * gmap string CacheEntry :=
  match t with
  | get_motion_component => handleGetMotionComponent now params
  | list_motion_components => handleListMotionComponents now params
  | get_motion_example => handleGetMotionExample now params
  | search_motion_examples => handleSearchMotionExamples now params
  | get_motion_docs => handleGetMotionDocs now params
  end.

(** The body of each handler and the two texts of its [catch]. *)
Definition tool_body (t : tool) : Z -> value -> M value :=
  match t with
  | get_motion_component => handleGetMotionComponent_body
  | list_motion_components => handleListMotionComponents_body
  | get_motion_example => handleGetMotionExample_body
  | search_motion_examples => handleSearchMotionExamples_body
  | get_motion_docs => handleGetMotionDocs_body
  end.

Definition tool_invalid_text (t : tool) : string :=
  match t with
  | search_motion_examples => "Invalid search query"
  | get_motion_docs => "Invalid topic parameter"
  | _ => "Invalid parameters"
  end.

Definition tool_failed_text (t : tool) : string :=
  match t with
  | get_motion_component => "An error occurred while fetching component information"
  | list_motion_components => "An error occurred while listing components"
  | get_motion_example => "An error occurred while fetching example"
  | search_motion_examples => "An error occurred while searching examples"
  | get_motion_docs => "An error occurred while fetching documentation"
  end.

Definition is_Some_b {A : Type} (o : option A) : bool :=
  match o with Some _ => true | None => false end.

(** A result that is an error object: it has an own property [error]. *)
Definition is_error_result (v : value) : bool :=
  match v with
  | VObj _ props => is_Some_b (assoc "error" props)
  | _ => false
  end.

(** The ttl under which each tool stores a result, read off the calls of
    [cache.set] in the five handlers. *)
Definition stored_ttl (t : tool) (result : value) : Z :=
  match t with
  | get_motion_component => 300000
  | list_motion_components => 600000
  | get_motion_example => if is_error_result result then 300000 else 600000
  | search_motion_examples => 300000
  | get_motion_docs => if is_error_result result then 300000 else 1800000
  end.

(** ** Notions used to state the properties *)

(** Notions to say what [trim] removes and what it leaves. *)
Fixpoint all_space (s : string) : bool :=
  match s with
  | EmptyString => true
  | String c r => is_space c && all_space r
  end.

Fixpoint last_char (s : string) : option ascii :=
  match s with
  | EmptyString => None
  | String c EmptyString => Some c
  | String _ r => last_char r
  end.

(** What a computation may do to the cache: leave an entry alone, drop it,
    or store its own result under a ttl that [P] accepts. *)
Definition stores_only (P : value -> Z -> Prop) (now : Z) (m : M value) : Prop :=
  forall (cache : gmap string CacheEntry) (key : string),
    snd (m cache) !! key = cache !! key \/
    snd (m cache) !! key = None \/
    exists r ttl,
      fst (m cache) = inr r /\ P r ttl /\
      snd (m cache) !! key = Some (mkEntry r now ttl).

(** A computation that does not touch the cache. *)
Definition cache_free {A : Type} (m : M A) : Prop :=
  forall cache : gmap string CacheEntry, snd (m cache) = cache.

(** A well-formed request of each tool with the one string [s] as its
    parameter, whether [s] passes the validation of the tool, and the key
    under which the handler caches its answer. *)
Definition tool_param (t : tool) : string :=
  match t with
  | get_motion_component => "componentName"
  | list_motion_components => "category"
  | get_motion_example => "exampleType"
  | search_motion_examples => "query"
  | get_motion_docs => "topic"
  end.

Definition tool_request (t : tool) (s : string) : value :=
  obj [(tool_param t, VStr s)].

Definition passes {A : Type} (r : exn + A) : bool :=
  match r with inr _ => true | inl _ => false end.

Definition valid_param (t : tool) (s : string) : bool :=
  match t with
  | get_motion_component => passes (parse componentNameSchema (VStr s))
  | list_motion_components => negb (String.eqb s "") && passes (parse_category (VStr s))
  | get_motion_example => passes (parse exampleTypeSchema (VStr s))
  | search_motion_examples => passes (parse searchQuerySchema (VStr s))
  | get_motion_docs => passes (parse topicSchema (VStr s))
  end.

Definition tool_cache_key (t : tool) (s : string) : string :=
  match t with
  | get_motion_component => "motion-component-" +:+ s
  | list_motion_components => "motion-components-list-" +:+ s
  | get_motion_example => "motion-example-" +:+ s
  | search_motion_examples => search_cache_key s
  | get_motion_docs => "motion-docs-" +:+ s
  end.

(** Whatever a lookup in a table finds, its [category] converts to a
    string: the entries hold strings, and what is inherited has none. *)
Definition categories_convert (table : value) : bool :=
  match table with
  | VObj None props =>
      forallb (fun kv => passes (to_string (get_prop (snd kv) "category"))) props
  | _ => false
  end.

(** The same calls made on the dependency directly, without a breaker. *)
Fixpoint run_plain {W T : Type} (w : W) (calls : list (Z * operation W T))
    : W * list (settled T) :=
  match calls with
  | [] => (w, [])
  | (_, op) :: rest =>
      let a := op w in
      let '(w', rs) := run_plain (world a) rest in
      (w', outcome a :: rs)
  end.

(** The number of failures in a row at the end of a list of outcomes,
    [f] being the number before the list, and whether that number stayed
    under [th] all along. *)
Fixpoint streak_after {T : Type} (f : Z) (results : list (settled T)) : Z :=
  match results with
  | [] => f
  | Fulfilled _ :: rest => streak_after 0 rest
  | Rejected _ :: rest => streak_after (f + 1) rest
  end.

Fixpoint streaks_below {T : Type} (th f : Z) (results : list (settled T)) : bool :=
  match results with
  | [] => true
  | Fulfilled _ :: rest => streaks_below th 0 rest
  | Rejected _ :: rest => Z.ltb (f + 1) th && streaks_below th (f + 1) rest
  end.

(** Trials on an OPEN breaker that all fail, each made when the timeout
    has passed since the failure before it ([last]). *)
Fixpoint failing_trials {W T : Type} (timeout last : Z) (w : W)
    (calls : list (Z * operation W T)) : Prop :=
  match calls with
  | [] => True
  | (now, op) :: rest =>
      timeout <= now - last /\
      (exists e, outcome (op w) = Rejected e) /\
      failing_trials timeout (settledAt (op w)) (world (op w)) rest
  end.

(** The clock reading of the last settlement of a run, [last] if none. *)
Fixpoint last_settled {W T : Type} (last : Z) (w : W)
    (calls : list (Z * operation W T)) : Z :=
  match calls with
  | [] => last
  | (_, op) :: rest => last_settled (settledAt (op w)) (world (op w)) rest
  end.

(** Every string of a value is trimmed: in its arrays, in its own
    properties and along its prototype. *)
Fixpoint strings_trimmed (v : value) : Prop :=
  match v with
  | VStr s => trim s = s
  | VArr items => fold_right (fun x acc => strings_trimmed x /\ acc) True items
  | VObj proto props =>
      match proto with
      | Some q => strings_trimmed q
      | None => True
      end /\
      fold_right (fun kv acc => strings_trimmed (snd kv) /\ acc) True props
  | _ => True
  end.

Definition not_proto_key (kv : string * value) : bool :=
  negb (String.eqb (fst kv) "__proto__").

(** What the entry [__proto__] of a mapping, if it has one, makes the
    prototype of the sanitized mapping. *)
Definition sanitized_proto (props : list (string * value)) : option value :=
  match assoc "__proto__" props with
  | Some v => if is_object_or_null (sanitizeObject v) then Some (sanitizeObject v) else None
  | None => None
  end.

(** The reference table in which a tool looks its parameter up, the key
    under which a not-found answer lists what the table holds, and the
    check that every entry of a table is truthy. *)
Definition tool_table (t : tool) : option value :=
  match t with
  | get_motion_component => Some MOTION_COMPONENTS
  | list_motion_components => Some MOTION_COMPONENTS_LIST
  | get_motion_example => Some MOTION_EXAMPLES
  | search_motion_examples => None
  | get_motion_docs => Some MOTION_DOCS
  end.

Definition tool_listing (t : tool) : string :=
  match t with
  | get_motion_component => "availableComponents"
  | list_motion_components => "availableCategories"
  | get_motion_example => "availableExamples"
  | search_motion_examples => "categories"
  | get_motion_docs => "availableTopics"
  end.

(** The names a not-found answer suggests when no key of the table is
    similar to the parameter; list_motion_components and
    search_motion_examples suggest none. *)
Definition default_suggestions (t : tool) : list string :=
  match t with
  | get_motion_component => ["motion.div"; "animate"; "useAnimate"]
  | get_motion_example => ["spring-animation"; "drag-gesture"; "layout-animation"]
  | get_motion_docs => ["getting-started"; "animation-controls"; "gestures"]
  | list_motion_components | search_motion_examples => []
  end.

Definition entries_truthy (table : value) : bool :=
  match table with
  | VObj None props => forallb (fun kv => truthy (snd kv)) props
  | _ => false
  end.

(** ** Resource templates (src/resources.ts) *)

(** [s.startsWith(prefix)] *)
Definition startsWith (s prefix : string) : bool := String.prefix prefix s.

Fixpoint drop_chars (n : nat) (s : string) : string :=
  match n, s with
  | O, _ => s
  | S n', String _ rest => drop_chars n' rest
  | S _, EmptyString => EmptyString
  end.

(** [s.replace(pattern, replacement)] for a pattern that is a string: the
    first occurrence is replaced. The replacements of this program hold no
    [$], so none of the special patterns of a replacement applies. *)
Fixpoint replace (pattern replacement s : string) : string :=
  if String.prefix pattern s
  then replacement +:+ drop_chars (String.length pattern) s
  else match s with
       | EmptyString => EmptyString
       | String c rest => String c (replace pattern replacement rest)
       end.

(** What the function returned by [getResourceTemplate] answers. *)
Record ResourceContent : Type := mkContent {
  contentType : string;
  content : string
}.

Definition component_template (name : string) : ResourceContent :=
  mkContent "text/plain"
   ("Motion Component: " +:+ name +:+
    (text "

This is a template resource for the Motion component ~") +:+ name +:+
    (text "~.
Use the get_motion_component tool for detailed information and examples.

Available information:
- Component description and usage
- Code examples for React and JavaScript
- Props and configuration options
- Performance considerations
- Related components

To get complete information, use:
get_motion_component(componentName: ~") +:+ name +:+
    (text "~)")).

Definition example_template (name : string) : ResourceContent :=
  mkContent "text/plain"
   ("Motion Example: " +:+ name +:+
    (text "

This is a template resource for the Motion example ~") +:+ name +:+
    (text "~.
Use the get_motion_example tool for detailed code examples and tutorials.

Available information:
- Complete code examples
- Step-by-step implementation
- Variations and customizations
- Best practices
- Related patterns

To get complete information, use:
get_motion_example(exampleType: ~") +:+ name +:+
    (text "~)")).

Definition docs_template (name : string) : ResourceContent :=
  mkContent "text/markdown"
   ("# Motion Documentation: " +:+ name +:+
    (text "

This is a template resource for Motion documentation on ~") +:+ name +:+
    (text "~.
Use the get_motion_docs tool for comprehensive documentation.

Available topics:
- getting-started: Basic setup and first animations
- animation-controls: Programmatic animation control
- gestures: Interactive animations (hover, tap, drag)
- layout-animations: Smooth layout transitions
- performance: Optimization best practices
- scroll-animations: Scroll-triggered effects

To get complete information, use:
get_motion_docs(topic: ~") +:+ name +:+
    (text "~)")).

Definition getResourceTemplate (uri : string) : option ResourceContent :=
  if startsWith uri "motion://component/" then
    let componentName := replace "motion://component/" EmptyString uri in
    Some (component_template componentName)
  else if startsWith uri "motion://example/" then
    let exampleType := replace "motion://example/" EmptyString uri in
    Some (example_template exampleType)
  else if startsWith uri "motion://docs/" then
    let topic := replace "motion://docs/" EmptyString uri in
    Some (docs_template topic)
  else None.

(** ** The start of the server (src/index.ts) and the wrapper of axios
    (src/utils/axios.ts) *)

(** [l.findIndex(p)], [None] for the answer -1. *)
Fixpoint findIndex (p : string -> bool) (l : list string) : option nat :=
  match l with
  | [] => None
  | x :: rest => if p x then Some O else option_map S (findIndex p rest)
  end.

(** How [parseArgs] ends: it prints the help or the version and exits
    with code 0, or it returns the key. *)
Inductive parsed : Type :=
| ExitHelp
| ExitVersion
| Parsed (githubApiKey : option string).

(** [arg => arg === '--github-api-key' || arg === '-g'] *)
Definition is_key_flag (arg : string) : bool :=
  String.eqb arg "--github-api-key" || String.eqb arg "-g".

(** [args] is [process.argv.slice(2)] and [env] the variable
    [GITHUB_PERSONAL_ACCESS_TOKEN] of the environment, if it is set. *)
Definition parseArgs (args : list string) (env : option string) : parsed :=
  if mem_string "--help" args || mem_string "-h" args then ExitHelp
  else if mem_string "--version" args || mem_string "-v" args then ExitVersion
  else
    let from_env :=
      match env with
      | Some token => if negb (String.eqb token "") then Some token else None
      | None => None
      end in
    match findIndex is_key_flag args with
    | Some githubApiKeyIndex =>
        match args !! S githubApiKeyIndex with
        | Some token => if negb (String.eqb token "") then Parsed (Some token)
                        else Parsed from_env
        | None => Parsed from_env
        end
    | None => Parsed from_env
    end.

(** Of the wrapper: the key it keeps and the [Authorization] header among
    the default headers of its instance. *)
Record AxiosWrapper : Type := mkAxios {
  githubApiKey : option string;
  authorization : option string
}.

Definition axios : AxiosWrapper := mkAxios None None.

Definition setGitHubApiKey (w : AxiosWrapper) (key : string) : AxiosWrapper :=
  mkAxios (Some key) (Some ("token " +:+ key)).

Definition getGitHubApiKey (w : AxiosWrapper) : option string := githubApiKey w.

(** The first steps of [main]: the wrapper as it is when the server is
    set up, or [None] when [parseArgs] has ended the process. *)
Definition main_configure (args : list string) (env : option string) : option AxiosWrapper :=
  match parseArgs args env with
  | ExitHelp | ExitVersion => None
  | Parsed (Some key) =>
      if negb (String.eqb key "") then Some (setGitHubApiKey axios key) else Some axios
  | Parsed None => Some axios
  end.

(** A computation that leaves the entry under the key [k] as it is. *)
Definition leaves {A : Type} (k : string) (m : M A) : Prop :=
  forall cache : gmap string CacheEntry, snd (m cache) !! k = cache !! k.

(** Two caches that hold the same entries among those live at [now], and
    a computation that cannot tell such caches apart. *)
Definition same_live (now : Z) (c1 c2 : gmap string CacheEntry) : Prop :=
  forall k e, now - timestamp e <= ttl e -> (c1 !! k = Some e <-> c2 !! k = Some e).

Definition respects {A : Type} (now : Z) (m : M A) : Prop :=
  forall c1 c2,
    same_live now c1 c2 ->
    fst (m c1) = fst (m c2) /\ same_live now (snd (m c1)) (snd (m c2)).

(** * Part II: properties *)

(** *** Properties of the cache *)

Lemma isExpired_spec now e :
  Cache.isExpired now e = true <-> now - timestamp e > ttl e.
Proof. unfold Cache.isExpired. rewrite Z.ltb_lt. lia. Qed.

Lemma isExpired_live now e :
  Cache.isExpired now e = false <-> now - timestamp e <= ttl e.
Proof. unfold Cache.isExpired. rewrite Z.ltb_ge. lia. Qed.

(** C4. [get] answers the stored value exactly for a live entry
    ([now - timestamp <= ttl]); an expired entry is deleted and the answer
    is [null]; a missing key answers [null] and leaves the map alone. In
    no case is the value of an expired entry returned. *)
Theorem cache_get_lazy_expiry (cache : gmap string CacheEntry) (now : Z) (k : string) :
  match cache !! k with
  | Some e =>
      if decide (now - timestamp e <= ttl e)
      then Cache.get cache now k = (data e, cache)
      else Cache.get cache now k = (VNull, base.delete k cache) /\
           snd (Cache.get cache now k) !! k = None
  | None => Cache.get cache now k = (VNull, cache)
  end.
Proof.
  unfold Cache.get. destruct (cache !! k) as [e|] eqn:Hk; [|reflexivity].
  destruct (decide _) as [Hlive|Hold].
  - apply isExpired_live in Hlive. now rewrite Hlive.
  - assert (Cache.isExpired now e = true) as -> by (apply isExpired_spec; lia).
    split; [reflexivity|]. simpl. apply lookup_delete_eq.
Qed.

(** C9. A second [set] on the same key replaces the entry as a whole: the
    map is the one a single [set] of the second value would give, [get]
    answers the second value, and liveness is counted from the time of
    the second [set] with the second ttl. *)
Theorem cache_set_overwrites (cache : gmap string CacheEntry) (k : string)
    (v1 v2 : value) (ttl1 ttl2 : option Z) (t1 t2 now : Z) :
  let c2 := Cache.set (Cache.set cache t1 k v1 ttl1) t2 k v2 ttl2 in
  c2 = Cache.set cache t2 k v2 ttl2 /\
  c2 !! k = Some (mkEntry v2 t2 (Cache.effective_ttl ttl2)) /\
  Cache.get c2 now k =
    if decide (now - t2 <= Cache.effective_ttl ttl2)
    then (v2, c2) else (VNull, base.delete k c2).
Proof.
  cbv zeta. unfold Cache.set. rewrite insert_insert_eq. split; [reflexivity|].
  split; [apply lookup_insert_eq|].
  unfold Cache.get. rewrite lookup_insert_eq. unfold Cache.isExpired. simpl.
  destruct (decide _) as [H|H].
  - assert (Z.ltb (Cache.effective_ttl ttl2) (now - t2) = false) as -> by (apply Z.ltb_ge; lia).
    reflexivity.
  - assert (Z.ltb (Cache.effective_ttl ttl2) (now - t2) = true) as -> by (apply Z.ltb_lt; lia).
    reflexivity.
Qed.

(** X3. [has] makes the same liveness check as [get] and has the same
    effect on the map: it answers [true] exactly for a live entry, whose
    value [get] answers, and drops an expired entry as [get] does. *)
Theorem cache_has_agrees_with_get (cache : gmap string CacheEntry) (now : Z) (k : string) :
  snd (Cache.has cache now k) = snd (Cache.get cache now k) /\
  match cache !! k with
  | Some e =>
      if decide (now - timestamp e <= ttl e)
      then Cache.has cache now k = (true, cache) /\ fst (Cache.get cache now k) = data e
      else Cache.has cache now k = (false, base.delete k cache)
  | None => Cache.has cache now k = (false, cache)
  end.
Proof.
  unfold Cache.has, Cache.get. destruct (cache !! k) as [e|]; [|split; reflexivity].
  destruct (decide _) as [Hlive|Hold].
  - apply isExpired_live in Hlive. rewrite Hlive. repeat split; reflexivity.
  - assert (Cache.isExpired now e = true) as -> by (apply isExpired_spec; lia).
    split; reflexivity.
Qed.

(** X4. [cleanup] drops exactly the expired entries, and [size] counts
    the entries that are stored, expired or not: an entry written with a
    ttl of 1000 is still counted 1100 ms later, and is gone after a
    sweep. *)
Theorem cache_cleanup_sweeps_expired (cache : gmap string CacheEntry) (now : Z) (k : string) :
  Cache.cleanup cache now !! k =
    match cache !! k with
    | Some e => if decide (now - timestamp e <= ttl e) then Some e else None
    | None => None
    end /\
  (forall v,
     Cache.size (Cache.set ∅ 0 k v (Some 1000)) = 1%nat /\
     fst (Cache.get (Cache.set ∅ 0 k v (Some 1000)) 0 k) = v /\
     fst (Cache.get (Cache.set ∅ 0 k v (Some 1000)) 1100 k) = VNull /\
     Cache.size (Cache.cleanup (Cache.set ∅ 0 k v (Some 1000)) 1100) = 0%nat).
Proof.
  split.
  - unfold Cache.cleanup. destruct (cache !! k) as [e|] eqn:Hk.
    + destruct (decide _) as [Hlive|Hold].
      * apply map_lookup_filter_Some. split; [exact Hk|]. simpl. now apply isExpired_live.
      * apply map_lookup_filter_None. right. intros e' He'. simpl.
        rewrite Hk in He'. inversion He'; subst e'.
        assert (Cache.isExpired now e = true) as -> by (apply isExpired_spec; lia).
        discriminate.
    + apply map_lookup_filter_None. left. exact Hk.
  - intros v. unfold Cache.size, Cache.set, Cache.get, Cache.cleanup. simpl.
    rewrite lookup_insert_eq. simpl. repeat split.
    + rewrite map_size_insert_None by apply lookup_empty. now rewrite map_size_empty.
    + rewrite insert_empty, map_filter_singleton_False; [apply map_size_empty|].
      simpl. discriminate.
Qed.

(** *** Properties of the circuit breaker *)

Lemma gate_passes cb now :
  state cb <> OPEN -> gate cb now = inr cb.
Proof. unfold gate. destruct (state cb); congruence. Qed.

Lemma gate_fast_fail cb now :
  state cb = OPEN -> now - lastFailTime cb < timeout cb ->
  gate cb now = inl circuit_open_error.
Proof.
  intros Hs Hw. unfold gate. rewrite Hs.
  assert (Z.ltb (now - lastFailTime cb) (timeout cb) = true) as -> by (apply Z.ltb_lt; lia).
  reflexivity.
Qed.

Lemma gate_half_open cb now :
  state cb = OPEN -> timeout cb <= now - lastFailTime cb ->
  gate cb now = inr (with_state cb HALF_OPEN).
Proof.
  intros Hs Hw. unfold gate. rewrite Hs.
  assert (Z.ltb (now - lastFailTime cb) (timeout cb) = false) as -> by (apply Z.ltb_ge; lia).
  reflexivity.
Qed.

(** A gated call leaves the breaker and the dependency as they were,
    whatever the operation is: the operation is not invoked. *)
Lemma execute_fast_fail {W T : Type} cb now (op : operation W T) w :
  state cb = OPEN -> now - lastFailTime cb < timeout cb ->
  execute cb now op w = (cb, w, Rejected circuit_open_error).
Proof. intros Hs Hw. unfold execute. now rewrite gate_fast_fail. Qed.

Lemma run_calls_fast_fail {W T : Type} cb (later : list (Z * operation W T)) w :
  state cb = OPEN ->
  Forall (fun c => fst c - lastFailTime cb < timeout cb) later ->
  run_calls cb w later = (cb, w, map (fun _ => Rejected circuit_open_error) later).
Proof.
  intros Hs. induction 1 as [|[now op] rest Hnow _ IH]; [reflexivity|].
  simpl in *. rewrite execute_fast_fail by assumption. now rewrite IH.
Qed.

Ltac breaker_cases :=
  repeat match goal with
  | |- context [Z.ltb ?a ?b] => destruct (Z.ltb_spec a b)
  | |- context [Z.leb ?a ?b] => destruct (Z.leb_spec a b)
  | H : context [Z.ltb ?a ?b] |- _ => destruct (Z.ltb_spec a b)
  | H : context [Z.leb ?a ?b] |- _ => destruct (Z.leb_spec a b)
  end.

Lemma onFailure_fields cb t :
  failures (onFailure cb t) = failures cb + 1 /\
  lastFailTime (onFailure cb t) = t /\
  failureThreshold (onFailure cb t) = failureThreshold cb /\
  timeout (onFailure cb t) = timeout cb /\
  state (onFailure cb t) =
    (if Z.leb (failureThreshold cb) (failures cb + 1) then OPEN else state cb).
Proof.
  destruct cb as [f l s th to mp]. unfold onFailure; simpl.
  breaker_cases; simpl; repeat split; reflexivity.
Qed.


Lemma execute_config {W T : Type} cb now (op : operation W T) w :
  failureThreshold (fst (fst (execute cb now op w))) = failureThreshold cb /\
  timeout (fst (fst (execute cb now op w))) = timeout cb.
Proof.
  destruct cb as [f l s th to mp]. unfold execute, gate; simpl.
  destruct s; breaker_cases; simpl; try (split; reflexivity);
    destruct (outcome (op w)); simpl;
    unfold onSuccess, onFailure; simpl; breaker_cases; simpl; split; reflexivity.
Qed.

(** Calls that do not overlap keep [breaker_inv]. *)
Lemma execute_inv {W T : Type} cb now (op : operation W T) w :
  breaker_inv cb -> breaker_inv (fst (fst (execute cb now op w))).
Proof.
  intros (Hf & Hh & Ho). unfold breaker_inv, execute, gate.
  destruct cb as [f l s th to mp]; simpl in *.
  destruct s; try congruence; breaker_cases; simpl;
    try (destruct (outcome (op w)); simpl);
    unfold onSuccess, onFailure; simpl; breaker_cases; simpl;
    repeat split; try congruence; try lia; intros; try congruence; try lia.
  all: specialize (Ho eq_refl); lia.
Qed.

Lemma run_calls_inv {W T : Type} (calls : list (Z * operation W T)) cb w :
  breaker_inv cb -> breaker_inv (fst (fst (run_calls cb w calls))).
Proof.
  revert cb w. induction calls as [|[now op] rest IH]; intros cb w Hinv; [exact Hinv|].
  simpl. pose proof (execute_inv cb now op w Hinv) as H1.
  destruct (execute cb now op w) as [[cb1 w1] r]. simpl in H1.
  specialize (IH cb1 w1 H1). destruct (run_calls cb1 w1 rest) as [[cb2 w2] rs].
  exact IH.
Qed.

Lemma newCircuitBreaker_inv th to mp : breaker_inv (newCircuitBreaker th to mp).
Proof. unfold breaker_inv; simpl. repeat split; [lia|congruence|congruence]. Qed.

(** One failing call from a state between calls: the breaker is OPEN
    afterwards, or it was and stays CLOSED with one more failure, still
    under the threshold. *)
Lemma execute_failing_step {W T : Type} cb now (op : operation W T) w :
  always_fails op -> breaker_inv cb ->
  state (fst (fst (execute cb now op w))) = OPEN \/
  (state cb = CLOSED /\ state (fst (fst (execute cb now op w))) = CLOSED /\
   failures (fst (fst (execute cb now op w))) = failures cb + 1 /\
   failures cb + 1 < failureThreshold cb).
Proof.
  intros Hfail (Hf & Hh & Ho). destruct (Hfail w) as [e He].
  destruct cb as [f l s th to mp]; simpl in *.
  unfold execute, gate; simpl. rewrite He.
  destruct s; try congruence; breaker_cases; simpl;
    unfold onFailure; simpl; breaker_cases; simpl; auto.
  all: try (right; repeat split; try reflexivity; lia).
  all: specialize (Ho eq_refl); lia.
Qed.

Lemma run_failing_calls {W T : Type} (calls : list (Z * operation W T)) cb w :
  Forall (fun c => always_fails (snd c)) calls -> breaker_inv cb ->
  state (fst (fst (run_calls cb w calls))) = OPEN \/
  (state cb = state (fst (fst (run_calls cb w calls))) /\
   failures (fst (fst (run_calls cb w calls))) = failures cb + Z.of_nat (length calls) /\
   (calls <> [] ->
      state cb = CLOSED /\
      failures (fst (fst (run_calls cb w calls))) < failureThreshold cb)).
Proof.
  intros Hall. revert cb w.
  induction Hall as [|[now op] rest Hop _ IH]; intros cb w Hinv.
  - right. simpl. split; [reflexivity|]. split; [lia|congruence].
  - simpl in Hop. simpl run_calls.
    pose proof (execute_failing_step cb now op w Hop Hinv) as Hstep.
    pose proof (execute_inv cb now op w Hinv) as Hinv1.
    pose proof (execute_config cb now op w) as [Hth _].
    destruct (execute cb now op w) as [[cb1 w1] r]. simpl in Hstep, Hinv1, Hth.
    specialize (IH cb1 w1 Hinv1).
    destruct (run_calls cb1 w1 rest) as [[cb2 w2] rs]. simpl in IH |- *.
    destruct IH as [IH | (Hs & Hn & Hne)]; [now left|].
    destruct Hstep as [Hopen | (Hc & Hc1 & Hf1 & Hlt)].
    + left. congruence.
    + right. split; [congruence|]. split; [lia|]. intros _. split; [assumption|].
      destruct rest as [|c rest'].
      * simpl in Hn. lia.
      * destruct Hne as [_ Hlt2]; [congruence|]. lia.
Qed.

(** C5 (amended). From a CLOSED breaker, [failureThreshold] calls in a row
    whose operations fail leave the breaker OPEN; from then on every call
    made while [now - lastFailTime < timeout] is rejected at once with the
    plain [Error] of message "Circuit breaker is OPEN", leaves breaker and
    dependency untouched, and this whatever its operation is. *)
Theorem breaker_opens_on_threshold {W T : Type} (cb : CircuitBreaker) (w : W)
    (calls : list (Z * operation W T)) :
  state cb = CLOSED -> 0 <= failures cb -> 1 <= failureThreshold cb ->
  Z.of_nat (length calls) = failureThreshold cb ->
  Forall (fun c => always_fails (snd c)) calls ->
  let cb' := fst (fst (run_calls cb w calls)) in
  state cb' = OPEN /\
  failureThreshold cb' <= failures cb' /\
  (forall now (op : operation W T) w1,
     now - lastFailTime cb' < timeout cb' ->
     execute cb' now op w1 = (cb', w1, Rejected (JsError "Error" "Circuit breaker is OPEN"))) /\
  (forall (later : list (Z * operation W T)) w1,
     Forall (fun c => fst c - lastFailTime cb' < timeout cb') later ->
     run_calls cb' w1 later =
       (cb', w1, map (fun _ => Rejected (JsError "Error" "Circuit breaker is OPEN")) later)).
Proof.
  intros Hs Hf Hth Hlen Hall cb'.
  assert (breaker_inv cb) as Hinv.
  { unfold breaker_inv. rewrite Hs. repeat split; [assumption|congruence|congruence]. }
  assert (state cb' = OPEN) as Hopen.
  { destruct (run_failing_calls calls cb w Hall Hinv) as [H | (_ & Hn & Hne)]; [exact H|].
    exfalso. fold cb' in Hn, Hne.
    destruct Hne as [_ Hlt]; [intros ->; simpl in Hlen; lia|]. lia. }
  pose proof (run_calls_inv calls cb w Hinv) as (_ & _ & Hge). fold cb' in Hge.
  split; [exact Hopen|]. split; [exact (Hge Hopen)|]. split.
  - intros now op w1 Hw. now apply execute_fast_fail.
  - intros later w1 Hall'. now apply run_calls_fast_fail.
Qed.

(** The threshold of 2 of the design document: two failing calls on a
    dependency that counts its calls, and a third call that is rejected
    with the count still at 2. *)
Lemma breaker_opens_on_threshold_witness :
  let cb := newCircuitBreaker 2 60000 10000 in
  let boom := JsError "Error" "boom" in
  let calls := [(0, counting_failure boom 1); (2, counting_failure boom 3)] in
  let cb' := fst (fst (run_calls cb 0%nat calls)) in
  (state cb' = OPEN /\ snd (fst (run_calls cb 0%nat calls)) = 2%nat) /\
  execute cb' 4 (counting_failure boom 5) 2%nat =
    (cb', 2%nat, Rejected (JsError "Error" "Circuit breaker is OPEN")).
Proof.
  cbv zeta. split; [split; reflexivity|].
  refine (proj1 (proj2 (proj2 (breaker_opens_on_threshold
            (newCircuitBreaker 2 60000 10000) 0%nat
            [(0, counting_failure (JsError "Error" "boom") 1);
             (2, counting_failure (JsError "Error" "boom") 3)] _ _ _ _ _)))
          4 (counting_failure (JsError "Error" "boom") 5) 2%nat _).
  - reflexivity.
  - simpl; lia.
  - simpl; lia.
  - reflexivity.
  - repeat constructor; intros n; eexists; reflexivity.
  - simpl; lia.
Defined.

(** C5 as stated fails on the kind of the error: the breaker throws a
    plain [Error] that nothing but its message tells from a failure of the
    operation. Let the operation of the breaker for external calls go
    through the breaker of the GitHub API, and let that one be OPEN: the
    outer breaker is CLOSED, invokes its operation and counts a failure of
    that operation, and its caller gets the very rejection of a gated
    call. *)
Lemma breaker_open_error_not_distinct :
  let inner := with_state (with_failure circuitBreakers_github 3 0) OPEN in
  let op := through_breaker inner 7 (counting_success 8) in
  exists e : exn,
    outcome (op 0%nat) = Rejected e /\
    e = circuit_open_error /\
    state circuitBreakers_external = CLOSED /\
    execute circuitBreakers_external 7 op 0%nat =
      (onFailure circuitBreakers_external 7, 0%nat, Rejected circuit_open_error) /\
    failures (onFailure circuitBreakers_external 7) = 1.
Proof.
  cbv zeta. exists circuit_open_error. repeat split; reflexivity.
Qed.




(** C7 (amended). An OPEN breaker, timeout elapsed, trial operation
    failing, no other call settling in between: the call rejects with the
    operation's own error, the count goes up by one and [lastFailTime] is
    the time of this failure. When the new count is at or over the
    threshold, as it is whenever the count was there before, the state is
    OPEN again and a call that follows within the timeout (at once, if
    the timeout is positive) is rejected without its operation running.
    When the new count is under the threshold, the breaker stays
    HALF_OPEN and the call that follows runs its operation. *)
Theorem breaker_half_open_refailure {W T : Type} (cb : CircuitBreaker) (now : Z)
    (op : operation W T) (w : W) (e : exn) :
  state cb = OPEN ->
  timeout cb <= now - lastFailTime cb ->
  outcome (op w) = Rejected e ->
  let cb' := fst (fst (execute cb now op w)) in
  execute cb now op w = (cb', world (op w), Rejected e) /\
  failures cb' = failures cb + 1 /\
  lastFailTime cb' = settledAt (op w) /\
  (failureThreshold cb <= failures cb -> failureThreshold cb' <= failures cb') /\
  (failureThreshold cb <= failures cb + 1 ->
   state cb' = OPEN /\
   (forall now' (op' : operation W T) w',
      now' - settledAt (op w) < timeout cb ->
      execute cb' now' op' w' = (cb', w', Rejected circuit_open_error)) /\
   (0 < timeout cb ->
    forall (op' : operation W T) w',
      execute cb' (settledAt (op w)) op' w' = (cb', w', Rejected circuit_open_error))) /\
  (failures cb + 1 < failureThreshold cb ->
   state cb' = HALF_OPEN /\
   forall now' (op' : operation W T) w',
     gate cb' now' = inr cb' /\
     snd (fst (execute cb' now' op' w')) = world (op' w') /\
     snd (execute cb' now' op' w') = outcome (op' w')).
Proof.
  intros Hs Hw He cb'.
  pose proof (gate_half_open cb now Hs Hw) as Hg.
  assert (execute cb now op w =
          (onFailure (with_state cb HALF_OPEN) (settledAt (op w)), world (op w), Rejected e))
    as Hex by (unfold execute; rewrite Hg, He; reflexivity).
  subst cb'. rewrite Hex. simpl fst.
  destruct (onFailure_fields (with_state cb HALF_OPEN) (settledAt (op w)))
    as (Hf & Hl & Hth & Hto & Hst).
  simpl in Hf, Hth, Hto, Hst.
  split; [reflexivity|]. split; [exact Hf|]. split; [exact Hl|]. split; [|split].
  - intros Hge. lia.
  - intros Hge.
    assert (Z.leb (failureThreshold cb) (failures cb + 1) = true) as Hle
      by (apply Z.leb_le; lia).
    rewrite Hle in Hst. split; [exact Hst|]. split.
    + intros now' op' w' Hn. apply execute_fast_fail; [exact Hst|]. rewrite Hl, Hto. exact Hn.
    + intros Hpos op' w'. apply execute_fast_fail; [exact Hst|]. rewrite Hl, Hto. lia.
  - intros Hlt.
    assert (Z.leb (failureThreshold cb) (failures cb + 1) = false) as Hle
      by (apply Z.leb_gt; lia).
    rewrite Hle in Hst. split; [exact Hst|]. intros now' op' w'.
    assert (gate (onFailure (with_state cb HALF_OPEN) (settledAt (op w))) now' =
            inr (onFailure (with_state cb HALF_OPEN) (settledAt (op w)))) as Hpass
      by (apply gate_passes; rewrite Hst; discriminate).
    split; [exact Hpass|]. unfold execute. rewrite Hpass.
    destruct (outcome (op' w')); split; reflexivity.
Qed.

Lemma breaker_half_open_refailure_witness :
  let cb := mkBreaker 3 1000 OPEN 3 30000 5000 in
  let op := counting_failure (JsError "Error" "ECONNREFUSED") 31050 in
  let cb' := fst (fst (execute cb 31000 op 0%nat)) in
  failures cb' = 4 /\ lastFailTime cb' = 31050 /\ state cb' = OPEN /\
  execute cb' 31050 op 1%nat = (cb', 1%nat, Rejected circuit_open_error).
Proof.
  cbv zeta.
  destruct (breaker_half_open_refailure (mkBreaker 3 1000 OPEN 3 30000 5000) 31000
             (counting_failure (JsError "Error" "ECONNREFUSED") 31050) 0%nat
             (JsError "Error" "ECONNREFUSED"))
    as (_ & Hf & Hl & _ & Hopen & _).
  - reflexivity.
  - simpl; lia.
  - reflexivity.
  - destruct (Hopen ltac:(simpl; lia)) as (Hst & _ & Hnext).
    split; [exact Hf|]. split; [exact Hl|]. split; [exact Hst|].
    apply (Hnext ltac:(simpl; lia)).
Defined.

(** C7 as stated fails for a breaker that is OPEN with its count under
    the threshold, which overlapping calls bring about: on the breaker of
    the GitHub API four calls pass the state check, three fail and open
    it, the fourth succeeds and resets the count. The trial made when the
    timeout has elapsed fails: the count is 1, under the threshold of 3,
    the state stays HALF_OPEN, and the call that follows at once is not
    rejected: its operation runs. *)
Lemma breaker_trial_failure_below_threshold :
  exists cb,
    schedule circuitBreakers_github 0
      [Call 0; Call 1; Call 2; Call 3;
       SettleFail 10; SettleFail 11; SettleFail 12; SettleOk] = Some (cb, 0%nat) /\
    getState cb = OPEN /\
    timeout cb <= 30012 - lastFailTime cb /\
    let op := counting_failure (JsError "Error" "ECONNREFUSED") 30013 in
    let cb' := fst (fst (execute cb 30012 op 0%nat)) in
    execute cb 30012 op 0%nat = (cb', 1%nat, Rejected (JsError "Error" "ECONNREFUSED")) /\
    getFailures cb' = 1 /\
    ~ (failureThreshold cb' <= getFailures cb') /\
    getState cb' = HALF_OPEN /\
    execute cb' 30013 op 1%nat <> (cb', 1%nat, Rejected circuit_open_error) /\
    snd (fst (execute cb' 30013 op 1%nat)) = 2%nat.
Proof.
  eexists. split; [reflexivity|]. simpl.
  repeat split; try reflexivity; try lia; discriminate.
Qed.

(** A call that is awaited at once is its two events run back to back. *)
Lemma execute_as_events {W T : Type} cb now (op : operation W T) w :
  match gate cb now with
  | inl _ => schedule cb 0 [Call now] = Some (cb, 0%nat)
  | inr _ =>
      schedule cb 0 (events_of_call now (op w)) =
        Some (fst (fst (execute cb now op w)), 0%nat)
  end.
Proof.
  unfold execute, events_of_call. destruct (gate cb now) as [e|cb1] eqn:Hg.
  - simpl. now rewrite Hg.
  - destruct (outcome (op w)); simpl; rewrite Hg; reflexivity.
Qed.

Lemma handle_failures_nonneg cb p ev cb' p' :
  handle cb p ev = Some (cb', p') -> 0 <= failures cb -> 0 <= failures cb'.
Proof.
  destruct cb as [f l s th to mp]. unfold handle, gate; simpl.
  destruct ev; [destruct s; breaker_cases | destruct p | destruct p];
    intros Hstep; inversion Hstep; subst; clear Hstep;
    unfold onSuccess, onFailure; simpl;
    try (destruct s); breaker_cases; simpl; lia.
Qed.

Lemma schedule_failures_nonneg evs cb p cb' p' :
  schedule cb p evs = Some (cb', p') -> 0 <= failures cb -> 0 <= failures cb'.
Proof.
  revert cb p. induction evs as [|ev rest IH]; simpl; intros cb p H Hf.
  - inversion H; subst; exact Hf.
  - destruct (handle cb p ev) as [[cb1 p1]|] eqn:Hh; [|discriminate].
    eapply IH; [exact H|]. eapply handle_failures_nonneg; eassumption.
Qed.

(** CLOSED is entered from another state by [onSuccess] alone. *)
Lemma handle_closes cb p ev cb' p' :
  handle cb p ev = Some (cb', p') ->
  state cb <> CLOSED -> state cb' = CLOSED ->
  ev = SettleOk /\ state cb = HALF_OPEN /\ failures cb' = 0.
Proof.
  destruct cb as [f l s th to mp]. unfold handle, gate; simpl.
  destruct ev; [destruct s; breaker_cases | destruct p | destruct p];
    intros Hstep; inversion Hstep; subst; clear Hstep;
    unfold onSuccess, onFailure; simpl;
    try (destruct s); breaker_cases; simpl; intros; try congruence; auto.
Qed.

(** C10 (amended). Whatever the interleaving of calls on a new breaker,
    [failures] is never negative and the state returns to CLOSED only by a
    success while HALF_OPEN, which resets [failures] to 0. Between calls
    that do not overlap, moreover, an OPEN breaker has its count at or over
    the threshold, and a call that closes the breaker is a trial that went
    through HALF_OPEN and succeeded. *)
Theorem breaker_invariant (th to mp : Z) :
  (forall (evs : list event) cb p,
     schedule (newCircuitBreaker th to mp) 0 evs = Some (cb, p) ->
     0 <= failures cb /\
     forall ev cb' p',
       handle cb p ev = Some (cb', p') ->
       state cb <> CLOSED -> state cb' = CLOSED ->
       ev = SettleOk /\ state cb = HALF_OPEN /\ failures cb' = 0) /\
  (forall (W T : Type) (calls : list (Z * operation W T)) (w : W),
     let cb := fst (fst (run_calls (newCircuitBreaker th to mp) w calls)) in
     0 <= failures cb /\
     (state cb = OPEN -> failureThreshold cb <= failures cb) /\
     forall now (op : operation W T) w1,
       state cb <> CLOSED ->
       state (fst (fst (execute cb now op w1))) = CLOSED ->
       gate cb now = inr (with_state cb HALF_OPEN) /\
       (exists v, outcome (op w1) = Fulfilled v) /\
       failures (fst (fst (execute cb now op w1))) = 0).
Proof.
  split.
  - intros evs cb p Hrun. split.
    + eapply schedule_failures_nonneg; [exact Hrun|]. simpl. lia.
    + intros ev cb' p'. apply handle_closes.
  - intros W T calls w cb.
    pose proof (run_calls_inv calls (newCircuitBreaker th to mp) w
                  (newCircuitBreaker_inv th to mp)) as (Hf & Hh & Ho).
    fold cb in Hf, Hh, Ho. split; [exact Hf|]. split; [exact Ho|].
    intros now op w1 Hnc Hc.
    assert (state cb = OPEN) as Hopen by (destruct (state cb); congruence).
    revert Hc. unfold execute, gate. rewrite Hopen.
    destruct (Z.ltb (now - lastFailTime cb) (timeout cb)).
    + simpl. congruence.
    + destruct (outcome (op w1)) as [v|e]; simpl.
      * intros _. split; [reflexivity|]. split; [now exists v|]. reflexivity.
      * destruct (onFailure_fields (with_state cb HALF_OPEN) (settledAt (op w1)))
          as (_ & _ & _ & _ & ->). simpl.
        destruct (Z.leb _ _); congruence.
Qed.

(** C10 as stated fails when calls overlap: on the breaker of the GitHub
    API (threshold 3) four calls pass the state check, three of them fail
    and open the breaker, and the fourth then succeeds: [onSuccess] resets
    the count and leaves the state OPEN. *)
Lemma breaker_open_below_threshold :
  exists cb,
    schedule circuitBreakers_github 0
      [Call 0; Call 1; Call 2; Call 3;
       SettleFail 10; SettleFail 11; SettleFail 12; SettleOk] = Some (cb, 0%nat) /\
    getState cb = OPEN /\ getFailures cb = 0 /\
    ~ (failureThreshold cb <= getFailures cb).
Proof.
  eexists. split; [reflexivity|]. simpl. repeat split; try reflexivity. lia.
Qed.

(** *** Properties of the sanitizer *)

Lemma trimStart_head c s :
  is_space c = false -> trimStart (String c s) = String c s.
Proof. intros H. simpl. now rewrite H. Qed.

Lemma trimStart_cases s :
  trimStart s = EmptyString \/
  exists c r, trimStart s = String c r /\ is_space c = false.
Proof.
  induction s as [|c s IH]; simpl; [now left|].
  destruct (is_space c) eqn:Hc; [exact IH|]. right. now exists c, s.
Qed.

Lemma trimEnd_head c s :
  is_space c = false -> exists r, trimEnd (String c s) = String c r.
Proof.
  intros Hc. simpl. destruct (trimEnd s) as [|c' r].
  - rewrite Hc. now exists EmptyString.
  - now exists (String c' r).
Qed.

Lemma trimEnd_idempotent s : trimEnd (trimEnd s) = trimEnd s.
Proof.
  induction s as [|c s IH]; simpl; [reflexivity|].
  destruct (trimEnd s) as [|c' r] eqn:Hs.
  - destruct (is_space c) eqn:Hc; simpl; [reflexivity|]. now rewrite Hc.
  - simpl in IH |- *. destruct (trimEnd r) as [|c'' r'] eqn:Hr.
    + destruct (is_space c') eqn:Hc'; [discriminate|]. now rewrite IH.
    + now rewrite IH.
Qed.

Lemma trim_idempotent s : trim (trim s) = trim s.
Proof.
  unfold trim. destruct (trimStart_cases s) as [-> | (c & r & -> & Hc)]; [reflexivity|].
  destruct (trimEnd_head c r Hc) as [r' Hr]. rewrite Hr.
  rewrite (trimStart_head c r' Hc), <- Hr. apply trimEnd_idempotent.
Qed.

Lemma trimStart_split s :
  exists l, all_space l = true /\ s = (l ++ trimStart s)%string.
Proof.
  induction s as [|c s (l & Hl & Hs)]; simpl.
  - now exists EmptyString.
  - destruct (is_space c) eqn:Hc.
    + exists (String c l). simpl. rewrite Hc, Hl. split; [reflexivity|].
      change (String c s = String c (l ++ trimStart s)%string). congruence.
    + now exists EmptyString.
Qed.

Lemma trimEnd_split s :
  exists r, all_space r = true /\ s = (trimEnd s ++ r)%string.
Proof.
  induction s as [|c s (r & Hr & Hs)]; simpl.
  - now exists EmptyString.
  - destruct (trimEnd s) as [|c' t] eqn:Ht.
    + change (s = r) in Hs. subst r. destruct (is_space c) eqn:Hc.
      * exists (String c s). simpl. rewrite Hc, Hr. split; reflexivity.
      * exists s. split; [exact Hr|]. reflexivity.
    + exists r. split; [exact Hr|].
      change (String c s = String c (String c' t ++ r)%string). congruence.
Qed.

Lemma trimEnd_last s c :
  last_char (trimEnd s) = Some c -> is_space c = false.
Proof.
  revert c. induction s as [|a s IH]; simpl; intros c; [discriminate|].
  destruct (trimEnd s) as [|c' t] eqn:Ht.
  - destruct (is_space a) eqn:Ha; simpl; [discriminate|]. congruence.
  - intros H. apply IH. exact H.
Qed.

Lemma trim_spec s :
  exists l r,
    all_space l = true /\ all_space r = true /\
    s = (l ++ trim s ++ r)%string /\
    (forall c t, trim s = String c t -> is_space c = false) /\
    (forall c, last_char (trim s) = Some c -> is_space c = false).
Proof.
  destruct (trimStart_split s) as (l & Hl & Hs).
  destruct (trimEnd_split (trimStart s)) as (r & Hr & Ht).
  exists l, r. unfold trim. split; [exact Hl|]. split; [exact Hr|].
  split; [now rewrite <- Ht|]. split.
  - intros c t Hc. destruct (trimStart_cases s) as [H0 | (c0 & r0 & H0 & Hc0)].
    + rewrite H0 in Hc. discriminate.
    + rewrite H0 in Hc. destruct (trimEnd_head c0 r0 Hc0) as [r' Hr'].
      rewrite Hr' in Hc. congruence.
  - apply trimEnd_last.
Qed.

Lemma assoc_set_fresh props k v :
  ~ In k (keys props) -> assoc_set props k v = props ++ [(k, v)].
Proof.
  induction props as [|[k' v'] rest IH]; simpl; intros Hk; [reflexivity|].
  destruct (String.eqb_spec k k') as [->|Hne]; [tauto|].
  rewrite IH by tauto. reflexivity.
Qed.

Lemma keys_app a b : keys (a ++ b) = keys a ++ keys b.
Proof. apply map_app. Qed.

Lemma keys_map_values (f : value -> value) props :
  keys (map (fun kv => (fst kv, f (snd kv))) props) = keys props.
Proof. unfold keys. rewrite map_map. reflexivity. Qed.

(** The loop of [sanitizeObject] over entries with distinct keys, none of
    them [__proto__]: every entry becomes an own property, in order. *)
Lemma copy_entries (l acc : list (string * value)) :
  NoDup (keys acc ++ keys l) ->
  ~ In "__proto__" (keys l) ->
  fold_left (fun sanitized kv => set_prop sanitized (fst kv) (snd kv)) l (VObj None acc)
  = VObj None (acc ++ l).
Proof.
  revert acc. induction l as [|[k v] rest IH]; intros acc Hnd Hp; simpl.
  - now rewrite app_nil_r.
  - simpl in Hp. destruct (String.eqb_spec k "__proto__") as [->|Hne]; [tauto|].
    simpl. apply NoDup_app in Hnd as Hparts. destruct Hparts as (Ha & Hdis & Hl).
    rewrite assoc_set_fresh.
    + rewrite IH.
      * now rewrite <- app_assoc.
      * rewrite keys_app. simpl. rewrite <- app_assoc. exact Hnd.
      * tauto.
    + intros Hin. apply (Hdis k); [now apply list_elem_of_In|]. simpl. left.
Qed.

Lemma fold_right_Forall {A : Type} (P : A -> Prop) (l : list A) :
  fold_right (fun x acc => P x /\ acc) True l <-> Forall P l.
Proof.
  induction l as [|x r IH]; simpl.
  - split; [constructor|trivial].
  - rewrite IH. split; [intros [? ?]; now constructor|now inversion 1].
Qed.

Lemma json_shaped_obj proto props :
  json_shaped (VObj proto props) <->
  proto = None /\ NoDup (keys props) /\ Forall (fun kv => json_shaped (snd kv)) props.
Proof.
  simpl. destruct proto as [q|].
  - split; [tauto|]. intros [H _]. discriminate.
  - rewrite (fold_right_Forall (fun kv => json_shaped (snd kv))). tauto.
Qed.

Lemma proto_free_obj proto props :
  proto_free (VObj proto props) <->
  ~ In "__proto__" (keys props) /\ Forall (fun kv => proto_free (snd kv)) props.
Proof. simpl. rewrite (fold_right_Forall (fun kv => proto_free (snd kv))). tauto. Qed.

(** On the values [JSON.parse] builds that have no key [__proto__], the
    code does what the design document says. *)
Lemma sanitizeObject_refines_spec v :
  json_shaped v -> proto_free v -> sanitizeObject v = sanitize_spec v.
Proof.
  induction v as [| | | | |items IH|proto props _ IH|] using value_ind';
    intros Hj Hp; try reflexivity.
  - simpl in *. f_equal. apply fold_right_Forall in Hj, Hp.
    induction IH as [|x r Hx _ IHr]; [reflexivity|].
    inversion Hj; inversion Hp; subst. simpl. f_equal; auto.
  - apply json_shaped_obj in Hj as (-> & Hnd & Hj).
    apply proto_free_obj in Hp as (Hnp & Hp).
    simpl. rewrite copy_entries.
    + simpl. f_equal.
      induction IH as [|kv r Hkv _ IHr]; [reflexivity|].
      inversion Hj; inversion Hp; subst. simpl in *.
      apply NoDup_cons in Hnd as [_ Hnd].
      f_equal; [f_equal; auto | apply IHr; tauto].
    + simpl. now rewrite keys_map_values.
    + now rewrite keys_map_values.
Qed.

Lemma sanitize_spec_idempotent v : sanitize_spec (sanitize_spec v) = sanitize_spec v.
Proof.
  induction v as [| | | |s|items IH|proto props _ IH|] using value_ind';
    try reflexivity.
  - simpl. now rewrite trim_idempotent.
  - simpl. f_equal. rewrite map_map.
    induction IH as [|x r Hx _ IHr]; [reflexivity|]. simpl. now f_equal.
  - simpl. f_equal. rewrite map_map. simpl.
    induction IH as [|kv r Hkv _ IHr]; [reflexivity|]. simpl. f_equal; [|exact IHr].
    now f_equal.
Qed.

Lemma sanitize_spec_json_shaped v : json_shaped v -> json_shaped (sanitize_spec v).
Proof.
  induction v as [| | | | |items IH|proto props _ IH|] using value_ind';
    intros Hj; try exact Hj.
  - simpl in *. apply fold_right_Forall. apply fold_right_Forall in Hj.
    induction IH as [|x r Hx _ IHr]; [constructor|].
    inversion Hj; subst. simpl. constructor; auto.
  - apply json_shaped_obj in Hj as (-> & Hnd & Hj).
    change (json_shaped (VObj None (map (fun kv => (fst kv, sanitize_spec (snd kv))) props))).
    apply json_shaped_obj. split; [reflexivity|]. split; [now rewrite keys_map_values|].
    clear Hnd. induction IH as [|kv r Hkv _ IHr]; [constructor|].
    inversion Hj; subst. simpl. constructor; auto.
Qed.

Lemma sanitize_spec_proto_free v : proto_free v -> proto_free (sanitize_spec v).
Proof.
  induction v as [| | | | |items IH|proto props _ IH|] using value_ind';
    intros Hp; try exact Hp; try exact I.
  - simpl in *. apply fold_right_Forall. apply fold_right_Forall in Hp.
    induction IH as [|x r Hx _ IHr]; [constructor|].
    inversion Hp; subst. simpl. constructor; auto.
  - apply proto_free_obj in Hp as (Hnp & Hp).
    change (proto_free (VObj proto (map (fun kv => (fst kv, sanitize_spec (snd kv))) props))).
    apply proto_free_obj. split; [now rewrite keys_map_values|].
    clear Hnp. induction IH as [|kv r Hkv _ IHr]; [constructor|].
    inversion Hp; subst. simpl. constructor; auto.
Qed.

(** X1. The sanitizer on [JSON.parse] values without a key [__proto__]:
    strings trimmed, arrays mapped, objects rebuilt with the same keys in
    the same order, the rest unchanged, and a second pass changes nothing. *)
Theorem sanitizeObject_on_plain_json (v : value) :
  json_shaped v -> proto_free v ->
  sanitizeObject v = sanitize_spec v /\
  sanitizeObject (sanitizeObject v) = sanitizeObject v /\
  match v with
  | VStr s => sanitizeObject v = VStr (trim s)
  | VArr items => sanitizeObject v = VArr (map sanitizeObject items)
  | VObj _ props =>
      exists props',
        sanitizeObject v = VObj None props' /\
        keys props' = keys props /\
        map snd props' = map (fun kv => sanitizeObject (snd kv)) props
  | _ => sanitizeObject v = v
  end.
Proof.
  intros Hj Hp. pose proof (sanitizeObject_refines_spec v Hj Hp) as Hs.
  split; [exact Hs|]. split.
  - rewrite Hs. rewrite sanitizeObject_refines_spec.
    + apply sanitize_spec_idempotent.
    + now apply sanitize_spec_json_shaped.
    + now apply sanitize_spec_proto_free.
  - destruct v as [| | | |s|items|proto props|]; try reflexivity.
    apply json_shaped_obj in Hj as (-> & Hnd & Hj).
    apply proto_free_obj in Hp as (Hnp & Hp).
    exists (map (fun kv => (fst kv, sanitizeObject (snd kv))) props).
    split; [|split].
    + simpl. rewrite copy_entries; [reflexivity| |]; simpl; now rewrite keys_map_values.
    + apply keys_map_values.
    + rewrite map_map. reflexivity.
Qed.

Lemma sanitizeObject_on_plain_json_witness :
  let v := obj [("name", VStr " hi ");
                ("tags", VArr [VStr " a "; VStr "b "]);
                ("nested", obj [("x", VStr " y ")])] in
  sanitizeObject v =
    obj [("name", VStr "hi"); ("tags", VArr [VStr "a"; VStr "b"]);
         ("nested", obj [("x", VStr "y")])] /\
  sanitizeObject (sanitizeObject v) = sanitizeObject v.
Proof.
  cbv zeta. split; [reflexivity|].
  refine (proj1 (proj2 (sanitizeObject_on_plain_json _ _ _))).
  - simpl. repeat split; apply (bool_decide_unpack _); vm_compute; exact I.
  - simpl. intuition discriminate.
Defined.

(** C8. The sanitizer on a mapping that has the key [__proto__], which
    [JSON.parse] makes an own property like any other: the assignment
    [sanitized[key] = ...] runs the setter of [Object.prototype] instead of
    creating the property. A string under that key is dropped and the key
    with it, at the top as in a nested mapping; an object under that key
    becomes the prototype of the result,
    where a second pass no longer finds it, so the second pass differs
    from the first, also in what a read of [x] answers. *)
Theorem sanitizeObject_proto_key :
  (let v := obj [("__proto__", VStr " a ")] in
   json_shaped v /\
   sanitizeObject v = obj [] /\
   object_keys v = ["__proto__"] /\
   object_keys (sanitizeObject v) = []) /\
  (let v := obj [("query", VStr " spring "); ("options", obj [("__proto__", VStr " a ")])] in
   json_shaped v /\
   sanitizeObject v = obj [("query", VStr "spring"); ("options", obj [])]) /\
  (let w := obj [("__proto__", obj [("x", VStr " y ")]); ("name", VStr " hi ")] in
   json_shaped w /\
   sanitizeObject w = VObj (Some (obj [("x", VStr "y")])) [("name", VStr "hi")] /\
   sanitizeObject (sanitizeObject w) = obj [("name", VStr "hi")] /\
   sanitizeObject (sanitizeObject w) <> sanitizeObject w /\
   get_prop (sanitizeObject w) "x" = VStr "y" /\
   get_prop (sanitizeObject (sanitizeObject w)) "x" = VUndefined).
Proof.
  split; [|split].
  - cbv zeta. split; [|repeat split; reflexivity].
    simpl. repeat split; apply (bool_decide_unpack _); vm_compute; exact I.
  - cbv zeta. split; [|reflexivity].
    simpl. repeat split; apply (bool_decide_unpack _); vm_compute; exact I.
  - cbv zeta. split; [|repeat split; try reflexivity; vm_compute; discriminate].
    simpl. repeat split; apply (bool_decide_unpack _); vm_compute; exact I.
Qed.

(** *** Properties of the tool handlers *)

Lemma toolHandlers_catch t now params :
  toolHandlers t now params =
  catch_all (tool_invalid_text t) (tool_failed_text t) (tool_body t now params).
Proof. destruct t; reflexivity. Qed.

Lemma catch_all_outcome t now params cache :
  snd (toolHandlers t now params cache) = snd (tool_body t now params cache) /\
  fst (toolHandlers t now params cache) =
    match fst (tool_body t now params cache) with
    | inr result => result
    | inl (ZodError issues) =>
        obj [("error", VStr (tool_invalid_text t)); ("details", issues_value issues)]
    | inl (JsError _ message) =>
        obj [("error", VStr (tool_failed_text t)); ("message", VStr message)]
    | inl (Thrown _) =>
        obj [("error", VStr (tool_failed_text t)); ("message", VStr "Unknown error")]
    end.
Proof.
  rewrite toolHandlers_catch. unfold catch_all.
  destruct (tool_body t now params cache) as [[e|result] cache'];
    [destruct e|]; split; reflexivity.
Qed.

(** C1 (amended). A handler never throws: whatever its body does, the
    call answers a value. When the body throws something that is no
    validation error, the answer is an error object whose [error] is the
    fixed text of the tool and whose [message] is the message of the
    exception itself, word for word, when the exception is an [Error]
    ("Unknown error" otherwise); a validation error answers the tool's
    text for invalid input with the issues as [details]. The cache is left
    as the body left it. *)
Theorem handler_normalizes_failures (t : tool) (now : Z) (params : value)
    (cache : gmap string CacheEntry) :
  snd (toolHandlers t now params cache) = snd (tool_body t now params cache) /\
  fst (toolHandlers t now params cache) =
    match fst (tool_body t now params cache) with
    | inr result => result
    | inl (ZodError issues) =>
        obj [("error", VStr (tool_invalid_text t)); ("details", issues_value issues)]
    | inl (JsError _ message) =>
        obj [("error", VStr (tool_failed_text t)); ("message", VStr message)]
    | inl (Thrown _) =>
        obj [("error", VStr (tool_failed_text t)); ("message", VStr "Unknown error")]
    end.
Proof.
  rewrite toolHandlers_catch. unfold catch_all.
  destruct (tool_body t now params cache) as [[e|result] cache'];
    [destruct e|]; split; reflexivity.
Qed.

(** C1 as stated fails: the message of the internal exception reaches the
    caller. A call without params makes the read of [params.componentName]
    throw a [TypeError]; a [category] whose [toString] is no function makes
    the template literal of list_motion_components throw one. Both
    messages come back in the result. *)
Lemma handler_leaks_exception_message :
  (exists message,
     fst (handleGetMotionComponent_body 0 VUndefined ∅) = inl (JsError "TypeError" message) /\
     fst (toolHandlers get_motion_component 0 VUndefined ∅) =
       obj [("error", VStr "An error occurred while fetching component information");
            ("message", VStr message)] /\
     message = "Cannot read properties of undefined (reading 'componentName')") /\
  (exists message,
     let params := obj [("category", obj [("toString", VNum 1)])] in
     fst (handleListMotionComponents_body 0 params ∅) = inl (JsError "TypeError" message) /\
     fst (toolHandlers list_motion_components 0 params ∅) =
       obj [("error", VStr "An error occurred while listing components");
            ("message", VStr message)] /\
     message = "Cannot convert object to primitive value").
Proof.
  split; eexists; repeat split; reflexivity.
Qed.

Lemma stores_only_ret P now v : stores_only P now (ret v).
Proof. intros cache key. now left. Qed.

Lemma stores_only_lift {A : Type} P now (r : exn + A) (f : A -> M value) :
  (forall a, stores_only P now (f a)) -> stores_only P now (bind (lift r) f).
Proof.
  intros H cache key. unfold bind, lift. destruct r as [e|a]; [now left|]. apply H.
Qed.

Lemma stores_only_get P now k (f : value -> M value) :
  (forall v, stores_only P now (f v)) -> stores_only P now (bind (cache_get now k) f).
Proof.
  intros H cache key. unfold bind, cache_get.
  destruct (Cache.get cache now k) as [v cache1] eqn:Hget.
  assert (cache1 !! key = cache !! key \/ cache1 !! key = None) as Hstep.
  { unfold Cache.get in Hget. destruct (cache !! k) as [entry|]; [|inversion Hget; now left].
    destruct (Cache.isExpired now entry); inversion Hget; subst; [|now left].
    destruct (decide (k = key)) as [->|Hne].
    - right. apply lookup_delete_eq.
    - left. now apply lookup_delete_ne. }
  destruct (H v cache1 key) as [H1 | [H1 | H1]].
  - destruct Hstep as [H2|H2]; rewrite H1, H2; auto.
  - auto.
  - auto.
Qed.

Lemma stores_only_set P now k r ttl :
  ttl <> 0 -> P r ttl -> stores_only P now (cache_set now k r ttl ;;; ret r).
Proof.
  intros Hnz HP cache key. unfold bind, cache_set, ret, Cache.set. simpl.
  destruct (decide (k = key)) as [->|Hne].
  - right. right. exists r, ttl. split; [reflexivity|]. split; [exact HP|].
    rewrite lookup_insert_eq. destruct (Z.eqb_spec ttl 0); [contradiction|reflexivity].
  - left. now apply lookup_insert_ne.
Qed.

Lemma stores_only_if P now (b : bool) (m1 m2 : M value) :
  stores_only P now m1 -> stores_only P now m2 ->
  stores_only P now (if b then m1 else m2).
Proof. now destruct b. Qed.

Lemma cache_free_ret {A : Type} (a : A) : cache_free (ret a).
Proof. intros cache. reflexivity. Qed.

Lemma cache_free_lift {A B : Type} (r : exn + A) (f : A -> M B) :
  (forall a, cache_free (f a)) -> cache_free (bind (lift r) f).
Proof. intros H cache. unfold bind, lift. destruct r as [e|a]; [reflexivity|apply H]. Qed.

Lemma cache_free_if {A : Type} (b : bool) (m1 m2 : M A) :
  cache_free m1 -> cache_free m2 -> cache_free (if b then m1 else m2).
Proof. now destruct b. Qed.

Lemma stores_only_cache_free {A : Type} P now (m : M A) (f : A -> M value) :
  cache_free m -> (forall a, stores_only P now (f a)) -> stores_only P now (bind m f).
Proof.
  intros Hm H cache key. unfold bind. specialize (Hm cache).
  destruct (m cache) as [[e|a] cache1]; simpl in Hm; subst cache1; [now left|]. apply H.
Qed.

Ltac cache_free_step :=
  first
    [ apply cache_free_ret
    | apply cache_free_lift; intros
    | apply cache_free_if ].

Ltac stores_only_step :=
  first
    [ apply stores_only_ret
    | apply stores_only_lift; intros
    | apply stores_only_get; intros
    | apply stores_only_set; [discriminate | reflexivity]
    | apply stores_only_if
    | apply stores_only_cache_free; [repeat cache_free_step | intros] ].

Lemma tool_body_stores_only t now params :
  stores_only (fun r ttl => ttl = stored_ttl t r) now (tool_body t now params).
Proof.
  destruct t; simpl;
    unfold handleGetMotionComponent_body, handleListMotionComponents_body,
           handleGetMotionExample_body, handleSearchMotionExamples_body,
           handleGetMotionDocs_body;
    repeat stores_only_step.
Qed.

(** C3 (amended). Whatever a handler leaves in the cache that was not
    there before is its own answer, stamped with the time of the call and
    stored under the ttl of the tool: 5 minutes for every answer of
    get_motion_component and of search_motion_examples, 10 minutes for
    every answer of list_motion_components, 5 minutes for a "not found"
    answer and 10 minutes for a found one in get_motion_example, 5 and 30
    minutes in get_motion_docs. Every other entry is as it was, or was
    dropped as expired. *)
Theorem handler_ttl_policy (t : tool) (now : Z) (params : value)
    (cache : gmap string CacheEntry) (key : string) :
  snd (toolHandlers t now params cache) !! key = cache !! key \/
  snd (toolHandlers t now params cache) !! key = None \/
  snd (toolHandlers t now params cache) !! key =
    Some (mkEntry (fst (toolHandlers t now params cache)) now
                  (stored_ttl t (fst (toolHandlers t now params cache)))).
Proof.
  destruct (catch_all_outcome t now params cache) as [Hc Hr].
  rewrite Hc, Hr.
  destruct (tool_body_stores_only t now params cache key) as [H | [H | (r & ttl & Hf & -> & H)]];
    [now left | now right; left |].
  right. right. rewrite Hf. exact H.
Qed.

(** C3 as stated fails on three counts: a found component is stored for 5
    minutes, not for 10 to 30; so is a search with results; and the error
    answer of list_motion_components for the category "examples" is stored
    for 10 minutes, not for 5. *)
Lemma handler_ttl_outside_stated_policy :
  (let run := toolHandlers get_motion_component 0
                (obj [("componentName", VStr "motion.div")]) ∅ in
   is_error_result (fst run) = false /\
   ttl <$> (snd run !! "motion-component-motion.div") = Some 300000) /\
  (let run := toolHandlers search_motion_examples 0
                (obj [("query", VStr "spring")]) ∅ in
   is_error_result (fst run) = false /\
   ttl <$> (snd run !! "motion-search-spring") = Some 300000) /\
  (let run := toolHandlers list_motion_components 0
                (obj [("category", VStr "examples")]) ∅ in
   is_error_result (fst run) = true /\
   ttl <$> (snd run !! "motion-components-list-examples") = Some 600000) /\
  ~ (600000 <= 300000 <= 1800000).
Proof.
  repeat split; try (vm_compute; reflexivity). lia.
Qed.

(** C2. The cache keys do not tell requests apart that are answered
    differently. The key of a search turns every run of white space of the
    query into a hyphen, so the queries "spring button" (two terms, two
    examples found) and "spring-button" (one term, nothing found) share the
    key "motion-search-spring-button", and the second is answered with the
    cached answer of the first. And list_motion_components files a call
    without category under "all", where a call with the invalid category
    "all" finds it. *)
Theorem cache_key_collisions :
  (search_cache_key "spring button" = search_cache_key "spring-button" /\
   search_terms "spring button" = ["spring"; "button"] /\
   search_terms "spring-button" = ["spring-button"] /\
   map (fun e => str_field e "id") (search_results "spring button")
     = ["spring-button"; "navigation-menu"] /\
   search_results "spring-button" = [] /\
   let first := toolHandlers search_motion_examples 0
                  (obj [("query", VStr "spring button")]) ∅ in
   let second := toolHandlers search_motion_examples 1
                   (obj [("query", VStr "spring-button")]) (snd first) in
   let alone := toolHandlers search_motion_examples 1
                  (obj [("query", VStr "spring-button")]) ∅ in
   fst second = fst first /\
   get_prop (fst second) "query" = VStr "spring button" /\
   get_prop (fst second) "totalResults" = VNum 2 /\
   get_prop (fst alone) "totalResults" = VNum 0) /\
  (let first := toolHandlers list_motion_components 0 (obj []) ∅ in
   let second := toolHandlers list_motion_components 1
                   (obj [("category", VStr "all")]) (snd first) in
   let alone := toolHandlers list_motion_components 1
                  (obj [("category", VStr "all")]) ∅ in
   fst second = fst first /\
   is_error_result (fst second) = false /\
   fst alone = obj [("error", VStr "Invalid parameters");
                    ("details", issues_value ["Invalid category"])]).
Proof.
  repeat split; vm_compute; reflexivity.
Qed.


(** The policy is exercised: a valid request that misses the cache does
    store its answer, under the key and the ttl of the tool. *)
Lemma parse_passes schema s :
  passes (parse schema (VStr s)) = true -> parse schema (VStr s) = inr s.
Proof.
  unfold parse.
  destruct (_ ++ _ ++ _); [reflexivity|discriminate].
Qed.

Lemma cache_get_miss now key (f : value -> M value) cache :
  cache !! key = None ->
  bind (cache_get now key) f cache = f VNull cache.
Proof. intros H. unfold bind, cache_get, Cache.get. now rewrite H. Qed.

Lemma cache_set_ret now key r ttl cache :
  ttl <> 0 ->
  bind (cache_set now key r ttl) (fun _ => ret r) cache =
  (inr r, <[key := mkEntry r now ttl]> cache).
Proof.
  intros Hnz. unfold bind, cache_set, ret, Cache.set, Cache.effective_ttl.
  destruct (Z.eqb_spec ttl 0); [contradiction|reflexivity].
Qed.

Lemma assoc_forallb (P : value -> bool) props k v :
  forallb (fun kv => P (snd kv)) props = true -> assoc k props = Some v -> P v = true.
Proof.
  induction props as [|[k' v'] rest IH]; simpl; [discriminate|].
  intros Hall. apply andb_prop in Hall as [Hv Hrest].
  destruct (String.eqb k k'); [intros [= <-]; exact Hv|auto].
Qed.

Lemma table_category_converts table name :
  categories_convert table = true ->
  passes (to_string (get_prop (get_prop table name) "category")) = true.
Proof.
  destruct table as [| | | | | |[q|] props|]; try discriminate. simpl. intros Hall.
  unfold get_prop at 2. simpl. destruct (assoc name props) as [v|] eqn:Hv.
  - exact (assoc_forallb (fun x => passes (to_string (get_prop x "category")))
             props name v Hall Hv).
  - unfold object_prototype_get.
    destruct (mem_string name object_prototype_functions); [reflexivity|].
    destruct (String.eqb name "__proto__"); reflexivity.
Qed.

Lemma bind_lift {A B : Type} (r : exn + A) (f : A -> M B) cache :
  bind (lift r) f cache =
  match r with
  | inl e => (inl e, cache)
  | inr a => f a cache
  end.
Proof. destruct r; reflexivity. Qed.

Lemma bind_bind_lift {A B C : Type} (r : exn + A) (f : A -> M B) (g : B -> M C) cache :
  bind (bind (lift r) f) g cache =
  match r with
  | inl e => (inl e, cache)
  | inr a => bind (f a) g cache
  end.
Proof. destruct r; reflexivity. Qed.

Lemma bind_ret {A B : Type} (a : A) (g : A -> M B) cache :
  bind (ret a) g cache = g a cache.
Proof. reflexivity. Qed.

Lemma passes_inr {A : Type} (r : exn + A) :
  passes r = true -> exists a, r = inr a.
Proof. destruct r as [e|a]; [discriminate|]. now exists a. Qed.

Lemma tables_categories_convert :
  categories_convert MOTION_COMPONENTS = true /\
  categories_convert MOTION_EXAMPLES = true.
Proof. split; vm_compute; reflexivity. Qed.

(** X2. A valid request that misses the cache stores its answer: the
    cache afterwards is the cache before with one entry more, under the
    key of the request, holding the answer, the time of the call and the
    ttl of the tool. *)
Theorem handler_stores_on_miss (t : tool) (now : Z) (s : string)
    (cache : gmap string CacheEntry) :
  valid_param t s = true ->
  cache !! tool_cache_key t s = None ->
  snd (toolHandlers t now (tool_request t s) cache) =
    <[tool_cache_key t s :=
        mkEntry (fst (toolHandlers t now (tool_request t s) cache)) now
                (stored_ttl t (fst (toolHandlers t now (tool_request t s) cache)))]>
      cache.
Proof.
  intros Hvalid Hmiss.
  destruct t;
    cbv beta iota delta [valid_param tool_cache_key] in Hvalid, Hmiss;
    cbv beta iota delta [toolHandlers tool_request tool_param stored_ttl tool_cache_key].
  - unfold handleGetMotionComponent, catch_all, handleGetMotionComponent_body.
    rewrite bind_lift. change (read_prop _ "componentName") with (@inr exn _ (VStr s)).
    cbv iota. rewrite bind_lift, (parse_passes _ _ Hvalid). cbv iota.
    rewrite cache_get_miss by exact Hmiss. change (truthy VNull) with false. cbv iota.
    destruct (negb (truthy (get_prop MOTION_COMPONENTS s))).
    + rewrite cache_set_ret by discriminate. reflexivity.
    + rewrite bind_lift.
      destruct (passes_inr _ (table_category_converts MOTION_COMPONENTS s
                                (proj1 tables_categories_convert))) as [c ->].
      cbv iota. rewrite cache_set_ret by discriminate. reflexivity.
  - unfold handleListMotionComponents, catch_all, handleListMotionComponents_body.
    apply andb_prop in Hvalid as [Hne Hcat].
    change (truthy (obj [("category", VStr s)])) with true. cbv iota.
    change (get_prop (obj [("category", VStr s)]) "category") with (VStr s).
    change (truthy (VStr s)) with (negb (String.eqb s "")). rewrite Hne. cbv iota.
    rewrite bind_lift. change (to_string (VStr s)) with (@inr exn _ s). cbv iota.
    rewrite bind_lift. cbv iota.
    rewrite cache_get_miss by exact Hmiss. change (truthy VNull) with false. cbv iota.
    destruct (passes_inr _ Hcat) as [v ->].
    rewrite !bind_bind_lift. cbv iota.
    destruct (negb (truthy (get_prop MOTION_COMPONENTS_LIST s)));
      rewrite bind_ret, cache_set_ret by discriminate; reflexivity.
  - unfold handleGetMotionExample, catch_all, handleGetMotionExample_body.
    rewrite bind_lift. change (read_prop _ "exampleType") with (@inr exn _ (VStr s)).
    cbv iota. rewrite bind_lift, (parse_passes _ _ Hvalid). cbv iota.
    rewrite cache_get_miss by exact Hmiss. change (truthy VNull) with false. cbv iota.
    destruct (negb (truthy (get_prop MOTION_EXAMPLES s))).
    + rewrite cache_set_ret by discriminate. reflexivity.
    + rewrite bind_lift.
      destruct (passes_inr _ (table_category_converts MOTION_EXAMPLES s
                                (proj2 tables_categories_convert))) as [c ->].
      cbv iota. rewrite cache_set_ret by discriminate. reflexivity.
  - unfold handleSearchMotionExamples, catch_all, handleSearchMotionExamples_body.
    rewrite bind_lift. change (read_prop _ "query") with (@inr exn _ (VStr s)).
    cbv iota. rewrite bind_lift, (parse_passes _ _ Hvalid). cbv iota.
    rewrite cache_get_miss by exact Hmiss. change (truthy VNull) with false. cbv iota.
    rewrite cache_set_ret by discriminate. reflexivity.
  - unfold handleGetMotionDocs, catch_all, handleGetMotionDocs_body.
    rewrite bind_lift. change (read_prop _ "topic") with (@inr exn _ (VStr s)).
    cbv iota. rewrite bind_lift, (parse_passes _ _ Hvalid). cbv iota.
    rewrite cache_get_miss by exact Hmiss. change (truthy VNull) with false. cbv iota.
    destruct (negb (truthy (get_prop MOTION_DOCS s)));
      rewrite cache_set_ret by discriminate; reflexivity.
Qed.

Lemma handler_stores_on_miss_witness :
  snd (toolHandlers get_motion_docs 1762128000000 (tool_request get_motion_docs "gestures") ∅)
    !! "motion-docs-gestures" =
  Some (mkEntry
          (fst (toolHandlers get_motion_docs 1762128000000
                  (tool_request get_motion_docs "gestures") ∅))
          1762128000000 1800000).
Proof.
  rewrite (handler_stores_on_miss get_motion_docs 1762128000000 "gestures" ∅);
    [|reflexivity|reflexivity].
  rewrite lookup_insert_eq. reflexivity.
Defined.






Lemma bind_get now key (f : value -> M value) cache :
  bind (cache_get now key) f cache =
  f (fst (Cache.get cache now key)) (snd (Cache.get cache now key)).
Proof. unfold bind, cache_get. now destruct (Cache.get cache now key). Qed.




(** X6. What the cache keys do tell apart: two tools never share a key,
    and within get_motion_component, list_motion_components,
    get_motion_example and get_motion_docs the key determines the string
    it was made from. *)
Theorem tool_cache_keys_separate :
  (forall t1 t2 a b, t1 <> t2 -> tool_cache_key t1 a <> tool_cache_key t2 b) /\
  (forall t a b,
     t <> search_motion_examples ->
     tool_cache_key t a = tool_cache_key t b -> a = b).
Proof.
  split.
  - intros t1 t2 a b Hne Heq.
    destruct t1, t2; try congruence;
      cbv beta iota delta [tool_cache_key search_cache_key] in Heq;
      cbv beta iota zeta delta [String.append] in Heq; fold String.append in Heq;
      discriminate.
  - intros t a b Hne Heq.
    destruct t; try congruence;
      cbv beta iota delta [tool_cache_key] in Heq;
      cbv beta iota zeta delta [String.append] in Heq; fold String.append in Heq;
      now inversion Heq.
Qed.

(** * Further properties of the code *)

(** *** The cache: frame, accounting, sweep *)

Lemma get_other_keys cache now k k' :
  k <> k' -> snd (Cache.get cache now k) !! k' = cache !! k'.
Proof.
  intros Hne. unfold Cache.get. destruct (cache !! k) as [e|]; [|reflexivity].
  destruct (Cache.isExpired now e); [|reflexivity]. simpl. now apply lookup_delete_ne.
Qed.

Lemma get_answer_by_lookup cache1 cache2 now k :
  cache1 !! k = cache2 !! k ->
  fst (Cache.get cache1 now k) = fst (Cache.get cache2 now k).
Proof.
  intros H. unfold Cache.get. rewrite H.
  destruct (cache2 !! k) as [e|]; [|reflexivity]. now destruct (Cache.isExpired now e).
Qed.

(** X7. The operations on one key leave every other key alone: after
    [set], [get], [has] or [delete] on [k] the entry stored under another
    key [k'] is what it was, so [get] on [k'] answers as before. *)
Theorem cache_frame (cache : gmap string CacheEntry) (now now' : Z) (k k' : string)
    (d : value) (ttl : option Z) :
  k <> k' ->
  Cache.set cache now k d ttl !! k' = cache !! k' /\
  snd (Cache.get cache now k) !! k' = cache !! k' /\
  snd (Cache.has cache now k) !! k' = cache !! k' /\
  snd (Cache.delete cache k) !! k' = cache !! k' /\
  fst (Cache.get (Cache.set cache now k d ttl) now' k') = fst (Cache.get cache now' k') /\
  fst (Cache.get (snd (Cache.get cache now k)) now' k') = fst (Cache.get cache now' k') /\
  fst (Cache.get (snd (Cache.delete cache k)) now' k') = fst (Cache.get cache now' k').
Proof.
  intros Hne.
  assert (Cache.set cache now k d ttl !! k' = cache !! k') as Hset
    by (unfold Cache.set; now apply lookup_insert_ne).
  pose proof (get_other_keys cache now k k' Hne) as Hget.
  assert (snd (Cache.delete cache k) !! k' = cache !! k') as Hdel
    by (unfold Cache.delete; simpl; now apply lookup_delete_ne).
  assert (snd (Cache.has cache now k) !! k' = cache !! k') as Hhas.
  { unfold Cache.has. destruct (cache !! k) as [e|]; [|reflexivity].
    destruct (Cache.isExpired now e); [|reflexivity]. simpl. now apply lookup_delete_ne. }
  repeat split; try assumption; apply get_answer_by_lookup; assumption.
Qed.

Lemma cache_frame_witness :
  let cache := Cache.set ∅ 0 "a" (VNum 1) None in
  fst (Cache.get (Cache.set cache 5 "b" (VNum 2) (Some 10)) 7 "a") = VNum 1 /\
  fst (Cache.get (snd (Cache.delete cache "b")) 7 "a") = VNum 1.
Proof.
  cbv zeta.
  destruct (cache_frame (Cache.set ∅ 0 "a" (VNum 1) None) 5 7 "b" "a" (VNum 2) (Some 10))
    as (_ & _ & _ & _ & Hset & _ & Hdel); [discriminate|].
  rewrite Hset, Hdel. split; reflexivity.
Defined.

(** X8. [delete] answers whether an entry was stored (expired or not)
    and leaves none; [size] counts by what is stored: a [set] adds one for
    a new key and none for a key that is there, a [delete] takes one away
    when it answers [true], a [get] takes one away exactly when it meets an
    expired entry, and after [clear] nothing is stored. *)
Theorem cache_size_accounting (cache : gmap string CacheEntry) (now : Z) (k : string)
    (d : value) (lifetime : option Z) :
  (fst (Cache.delete cache k) = true <-> is_Some (cache !! k)) /\
  Cache.get (snd (Cache.delete cache k)) now k = (VNull, snd (Cache.delete cache k)) /\
  Cache.size (Cache.set cache now k d lifetime) =
    (if fst (Cache.delete cache k) then Cache.size cache else S (Cache.size cache)) /\
  Cache.size cache =
    (if fst (Cache.delete cache k) then S (Cache.size (snd (Cache.delete cache k)))
     else Cache.size (snd (Cache.delete cache k))) /\
  Cache.size cache =
    match cache !! k with
    | Some e =>
        if decide (now - timestamp e <= ttl e)
        then Cache.size (snd (Cache.get cache now k))
        else S (Cache.size (snd (Cache.get cache now k)))
    | None => Cache.size (snd (Cache.get cache now k))
    end /\
  Cache.size (Cache.clear cache) = 0%nat /\
  Cache.get (Cache.clear cache) now k = (VNull, Cache.clear cache).
Proof.
  unfold Cache.delete, Cache.size, Cache.set, Cache.clear. simpl.
  split; [apply bool_decide_eq_true|].
  split; [unfold Cache.get; now rewrite lookup_delete_eq|].
  split; [|split; [|split; [|split]]].
  - destruct (cache !! k) as [e|] eqn:Hk.
    + rewrite bool_decide_true by eauto. now apply map_size_insert_Some.
    + rewrite bool_decide_false by (intros [? ?]; discriminate).
      now apply map_size_insert_None.
  - destruct (cache !! k) as [e|] eqn:Hk.
    + rewrite bool_decide_true by eauto. rewrite map_size_delete, Hk.
      pose proof (map_size_ne_0_lookup_2 cache k (ex_intro _ e Hk)).
      unfold base.size in *. simpl. lia.
    + rewrite bool_decide_false by (intros [? ?]; discriminate).
      now rewrite delete_id.
  - unfold Cache.get. destruct (cache !! k) as [e|] eqn:Hk; [|reflexivity].
    destruct (decide _) as [Hlive|Hold].
    + apply isExpired_live in Hlive. now rewrite Hlive.
    + assert (Cache.isExpired now e = true) as -> by (apply isExpired_spec; lia).
      simpl. rewrite map_size_delete, Hk.
      pose proof (map_size_ne_0_lookup_2 cache k (ex_intro _ e Hk)).
      unfold base.size in *. simpl. lia.
  - apply map_size_empty.
  - reflexivity.
Qed.

(** X9. The sweep and the lazy expiry agree: after [cleanup] at a time,
    [get] at that time answers what it would have answered before the
    sweep and finds nothing left to drop; the sweep leaves no entry that
    is expired at that time, never stores more than there was, and a
    second sweep at the same time changes nothing. *)
Theorem cache_cleanup_agrees_with_get (cache : gmap string CacheEntry) (now : Z) (k : string) :
  Cache.get (Cache.cleanup cache now) now k =
    (fst (Cache.get cache now k), Cache.cleanup cache now) /\
  (forall e, Cache.cleanup cache now !! k = Some e -> now - timestamp e <= ttl e) /\
  (Cache.size (Cache.cleanup cache now) <= Cache.size cache)%nat /\
  Cache.cleanup (Cache.cleanup cache now) now = Cache.cleanup cache now.
Proof.
  assert (forall e, Cache.cleanup cache now !! k = Some e ->
                    cache !! k = Some e /\ Cache.isExpired now e = false) as Hsome.
  { intros e He. unfold Cache.cleanup in He.
    apply map_lookup_filter_Some in He. exact He. }
  split; [|split; [|split]].
  - unfold Cache.get. destruct (Cache.cleanup cache now !! k) as [e|] eqn:Hc.
    + destruct (Hsome e eq_refl) as [Hk Hlive]. now rewrite Hk, Hlive.
    + destruct (cache !! k) as [e|] eqn:Hk; [|reflexivity].
      destruct (Cache.isExpired now e) eqn:He; [reflexivity|].
      exfalso. unfold Cache.cleanup in Hc.
      apply map_lookup_filter_None in Hc as [Hc|Hc]; [congruence|].
      apply (Hc e Hk). exact He.
  - intros e He. apply isExpired_live. now apply Hsome.
  - unfold Cache.size, Cache.cleanup. apply map_subseteq_size, map_filter_subseteq.
  - unfold Cache.cleanup. apply map_eq. intros i.
    rewrite map_filter_filter. apply option_eq. intros e.
    rewrite !map_lookup_filter_Some. tauto.
Qed.

(** *** The circuit breaker: transparency and retries *)

Lemma execute_closed {W T : Type} cb now (op : operation W T) w :
  state cb = CLOSED ->
  execute cb now op w =
    (match outcome (op w) with
     | Fulfilled _ => with_failures cb 0
     | Rejected _ => onFailure cb (settledAt (op w))
     end, world (op w), outcome (op w)).
Proof.
  intros Hs. unfold execute. rewrite gate_passes by congruence.
  destruct (outcome (op w)); [|reflexivity].
  unfold onSuccess. simpl. rewrite Hs. reflexivity.
Qed.

(** X10. While fewer than [failureThreshold] operations fail in a row, a
    CLOSED breaker is transparent: every operation is invoked, in order,
    on the dependency as the previous one left it, every outcome is
    passed on as it is, the breaker stays CLOSED, and [failures] is the
    length of the current run of failures, a success setting it back to
    0. *)
Theorem breaker_transparent_below_threshold {W T : Type} (calls : list (Z * operation W T))
    (cb : CircuitBreaker) (w : W) :
  state cb = CLOSED ->
  streaks_below (failureThreshold cb) (failures cb) (snd (run_plain w calls)) = true ->
  snd (fst (run_calls cb w calls)) = fst (run_plain w calls) /\
  snd (run_calls cb w calls) = snd (run_plain w calls) /\
  state (fst (fst (run_calls cb w calls))) = CLOSED /\
  failures (fst (fst (run_calls cb w calls))) =
    streak_after (failures cb) (snd (run_plain w calls)).
Proof.
  revert cb w. induction calls as [|[now op] rest IH]; intros cb w Hs Hbelow.
  - simpl. auto.
  - simpl in Hbelow |- *. rewrite (execute_closed cb now op w Hs).
    destruct (run_plain (world (op w)) rest) as [w' rs] eqn:Hplain. simpl in Hbelow.
    destruct (outcome (op w)) as [v|e] eqn:Ho.
    + specialize (IH (with_failures cb 0) (world (op w)) Hs).
      rewrite Hplain in IH. specialize (IH Hbelow).
      destruct (run_calls (with_failures cb 0) (world (op w)) rest) as [[cb2 w2] rs2].
      simpl in IH |- *. destruct IH as (-> & -> & Hst & Hf). auto.
    + apply andb_prop in Hbelow as [Hlt Hrest]. apply Z.ltb_lt in Hlt.
      destruct (onFailure_fields cb (settledAt (op w))) as (Hf1 & _ & Hth & _ & Hst1).
      assert (Z.leb (failureThreshold cb) (failures cb + 1) = false) as Hleb
        by (apply Z.leb_gt; lia).
      rewrite Hleb, Hs in Hst1.
      specialize (IH (onFailure cb (settledAt (op w))) (world (op w)) Hst1).
      rewrite Hplain, Hth, Hf1 in IH. specialize (IH Hrest).
      destruct (run_calls (onFailure cb (settledAt (op w))) (world (op w)) rest)
        as [[cb2 w2] rs2].
      simpl in IH |- *. destruct IH as (-> & -> & Hst & Hf). auto.
Qed.

Lemma breaker_transparent_below_threshold_witness :
  let boom := JsError "Error" "boom" in
  let calls := [(0, counting_failure boom 1); (2, counting_failure boom 3);
                (4, counting_success 5); (6, counting_failure boom 7);
                (8, counting_failure boom 9)] in
  snd (fst (run_calls circuitBreakers_github 0%nat calls)) = 5%nat /\
  state (fst (fst (run_calls circuitBreakers_github 0%nat calls))) = CLOSED /\
  failures (fst (fst (run_calls circuitBreakers_github 0%nat calls))) = 2.
Proof.
  cbv zeta.
  destruct (breaker_transparent_below_threshold
              [(0, counting_failure (JsError "Error" "boom") 1);
               (2, counting_failure (JsError "Error" "boom") 3);
               (4, counting_success 5);
               (6, counting_failure (JsError "Error" "boom") 7);
               (8, counting_failure (JsError "Error" "boom") 9)]
              circuitBreakers_github 0%nat)
    as (Hw & _ & Hs & Hf); [reflexivity|reflexivity|].
  rewrite Hw, Hf. split; [reflexivity|]. split; [exact Hs|reflexivity].
Defined.

(** X11. Trials never back off. On an OPEN breaker, trials that fail, each
    made once [timeout] has passed since the failure before it, are all
    let through to the dependency; the breaker is OPEN after each, its
    count grows by one per trial without bound, and the wait before the
    next trial is the same [timeout], counted from the last failure. *)
Theorem breaker_retries_without_backoff {W T : Type} (calls : list (Z * operation W T))
    (cb : CircuitBreaker) (w : W) :
  state cb = OPEN ->
  failureThreshold cb <= failures cb ->
  failing_trials (timeout cb) (lastFailTime cb) w calls ->
  snd (fst (run_calls cb w calls)) = fst (run_plain w calls) /\
  snd (run_calls cb w calls) = snd (run_plain w calls) /\
  state (fst (fst (run_calls cb w calls))) = OPEN /\
  failures (fst (fst (run_calls cb w calls))) = failures cb + Z.of_nat (length calls) /\
  lastFailTime (fst (fst (run_calls cb w calls))) = last_settled (lastFailTime cb) w calls /\
  timeout (fst (fst (run_calls cb w calls))) = timeout cb.
Proof.
  revert cb w. induction calls as [|[now op] rest IH]; intros cb w Hs Hge Htrials.
  - simpl. repeat split; auto. lia.
  - destruct Htrials as (Hnow & (e & He) & Hrest).
    pose proof (gate_half_open cb now Hs Hnow) as Hg.
    assert (execute cb now op w =
            (onFailure (with_state cb HALF_OPEN) (settledAt (op w)), world (op w),
             outcome (op w))) as Hex
      by (unfold execute; rewrite Hg, He; reflexivity).
    destruct (onFailure_fields (with_state cb HALF_OPEN) (settledAt (op w)))
      as (Hf1 & Hl1 & Hth1 & Hto1 & Hst1).
    simpl in Hf1, Hth1, Hto1, Hst1.
    assert (Z.leb (failureThreshold cb) (failures cb + 1) = true) as Hleb
      by (apply Z.leb_le; lia).
    rewrite Hleb in Hst1.
    specialize (IH (onFailure (with_state cb HALF_OPEN) (settledAt (op w))) (world (op w))
                   Hst1).
    rewrite Hth1, Hf1, Hto1, Hl1 in IH. specialize (IH ltac:(lia) Hrest).
    simpl run_calls. simpl run_plain. simpl last_settled. rewrite Hex.
    destruct (run_calls (onFailure (with_state cb HALF_OPEN) (settledAt (op w)))
                (world (op w)) rest) as [[cb2 w2] rs2].
    destruct (run_plain (world (op w)) rest) as [w' rs].
    simpl in IH |- *. destruct IH as (-> & -> & Hst & Hf & Hl & Hto).
    repeat split; auto. rewrite Hf. lia.
Qed.

Lemma breaker_retries_without_backoff_witness :
  let cb := mkBreaker 3 1000 OPEN 3 30000 5000 in
  let refused := JsError "Error" "ECONNREFUSED" in
  let calls := [(31000, counting_failure refused 31050);
                (61050, counting_failure refused 61100);
                (91100, counting_failure refused 91150)] in
  snd (fst (run_calls cb 0%nat calls)) = 3%nat /\
  state (fst (fst (run_calls cb 0%nat calls))) = OPEN /\
  failures (fst (fst (run_calls cb 0%nat calls))) = 6 /\
  lastFailTime (fst (fst (run_calls cb 0%nat calls))) = 91150.
Proof.
  cbv zeta.
  destruct (breaker_retries_without_backoff
              [(31000, counting_failure (JsError "Error" "ECONNREFUSED") 31050);
               (61050, counting_failure (JsError "Error" "ECONNREFUSED") 61100);
               (91100, counting_failure (JsError "Error" "ECONNREFUSED") 91150)]
              (mkBreaker 3 1000 OPEN 3 30000 5000) 0%nat)
    as (Hw & _ & Hs & Hf & Hl & _).
  - reflexivity.
  - simpl; lia.
  - simpl. repeat split; try lia; eexists; reflexivity.
  - rewrite Hw, Hf, Hl. split; [reflexivity|]. split; [exact Hs|]. split; reflexivity.
Defined.

(** *** The sanitizer: what holds of every input *)

Lemma sanitizeObject_kind v :
  match v with
  | VArr _ => exists items, sanitizeObject v = VArr items
  | VObj _ _ => exists proto props, sanitizeObject v = VObj proto props
  | VStr _ => exists s, sanitizeObject v = VStr s
  | _ => sanitizeObject v = v
  end.
Proof.
  destruct v as [| | | |s|items|proto props|]; try reflexivity; simpl; eauto.
  generalize (map (fun kv => (fst kv, sanitizeObject (snd kv))) props) as l.
  generalize (@nil (string * value)) as acc. generalize (@None value) as p.
  intros p acc l. revert p acc.
  induction l as [|[k v] rest IH]; intros p acc; simpl; [eauto|].
  match goal with |- context [if ?c then _ else _] => destruct c end;
    [destruct (is_object_or_null v)|]; apply IH.
Qed.

(** X12. [validateAndSanitizeParams] either throws the one error
    "Parameters must be an object", and then exactly for a truthy
    primitive or a function, or returns an object or an array, never a
    primitive and never [null]: a falsy [params], be it [undefined],
    [null], [0], [""] or [false], comes back as the empty object. The
    [method] name plays no part in the result. *)
Theorem validate_params_outcomes (method : string) (params : value) :
  match validateAndSanitizeParams method params with
  | inl e =>
      e = JsError "Error" "Parameters must be an object" /\
      truthy params = true /\ is_typeof_object params = false
  | inr v =>
      ((exists items, v = VArr items) \/ (exists proto props, v = VObj proto props)) /\
      (truthy params = false -> v = obj []) /\
      (truthy params = true -> v = sanitizeObject params)
  end /\
  validateAndSanitizeParams method params = validateAndSanitizeParams "" params.
Proof.
  split; [|reflexivity]. unfold validateAndSanitizeParams.
  destruct (truthy params) eqn:Ht; simpl.
  - destruct (is_typeof_object params) eqn:Ho; simpl.
    + split; [|split; [discriminate|reflexivity]].
      pose proof (sanitizeObject_kind params) as Hk.
      destruct params; try discriminate; auto.
    + auto.
  - split; [right; exists None, []; reflexivity|]. split; [reflexivity|discriminate].
Qed.

Lemma fold_right_and_Forall {A : Type} (P : A -> Prop) (l : list A) :
  fold_right (fun x acc => P x /\ acc) True l <-> Forall P l.
Proof.
  induction l as [|x r IH]; simpl.
  - split; [constructor|trivial].
  - rewrite IH. split; [intros [? ?]; now constructor|now inversion 1].
Qed.

Lemma assoc_set_trimmed props k v :
  Forall (fun kv => strings_trimmed (snd kv)) props -> strings_trimmed v ->
  Forall (fun kv => strings_trimmed (snd kv)) (assoc_set props k v).
Proof.
  intros Hall Hv. induction Hall as [|[k' v'] rest Hkv Hrest IH]; simpl.
  - constructor; [exact Hv|constructor].
  - destruct (String.eqb k k'); constructor; auto.
Qed.

Lemma set_prop_trimmed o k v :
  strings_trimmed o -> strings_trimmed v -> strings_trimmed (set_prop o k v).
Proof.
  intros Ho Hv. destruct o as [| | | | | |proto props|]; try exact Ho.
  unfold set_prop.
  destruct (String.eqb k "__proto__" && finds_proto_accessor (VObj proto props)).
  - destruct (is_object_or_null v); [|exact Ho].
    destruct Ho as [_ Hprops]. split; assumption.
  - destruct Ho as [Hproto Hprops]. split; [exact Hproto|].
    apply (fold_right_and_Forall (fun kv => strings_trimmed (snd kv))).
    apply assoc_set_trimmed; [|exact Hv].
    now apply (fold_right_and_Forall (fun kv => strings_trimmed (snd kv))).
Qed.

(** X13. Whatever the input, no string of the sanitized value has white
    space at either end: not in an array, not in a property at any depth,
    and not in the object that a key [__proto__] made the prototype. *)
Theorem sanitizeObject_strings_trimmed (v : value) : strings_trimmed (sanitizeObject v).
Proof.
  induction v as [| | | |s|items IH|proto props _ IH|] using value_ind';
    try exact I.
  - simpl. apply trim_idempotent.
  - simpl. apply (fold_right_and_Forall strings_trimmed).
    induction IH as [|x r Hx _ IHr]; simpl; constructor; auto.
  - simpl.
    assert (Forall (fun kv => strings_trimmed (snd kv))
              (map (fun kv => (fst kv, sanitizeObject (snd kv))) props)) as Hall.
    { induction IH as [|kv r Hkv _ IHr]; simpl; constructor; auto. }
    assert (strings_trimmed (VObj None [])) as Hacc by (simpl; auto).
    revert Hacc. generalize (VObj None []) as acc.
    induction Hall as [|[k x] rest Hx _ IHrest]; intros acc Hacc; simpl; [exact Hacc|].
    apply IHrest. now apply set_prop_trimmed.
Qed.

Lemma assoc_not_in k props : ~ In k (keys props) -> assoc k props = None.
Proof.
  induction props as [|[k' v] rest IH]; simpl; [reflexivity|]. intros H.
  destruct (String.eqb_spec k k') as [->|Hne]; [tauto|]. apply IH. tauto.
Qed.

Lemma assoc_cons k k' v rest :
  assoc k ((k', v) :: rest) = if String.eqb k k' then Some v else assoc k rest.
Proof. reflexivity. Qed.

(** The loop of [sanitizeObject] over entries with distinct keys. *)
Lemma copy_entries_proto (l acc : list (string * value)) (p : option value) :
  NoDup (keys acc ++ keys l) ->
  ~ In "__proto__" (keys acc) ->
  p = None \/ ~ In "__proto__" (keys l) ->
  fold_left (fun sanitized kv => set_prop sanitized (fst kv) (snd kv)) l (VObj p acc)
  = VObj (match assoc "__proto__" l with
          | Some v => if is_object_or_null v then Some v else p
          | None => p
          end)
         (acc ++ List.filter not_proto_key l).
Proof.
  revert acc p. induction l as [|[k v] rest IH]; intros acc p Hnd Hacc Hp.
  - simpl. now rewrite app_nil_r.
  - assert (NoDup (keys acc) /\ ~ In k (keys acc) /\ ~ In k (keys rest) /\
            NoDup (keys acc ++ keys rest)) as (Ha & Hka & Hkr & Hnd').
    { change (keys ((k, v) :: rest)) with (k :: keys rest) in Hnd.
      apply NoDup_app in Hnd as (Ha & Hdis & Hl).
      apply NoDup_cons in Hl as [Hk Hrest].
      split; [exact Ha|]. split.
      - intros Hin. apply (Hdis k); [now apply list_elem_of_In|]. left.
      - split; [intros Hin; apply Hk; now apply list_elem_of_In|].
        apply NoDup_app. split; [exact Ha|]. split; [|exact Hrest].
        intros x Hx Hx'. apply (Hdis x Hx). now right. }
    rewrite assoc_cons.
    change (List.filter not_proto_key ((k, v) :: rest))
      with (if negb (String.eqb k "__proto__")
            then (k, v) :: List.filter not_proto_key rest
            else List.filter not_proto_key rest).
    change (fold_left (fun sanitized kv => set_prop sanitized (fst kv) (snd kv))
                      ((k, v) :: rest) (VObj p acc))
      with (fold_left (fun sanitized kv => set_prop sanitized (fst kv) (snd kv))
                      rest (set_prop (VObj p acc) k v)).
    destruct (String.eqb_spec k "__proto__") as [->|Hne].
    + rewrite String.eqb_refl.
      assert (p = None) as -> by (destruct Hp as [Hp|Hp]; [exact Hp|exfalso; apply Hp; now left]).
      assert (set_prop (VObj None acc) "__proto__" v =
              if is_object_or_null v then VObj (Some v) acc else VObj None acc) as ->.
      { unfold set_prop. cbn [finds_proto_accessor]. rewrite (assoc_not_in _ acc Hacc).
        reflexivity. }
      cbn [negb]. destruct (is_object_or_null v);
        (rewrite IH; [|exact Hnd'|exact Hacc|now right]);
        now rewrite (assoc_not_in _ rest Hkr).
    + assert (String.eqb "__proto__" k = false) as ->
        by (apply String.eqb_neq; congruence).
      assert (set_prop (VObj p acc) k v = VObj p (acc ++ [(k, v)])) as ->.
      { unfold set_prop.
        assert (String.eqb k "__proto__" = false) as -> by now apply String.eqb_neq.
        cbn [andb]. now rewrite assoc_set_fresh. }
      cbn [negb]. rewrite IH.
      * now rewrite <- app_assoc.
      * rewrite keys_app. change (keys [(k, v)]) with [k]. rewrite <- app_assoc.
        change ([k] ++ keys rest) with (k :: keys rest). exact Hnd.
      * rewrite keys_app. intros Hin. apply in_app_or in Hin as [Hin|Hin]; [tauto|].
        destruct Hin as [Hin|[]]. simpl in Hin. congruence.
      * destruct Hp as [Hp|Hp]; [now left|right]. intros Hin. apply Hp. now right.
Qed.

Lemma assoc_map_values (f : value -> value) k props :
  assoc k (map (fun kv => (fst kv, f (snd kv))) props) = f <$> assoc k props.
Proof.
  induction props as [|[k' v] rest IH]; simpl; [reflexivity|].
  destruct (String.eqb k k'); [reflexivity|exact IH].
Qed.

Lemma filter_map_values (f : value -> value) props :
  List.filter not_proto_key (map (fun kv => (fst kv, f (snd kv))) props) =
  map (fun kv => (fst kv, f (snd kv))) (List.filter not_proto_key props).
Proof.
  induction props as [|[k v] rest IH]; [reflexivity|].
  cbn [map List.filter].
  change (not_proto_key (fst (k, v), f (snd (k, v)))) with (not_proto_key (k, v)).
  destruct (not_proto_key (k, v)); cbn [map]; now rewrite IH.
Qed.

(** X14. What the sanitizer makes of a mapping whose keys are distinct:
    the own properties of the result are the entries of the input other
    than [__proto__], in their order, each with its value sanitized; the
    entry [__proto__] is never among them, and its sanitized value is the
    prototype of the result when it is an object, an array or [null]. *)
Theorem sanitizeObject_of_mapping (proto : option value) (props : list (string * value)) :
  NoDup (keys props) ->
  sanitizeObject (VObj proto props) =
    VObj (sanitized_proto props)
         (map (fun kv => (fst kv, sanitizeObject (snd kv)))
              (List.filter not_proto_key props)) /\
  object_keys (sanitizeObject (VObj proto props)) =
    List.filter (fun k => negb (String.eqb k "__proto__")) (keys props) /\
  ~ In "__proto__" (object_keys (sanitizeObject (VObj proto props))).
Proof.
  intros Hnd.
  assert (sanitizeObject (VObj proto props) =
          VObj (sanitized_proto props)
               (map (fun kv => (fst kv, sanitizeObject (snd kv)))
                    (List.filter not_proto_key props))) as Heq.
  { simpl. rewrite copy_entries_proto.
    - simpl. rewrite filter_map_values. f_equal.
      rewrite assoc_map_values. unfold sanitized_proto.
      destruct (assoc "__proto__" props); reflexivity.
    - simpl. now rewrite keys_map_values.
    - simpl. tauto.
    - now left. }
  split; [exact Heq|]. rewrite Heq. simpl. rewrite keys_map_values.
  assert (keys (List.filter not_proto_key props) =
          List.filter (fun k => negb (String.eqb k "__proto__")) (keys props)) as Hk.
  { clear. induction props as [|[k v] rest IH]; [reflexivity|].
    change (keys ((k, v) :: rest)) with (k :: keys rest). cbn [List.filter].
    change (not_proto_key (k, v)) with (negb (String.eqb k "__proto__")).
    destruct (negb (String.eqb k "__proto__")); [change (keys ((k, v) :: ?l)) with (k :: keys l)|];
      now rewrite IH. }
  split; [exact Hk|]. rewrite Hk. intros Hin.
  apply filter_In in Hin as [_ Hin]. simpl in Hin. discriminate.
Qed.

Lemma sanitizeObject_of_mapping_witness :
  sanitizeObject (obj [("a", VStr " x "); ("__proto__", obj [("admin", VBool true)]);
                       ("b", VNum 1)]) =
    VObj (Some (obj [("admin", VBool true)])) [("a", VStr "x"); ("b", VNum 1)].
Proof.
  refine (eq_trans (proj1 (sanitizeObject_of_mapping None _ _)) _);
    [apply (bool_decide_unpack _); vm_compute; exact I | reflexivity].
Defined.

(** *** The schemas *)

Lemma parse_accepts schema v s :
  parse schema v = inr s <->
  v = VStr s /\
  (fst (min_length schema) <= String.length s <= fst (max_length schema))%nat /\
  match pattern schema with
  | Some (test, _) => test s = true
  | None => True
  end.
Proof.
  unfold parse. destruct v as [| | | |x| | |]; try (split; [discriminate|intros [[=] _]]).
  destruct (Nat.ltb_spec (String.length x) (fst (min_length schema))) as [Hmin|Hmin];
  destruct (Nat.ltb_spec (fst (max_length schema)) (String.length x)) as [Hmax|Hmax];
  destruct (pattern schema) as [[test message]|];
    try destruct (test x) eqn:Htest; simpl;
    (split; [intros [= <-] || discriminate | intros ([= <-] & Hlen & Hpat)]);
    try (split; [reflexivity|split; [lia|trivial]]);
    try reflexivity; try lia; try congruence.
Qed.

(** X15. What the schemas accept. A component name and a topic: a string
    of 1 to 100 characters, each a letter, a digit, a dot, an underscore
    or a hyphen. An example type: any string of 1 to 100 characters. A
    search query: any string of 1 to 200 characters. A category:
    [undefined], the empty string or one of the six category names. What
    is accepted is returned unchanged; anything else, a non-string
    included, throws a [ZodError] with at least one issue. *)
Theorem schemas_accept (v : value) :
  (forall s, parse componentNameSchema v = inr s <->
     v = VStr s /\ (1 <= String.length s <= 100)%nat /\ all_chars is_name_char s = true) /\
  (forall s, parse topicSchema v = inr s <->
     v = VStr s /\ (1 <= String.length s <= 100)%nat /\ all_chars is_name_char s = true) /\
  (forall s, parse exampleTypeSchema v = inr s <->
     v = VStr s /\ (1 <= String.length s <= 100)%nat) /\
  (forall s, parse searchQuerySchema v = inr s <->
     v = VStr s /\ (1 <= String.length s <= 200)%nat) /\
  (forall w, parse_category v = inr w <->
     w = v /\ (v = VUndefined \/ v = VStr "" \/
               exists c, In c categories_allowed /\ v = VStr c)) /\
  (forall schema e, parse schema v = inl e ->
     exists issue issues, e = ZodError (issue :: issues)) /\
  (forall e, parse_category v = inl e ->
     exists issue issues, e = ZodError (issue :: issues)).
Proof.
  assert (forall s, name_pattern s = true <->
                    (1 <= String.length s)%nat /\ all_chars is_name_char s = true) as Hname.
  { intros s. unfold name_pattern. rewrite andb_true_iff.
    destruct s; simpl; [split; [intros [[=] _]|intros [? _]; lia]|].
    split; intros [_ H]; (split; [reflexivity || lia|exact H]). }
  split; [|split; [|split; [|split; [|split; [|split]]]]].
  - intros s. split.
    + intros H. apply parse_accepts in H as (Hv & Hlen & Hpat). simpl in *.
      apply Hname in Hpat. tauto.
    + intros (Hv & Hlen & Hpat). apply parse_accepts. simpl. rewrite Hname. tauto.
  - intros s. split.
    + intros H. apply parse_accepts in H as (Hv & Hlen & Hpat). simpl in *.
      apply Hname in Hpat. tauto.
    + intros (Hv & Hlen & Hpat). apply parse_accepts. simpl. rewrite Hname. tauto.
  - intros s. split.
    + intros H. apply parse_accepts in H as (Hv & Hlen & Hpat). simpl in *. tauto.
    + intros (Hv & Hlen). apply parse_accepts. simpl. tauto.
  - intros s. split.
    + intros H. apply parse_accepts in H as (Hv & Hlen & Hpat). simpl in *. tauto.
    + intros (Hv & Hlen). apply parse_accepts. simpl. tauto.
  - intros w. split.
    + unfold parse_category.
      destruct v as [| | | |s| | |]; try discriminate;
        try (intros [= <-]; split; [reflexivity|left; reflexivity]).
      destruct (String.eqb s "" || mem_string s categories_allowed)%bool eqn:Hacc;
        [|discriminate].
      intros [= <-]. split; [reflexivity|].
      apply orb_true_iff in Hacc as [Hacc|Hacc].
      * apply String.eqb_eq in Hacc. subst. auto.
      * right; right. exists s. split; [|reflexivity].
        unfold mem_string in Hacc. apply existsb_exists in Hacc as (c & Hin & Heq).
        apply String.eqb_eq in Heq. now subst.
    + intros (-> & Hcases). unfold parse_category.
      destruct Hcases as [-> | [-> | (c & Hin & ->)]]; try reflexivity.
      assert (mem_string c categories_allowed = true) as Hmem.
      { unfold mem_string. apply existsb_exists. exists c. split; [exact Hin|].
        apply String.eqb_refl. }
      rewrite Hmem, orb_true_r. reflexivity.
  - intros schema e. unfold parse, invalid_type.
    destruct v; try (intros [= <-]; eauto).
    destruct (_ ++ _ ++ _) as [|issue issues]; [discriminate|]. intros [= <-]. eauto.
  - intros e. unfold parse_category, invalid_type.
    destruct v; try discriminate; try (intros [= <-]; eauto).
    destruct (_ || _); [discriminate|]. intros [= <-]. eauto.
Qed.

(** *** The handlers and the cache: hits, repeats, expiry *)

Lemma cache_get_expired now key (f : value -> M value) cache e :
  cache !! key = Some e -> ttl e < now - timestamp e ->
  bind (cache_get now key) f cache = f VNull (base.delete key cache).
Proof.
  intros Hk Hold. unfold bind, cache_get, Cache.get. rewrite Hk.
  assert (Cache.isExpired now e = true) as -> by (apply isExpired_spec; lia).
  reflexivity.
Qed.

Lemma cache_get_hit now key (f : value -> M value) cache e :
  cache !! key = Some e -> now - timestamp e <= ttl e ->
  bind (cache_get now key) f cache = f (data e) cache.
Proof.
  intros Hk Hlive. unfold bind, cache_get, Cache.get. rewrite Hk.
  apply isExpired_live in Hlive. now rewrite Hlive.
Qed.

Ltac give_props :=
  match goal with
  | |- exists props, (inr (obj ?p), _) = _ => exists p; reflexivity
  end.

(** A valid request runs as: look the key up; answer what is found if it
    is truthy; otherwise compute an object, store it under the key with
    the ttl of the tool and answer it. *)
Lemma tool_body_shape t now s :
  valid_param t s = true ->
  exists compute : M value,
    (forall cache,
       tool_body t now (tool_request t s) cache =
       bind (cache_get now (tool_cache_key t s))
            (fun cached => if truthy cached then ret cached else compute) cache) /\
    (forall cache, exists props,
       compute cache =
       (inr (obj props),
        <[tool_cache_key t s := mkEntry (obj props) now (stored_ttl t (obj props))]> cache)).
Proof.
  intros Hvalid.
  destruct t;
    cbv beta iota delta [valid_param] in Hvalid;
    cbv beta iota delta [tool_body tool_request tool_param stored_ttl tool_cache_key].
  - eexists. split.
    + intros cache. unfold handleGetMotionComponent_body.
      rewrite bind_lift. change (read_prop _ "componentName") with (@inr exn _ (VStr s)).
      cbv iota. rewrite bind_lift, (parse_passes _ _ Hvalid). cbv iota. reflexivity.
    + intros cache. cbv beta zeta.
      destruct (negb (truthy (get_prop MOTION_COMPONENTS s))).
      * rewrite cache_set_ret by discriminate. give_props.
      * rewrite bind_lift.
        destruct (passes_inr _ (table_category_converts MOTION_COMPONENTS s
                                  (proj1 tables_categories_convert))) as [c ->].
        cbv iota. rewrite cache_set_ret by discriminate. give_props.
  - apply andb_prop in Hvalid as [Hne Hcat].
    eexists. split.
    + intros cache. unfold handleListMotionComponents_body.
      change (truthy (obj [("category", VStr s)])) with true. cbv iota.
      change (get_prop (obj [("category", VStr s)]) "category") with (VStr s).
      change (truthy (VStr s)) with (negb (String.eqb s "")). rewrite Hne. cbv iota.
      rewrite bind_lift. change (to_string (VStr s)) with (@inr exn _ s). cbv iota.
      rewrite bind_lift. cbv iota. reflexivity.
    + intros cache. cbv beta zeta.
      destruct (passes_inr _ Hcat) as [v ->].
      rewrite !bind_bind_lift. cbv iota.
      change (to_string (VStr s)) with (@inr exn _ s). cbv iota.
      destruct (negb (truthy (get_prop MOTION_COMPONENTS_LIST s)));
        rewrite bind_ret, cache_set_ret by discriminate; give_props.
  - eexists. split.
    + intros cache. unfold handleGetMotionExample_body.
      rewrite bind_lift. change (read_prop _ "exampleType") with (@inr exn _ (VStr s)).
      cbv iota. rewrite bind_lift, (parse_passes _ _ Hvalid). cbv iota. reflexivity.
    + intros cache. cbv beta zeta.
      destruct (negb (truthy (get_prop MOTION_EXAMPLES s))).
      * rewrite cache_set_ret by discriminate. give_props.
      * rewrite bind_lift.
        destruct (passes_inr _ (table_category_converts MOTION_EXAMPLES s
                                  (proj2 tables_categories_convert))) as [c ->].
        cbv iota. rewrite cache_set_ret by discriminate. give_props.
  - eexists. split.
    + intros cache. unfold handleSearchMotionExamples_body.
      rewrite bind_lift. change (read_prop _ "query") with (@inr exn _ (VStr s)).
      cbv iota. rewrite bind_lift, (parse_passes _ _ Hvalid). cbv iota. reflexivity.
    + intros cache. cbv beta zeta.
      rewrite cache_set_ret by discriminate. give_props.
  - eexists. split.
    + intros cache. unfold handleGetMotionDocs_body.
      rewrite bind_lift. change (read_prop _ "topic") with (@inr exn _ (VStr s)).
      cbv iota. rewrite bind_lift, (parse_passes _ _ Hvalid). cbv iota. reflexivity.
    + intros cache. cbv beta zeta.
      destruct (negb (truthy (get_prop MOTION_DOCS s)));
        rewrite cache_set_ret by discriminate; give_props.
Qed.

(** X16. How a handler uses the cache, for a request that passes
    validation. A live entry under the key of the request whose value is
    truthy is answered as it is, whatever it holds, and nothing is
    computed or stored. After a call that missed the cache, the same
    request within the ttl of the tool gets the same answer and leaves
    the cache as it is; once the ttl has passed the request is answered
    as if the first call had not been made. *)
Theorem handler_cache_discipline (t : tool) (s : string) :
  valid_param t s = true ->
  (forall now cache e,
     cache !! tool_cache_key t s = Some e ->
     now - timestamp e <= ttl e ->
     truthy (data e) = true ->
     toolHandlers t now (tool_request t s) cache = (data e, cache)) /\
  (forall now now' cache,
     cache !! tool_cache_key t s = None ->
     now' - now <= stored_ttl t (fst (toolHandlers t now (tool_request t s) cache)) ->
     toolHandlers t now' (tool_request t s)
                  (snd (toolHandlers t now (tool_request t s) cache)) =
     toolHandlers t now (tool_request t s) cache) /\
  (forall now now' cache,
     cache !! tool_cache_key t s = None ->
     stored_ttl t (fst (toolHandlers t now (tool_request t s) cache)) < now' - now ->
     toolHandlers t now' (tool_request t s)
                  (snd (toolHandlers t now (tool_request t s) cache)) =
     toolHandlers t now' (tool_request t s) cache).
Proof.
  intros Hvalid.
  assert (forall now cache e,
            cache !! tool_cache_key t s = Some e ->
            now - timestamp e <= ttl e ->
            truthy (data e) = true ->
            toolHandlers t now (tool_request t s) cache = (data e, cache)) as Hhit.
  { intros now cache e Hk Hlive Htruthy.
    destruct (tool_body_shape t now s Hvalid) as (compute & Hbody & _).
    rewrite toolHandlers_catch. unfold catch_all.
    rewrite Hbody, (cache_get_hit _ _ _ _ e Hk Hlive), Htruthy. reflexivity. }
  assert (forall now cache,
            cache !! tool_cache_key t s = None ->
            exists props,
              toolHandlers t now (tool_request t s) cache =
              (obj props,
               <[tool_cache_key t s := mkEntry (obj props) now (stored_ttl t (obj props))]>
                 cache)) as Hmiss.
  { intros now cache Hk.
    destruct (tool_body_shape t now s Hvalid) as (compute & Hbody & Hcompute).
    destruct (Hcompute cache) as [props Hprops]. exists props.
    rewrite toolHandlers_catch. unfold catch_all.
    rewrite Hbody, cache_get_miss by exact Hk.
    change (truthy VNull) with false. cbv iota. now rewrite Hprops. }
  split; [exact Hhit|split].
  - intros now now' cache Hk Hlive.
    destruct (Hmiss now cache Hk) as [props Hfirst]. rewrite Hfirst in *. simpl fst in *.
    simpl snd.
    apply (Hhit now' _ (mkEntry (obj props) now (stored_ttl t (obj props))));
      [apply lookup_insert_eq|exact Hlive|reflexivity].
  - intros now now' cache Hk Hold.
    destruct (Hmiss now cache Hk) as [props Hfirst]. rewrite Hfirst in *. simpl fst in *.
    simpl snd.
    destruct (tool_body_shape t now' s Hvalid) as (compute & Hbody & _).
    rewrite !toolHandlers_catch. unfold catch_all.
    rewrite !Hbody.
    rewrite (cache_get_expired _ _ _ _ (mkEntry (obj props) now (stored_ttl t (obj props))))
      by (try apply lookup_insert_eq; exact Hold).
    rewrite cache_get_miss by exact Hk.
    rewrite delete_insert_eq, delete_id by exact Hk. reflexivity.
Qed.

Lemma handler_cache_discipline_witness :
  let request := tool_request get_motion_docs "gestures" in
  let first := toolHandlers get_motion_docs 1762127400000 request ∅ in
  toolHandlers get_motion_docs 1762128600000 request (snd first) = first /\
  toolHandlers get_motion_docs 1762130000000 request (snd first) =
    toolHandlers get_motion_docs 1762130000000 request ∅.
Proof.
  cbv zeta.
  destruct (handler_cache_discipline get_motion_docs "gestures" eq_refl) as (_ & Hrepeat & Hlate).
  split.
  - apply Hrepeat; [reflexivity|vm_compute; discriminate].
  - apply Hlate; [reflexivity|vm_compute; reflexivity].
Defined.

(** *** The handlers and the tables: what a lookup finds *)

Lemma assoc_in k props v : assoc k props = Some v -> In k (keys props).
Proof.
  intros H. destruct (in_dec string_dec k (keys props)) as [Hin|Hout]; [exact Hin|].
  rewrite (assoc_not_in _ _ Hout) in H. discriminate.
Qed.

Lemma assoc_none k props : assoc k props = None -> ~ In k (keys props).
Proof.
  induction props as [|[k' v'] rest IH]; simpl; [tauto|].
  destruct (String.eqb_spec k k') as [->|Hne]; [discriminate|].
  intros H [Heq|Hin]; [congruence|]. now apply IH.
Qed.

(** The read [table[s]] is truthy for the own keys of the table and for
    the names every object inherits. *)
Lemma lookup_truthy table s :
  entries_truthy table = true ->
  truthy (get_prop table s) = true <->
  In s (object_keys table) \/ In s object_prototype_functions \/ s = "__proto__".
Proof.
  destruct table as [| | | | | |[q|] props|]; simpl entries_truthy; try discriminate.
  intros Hall. unfold get_prop, object_keys. simpl get_from.
  destruct (assoc s props) as [v|] eqn:Hv.
  - split; [intros _; left; eapply assoc_in; eassumption|intros _].
    exact (assoc_forallb truthy props s v Hall Hv).
  - apply assoc_none in Hv. unfold object_prototype_get.
    destruct (mem_string s object_prototype_functions) eqn:Hmem.
    + split; [intros _|reflexivity]. right; left.
      unfold mem_string in Hmem. apply existsb_exists in Hmem as (c & Hin & Heq).
      apply String.eqb_eq in Heq. now subst.
    + destruct (String.eqb_spec s "__proto__") as [->|Hne].
      * split; [auto|reflexivity].
      * split; [discriminate|]. intros [Hin|[Hin|Heq]]; [tauto| |contradiction].
        exfalso. assert (mem_string s object_prototype_functions = true) as Hm.
        { unfold mem_string. apply existsb_exists. exists s. split; [exact Hin|].
          apply String.eqb_refl. }
        congruence.
Qed.

(** What is read from an entry that the table does not hold itself. *)
Lemma inherited_entry_hollow props s k :
  assoc s props = None ->
  mem_string k object_prototype_functions = false ->
  String.eqb k "__proto__" = false ->
  get_prop (get_prop (VObj None props) s) k = VUndefined.
Proof.
  intros Hs Hk1 Hk2. unfold get_prop at 2. simpl get_from. rewrite Hs.
  unfold object_prototype_get.
  destruct (mem_string s object_prototype_functions).
  - unfold get_prop. simpl. unfold object_prototype_get. now rewrite Hk1, Hk2.
  - destruct (String.eqb s "__proto__"); [|reflexivity].
    reflexivity.
Qed.

Lemma tables_truthy :
  entries_truthy MOTION_COMPONENTS = true /\
  entries_truthy MOTION_COMPONENTS_LIST = true /\
  entries_truthy MOTION_EXAMPLES = true /\
  entries_truthy MOTION_DOCS = true.
Proof. repeat split; vm_compute; reflexivity. Qed.

Lemma valid_category s :
  valid_param list_motion_components s = true -> In s categories_allowed.
Proof.
  unfold valid_param, parse_category. intros H. apply andb_prop in H as [Hne Hcat].
  apply negb_true_iff in Hne. rewrite Hne, orb_false_l in Hcat.
  destruct (mem_string s categories_allowed) eqn:Hmem; [|simpl in Hcat; discriminate].
  unfold mem_string in Hmem. apply existsb_exists in Hmem as (c & Hin & Heq).
  apply String.eqb_eq in Heq. now subst.
Qed.

Ltac enter_miss Hvalid Hmiss :=
  cbv beta iota delta [valid_param tool_cache_key] in Hvalid, Hmiss;
  cbv beta iota delta [toolHandlers tool_request tool_param tool_cache_key];
  unfold handleGetMotionComponent, handleGetMotionExample, handleGetMotionDocs,
    handleSearchMotionExamples, catch_all,
    handleGetMotionComponent_body, handleGetMotionExample_body, handleGetMotionDocs_body,
    handleSearchMotionExamples_body;
  rewrite bind_lift;
  change (read_prop (obj [(?k, VStr ?s)]) ?k) with (@inr exn _ (VStr s));
  cbv iota; rewrite bind_lift, (parse_passes _ _ Hvalid); cbv iota;
  rewrite cache_get_miss by exact Hmiss; change (truthy VNull) with false; cbv iota.

(** X17. What counts as found. A request that passes validation and
    misses the cache is answered without an [error] exactly when the
    parameter is a key of the table of the tool or one of the names every
    object inherits ([constructor], [toString], [__proto__], ...). In the
    second case the answer is hollow: the [description] it gives is
    [undefined]. *)
Theorem handler_lookup_inherited (t : tool) (table : value) (now : Z) (s : string)
    (cache : gmap string CacheEntry) :
  tool_table t = Some table ->
  valid_param t s = true ->
  cache !! tool_cache_key t s = None ->
  (is_error_result (fst (toolHandlers t now (tool_request t s) cache)) = false <->
   In s (object_keys table) \/ In s object_prototype_functions \/ s = "__proto__") /\
  (is_error_result (fst (toolHandlers t now (tool_request t s) cache)) = false ->
   ~ In s (object_keys table) ->
   get_prop (fst (toolHandlers t now (tool_request t s) cache)) "description" = VUndefined).
Proof.
  intros Htable Hvalid Hmiss.
  destruct tables_truthy as (Hc & Hl & He & Hd).
  destruct t; try discriminate; injection Htable as <-.
  - pose proof (lookup_truthy MOTION_COMPONENTS s Hc) as Hfound.
    enter_miss Hvalid Hmiss.
    destruct (truthy (get_prop MOTION_COMPONENTS s)) eqn:Htruthy; cbv iota beta delta [negb].
    + rewrite bind_lift.
      destruct (passes_inr _ (table_category_converts MOTION_COMPONENTS s
                                (proj1 tables_categories_convert))) as [c ->].
      cbv iota. rewrite cache_set_ret by discriminate. simpl fst.
      split.
      * split; [intros _; now apply Hfound|intros _].
        unfold spread_if_in.
        destruct (has_prop _ "props"), (has_prop _ "parameters"), (has_prop _ "returns");
          reflexivity.
      * intros _ Hout. unfold get_prop at 1. simpl get_from.
        apply inherited_entry_hollow; [|reflexivity|reflexivity].
        now apply assoc_not_in.
    + rewrite cache_set_ret by discriminate. simpl fst.
      split; [|discriminate].
      split; [discriminate|]. intros H. apply Hfound in H. discriminate.
  - pose proof (lookup_truthy MOTION_COMPONENTS_LIST s Hl) as Hfound.
    pose proof (valid_category s Hvalid) as Hin.
    cbv beta iota delta [valid_param tool_cache_key] in Hvalid, Hmiss.
    cbv beta iota delta [toolHandlers tool_request tool_param tool_cache_key].
    unfold handleListMotionComponents, catch_all, handleListMotionComponents_body.
    apply andb_prop in Hvalid as [Hne Hcat].
    change (truthy (obj [("category", VStr s)])) with true. cbv iota.
    change (get_prop (obj [("category", VStr s)]) "category") with (VStr s).
    change (truthy (VStr s)) with (negb (String.eqb s "")). rewrite Hne. cbv iota.
    rewrite bind_lift. change (to_string (VStr s)) with (@inr exn _ s). cbv iota.
    rewrite bind_lift. cbv iota.
    rewrite cache_get_miss by exact Hmiss. change (truthy VNull) with false. cbv iota.
    destruct (passes_inr _ Hcat) as [v ->].
    rewrite !bind_bind_lift. cbv iota.
    destruct (truthy (get_prop MOTION_COMPONENTS_LIST s)) eqn:Htruthy;
      cbv iota beta delta [negb];
      rewrite bind_ret, cache_set_ret by discriminate; simpl fst.
    + assert (In s (object_keys MOTION_COMPONENTS_LIST)) as Hkey.
      { destruct (proj1 Hfound eq_refl) as [Hk|[Hk|Hk]]; [exact Hk| |];
          exfalso; clear - Hin Hk;
          repeat (destruct Hin as [<-|Hin]; [vm_compute in Hk; intuition discriminate|]);
          destruct Hin. }
      split; [split; [auto|reflexivity]|]. intros _ Hout. contradiction.
    + split; [|discriminate].
      split; [discriminate|]. intros H. apply Hfound in H. discriminate.
  - pose proof (lookup_truthy MOTION_EXAMPLES s He) as Hfound.
    enter_miss Hvalid Hmiss.
    destruct (truthy (get_prop MOTION_EXAMPLES s)) eqn:Htruthy; cbv iota beta delta [negb].
    + rewrite bind_lift.
      destruct (passes_inr _ (table_category_converts MOTION_EXAMPLES s
                                (proj2 tables_categories_convert))) as [c ->].
      cbv iota. rewrite cache_set_ret by discriminate. simpl fst.
      split.
      * split; [intros _; now apply Hfound|reflexivity].
      * intros _ Hout. unfold get_prop at 1. simpl get_from.
        apply inherited_entry_hollow; [|reflexivity|reflexivity].
        now apply assoc_not_in.
    + rewrite cache_set_ret by discriminate. simpl fst.
      split; [|discriminate].
      split; [discriminate|]. intros H. apply Hfound in H. discriminate.
  - pose proof (lookup_truthy MOTION_DOCS s Hd) as Hfound.
    enter_miss Hvalid Hmiss.
    destruct (truthy (get_prop MOTION_DOCS s)) eqn:Htruthy; cbv iota beta delta [negb];
      rewrite cache_set_ret by discriminate; simpl fst.
    + split.
      * split; [intros _; now apply Hfound|reflexivity].
      * intros _ Hout. unfold get_prop at 1. simpl get_from.
        apply inherited_entry_hollow; [|reflexivity|reflexivity].
        now apply assoc_not_in.
    + split; [|discriminate].
      split; [discriminate|]. intros H. apply Hfound in H. discriminate.
Qed.

Lemma handler_lookup_inherited_witness :
  is_error_result
    (fst (toolHandlers get_motion_component 0
            (tool_request get_motion_component "constructor") ∅)) = false /\
  get_prop
    (fst (toolHandlers get_motion_component 0
            (tool_request get_motion_component "constructor") ∅)) "description" = VUndefined.
Proof.
  destruct (handler_lookup_inherited get_motion_component MOTION_COMPONENTS 0 "constructor" ∅)
    as [Hfound Hhollow]; [reflexivity|reflexivity|reflexivity|].
  assert (is_error_result
            (fst (toolHandlers get_motion_component 0
                    (tool_request get_motion_component "constructor") ∅)) = false) as Hok.
  { apply Hfound. right; left. simpl. tauto. }
  split; [exact Hok|]. apply Hhollow; [exact Hok|].
  vm_compute. intuition discriminate.
Defined.

Lemma filter_incl (p : string -> bool) (l : list string) : incl (List.filter p l) l.
Proof. intros x Hx. apply List.filter_In in Hx. tauto. Qed.

(** X18. What a not-found answer offers. It lists the keys of the table
    under the listing key of the tool. For the three tools that suggest
    names, the suggestions are the keys of the table that contain the
    parameter or are contained in it, letter case aside, in the order of
    the table; when there is none, the three fixed names of the tool
    stand in. Either way the list is not empty and every name in it is a
    key of the table. *)
Theorem handler_not_found_answer (t : tool) (table : value) (now : Z) (s : string)
    (cache : gmap string CacheEntry) :
  tool_table t = Some table ->
  valid_param t s = true ->
  cache !! tool_cache_key t s = None ->
  is_error_result (fst (toolHandlers t now (tool_request t s) cache)) = true ->
  get_prop (fst (toolHandlers t now (tool_request t s) cache)) (tool_listing t) =
    strings (object_keys table) /\
  (t <> list_motion_components ->
   exists suggestions,
     get_prop (fst (toolHandlers t now (tool_request t s) cache)) "suggestions" =
       strings suggestions /\
     suggestions =
       match List.filter (similar_name s) (object_keys table) with
       | [] => default_suggestions t
       | _ :: _ => List.filter (similar_name s) (object_keys table)
       end /\
     length (default_suggestions t) = 3%nat /\
     suggestions <> [] /\
     incl suggestions (object_keys table) /\
     (suggestions = List.filter (similar_name s) (object_keys table) \/
      List.filter (similar_name s) (object_keys table) = [])).
Proof.
  intros Htable Hvalid Hmiss.
  destruct t; try discriminate; injection Htable as <-.
  - enter_miss Hvalid Hmiss.
    destruct (truthy (get_prop MOTION_COMPONENTS s)) eqn:Htruthy; cbv iota beta delta [negb].
    + rewrite bind_lift.
      destruct (passes_inr _ (table_category_converts MOTION_COMPONENTS s
                                (proj1 tables_categories_convert))) as [c ->].
      cbv iota. rewrite cache_set_ret by discriminate. cbn [fst].
      unfold spread_if_in.
      destruct (has_prop _ "props"), (has_prop _ "parameters"), (has_prop _ "returns");
        discriminate.
    + rewrite cache_set_ret by discriminate. cbn [fst]. intros _.
      split; [reflexivity|]. intros _.
      pose proof (filter_incl (similar_name s) (object_keys MOTION_COMPONENTS)) as Hincl.
      eexists. split; [reflexivity|]. split; [reflexivity|]. split; [reflexivity|].
      destruct (List.filter (similar_name s) (object_keys MOTION_COMPONENTS)) as [|x rest];
        cbv iota.
      * split; [discriminate|]. split; [|auto].
        intros k Hk. vm_compute in Hk |- *. tauto.
      * split; [discriminate|]. split; [exact Hincl|auto].
  - cbv beta iota delta [valid_param tool_cache_key] in Hvalid, Hmiss.
    cbv beta iota delta [toolHandlers tool_request tool_param tool_cache_key].
    unfold handleListMotionComponents, catch_all, handleListMotionComponents_body.
    apply andb_prop in Hvalid as [Hne Hcat].
    change (truthy (obj [("category", VStr s)])) with true. cbv iota.
    change (get_prop (obj [("category", VStr s)]) "category") with (VStr s).
    change (truthy (VStr s)) with (negb (String.eqb s "")). rewrite Hne. cbv iota.
    rewrite bind_lift. change (to_string (VStr s)) with (@inr exn _ s). cbv iota.
    rewrite bind_lift. cbv iota.
    rewrite cache_get_miss by exact Hmiss. change (truthy VNull) with false. cbv iota.
    destruct (passes_inr _ Hcat) as [v ->].
    rewrite !bind_bind_lift. cbv iota.
    destruct (truthy (get_prop MOTION_COMPONENTS_LIST s)) eqn:Htruthy;
      cbv iota beta delta [negb];
      rewrite bind_ret, cache_set_ret by discriminate; cbn [fst]; [discriminate|].
    intros _. split; [reflexivity|]. intros H. now contradiction H.
  - enter_miss Hvalid Hmiss.
    destruct (truthy (get_prop MOTION_EXAMPLES s)) eqn:Htruthy; cbv iota beta delta [negb].
    + rewrite bind_lift.
      destruct (passes_inr _ (table_category_converts MOTION_EXAMPLES s
                                (proj2 tables_categories_convert))) as [c ->].
      cbv iota. rewrite cache_set_ret by discriminate. cbn [fst]. discriminate.
    + rewrite cache_set_ret by discriminate. cbn [fst]. intros _.
      split; [reflexivity|]. intros _.
      pose proof (filter_incl (similar_name s) (object_keys MOTION_EXAMPLES)) as Hincl.
      eexists. split; [reflexivity|]. split; [reflexivity|]. split; [reflexivity|].
      destruct (List.filter (similar_name s) (object_keys MOTION_EXAMPLES)) as [|x rest];
        cbv iota.
      * split; [discriminate|]. split; [|auto].
        intros k Hk. vm_compute in Hk |- *. tauto.
      * split; [discriminate|]. split; [exact Hincl|auto].
  - enter_miss Hvalid Hmiss.
    destruct (truthy (get_prop MOTION_DOCS s)) eqn:Htruthy; cbv iota beta delta [negb];
      rewrite cache_set_ret by discriminate; cbn [fst]; [discriminate|].
    intros _. split; [reflexivity|]. intros _.
    pose proof (filter_incl (similar_name s) (object_keys MOTION_DOCS)) as Hincl.
    eexists. split; [reflexivity|]. split; [reflexivity|]. split; [reflexivity|].
    destruct (List.filter (similar_name s) (object_keys MOTION_DOCS)) as [|x rest];
      cbv iota.
    + split; [discriminate|]. split; [|auto].
      intros k Hk. vm_compute in Hk |- *. tauto.
    + split; [discriminate|]. split; [exact Hincl|auto].
Qed.

Lemma handler_not_found_answer_witness :
  get_prop (fst (toolHandlers get_motion_docs 0 (tool_request get_motion_docs "zzz") ∅))
           "availableTopics" = strings (object_keys MOTION_DOCS) /\
  get_prop (fst (toolHandlers get_motion_docs 0 (tool_request get_motion_docs "zzz") ∅))
           "suggestions" = strings ["getting-started"; "animation-controls"; "gestures"].
Proof.
  destruct (handler_not_found_answer get_motion_docs MOTION_DOCS 0 "zzz" ∅)
    as [Hlisting Hsuggest]; [reflexivity|reflexivity|reflexivity|reflexivity|].
  split; [exact Hlisting|].
  destruct (Hsuggest ltac:(discriminate)) as (suggestions & -> & -> & _).
  reflexivity.
Defined.

(** *** The search: ranking, and the blank term *)

Lemma insert_by_score_perm x l : insert_by_score x l ≡ₚ x :: l.
Proof.
  induction l as [|y rest IH]; simpl; [reflexivity|].
  destruct (Z.ltb (fst y) (fst x)); [reflexivity|].
  rewrite IH. apply Permutation_swap.
Qed.

Lemma insert_by_score_sorted x l :
  StronglySorted (fun a b => fst b <= fst a) l ->
  StronglySorted (fun a b => fst b <= fst a) (insert_by_score x l).
Proof.
  induction 1 as [|y rest Hsorted IH Hall]; simpl.
  - constructor; constructor.
  - destruct (Z.ltb_spec (fst y) (fst x)) as [Hlt|Hge].
    + constructor; [constructor; assumption|].
      constructor; [lia|]. eapply List.Forall_impl; [|exact Hall].
      simpl. intros b Hb. lia.
    + constructor; [exact IH|].
      rewrite insert_by_score_perm. constructor; assumption.
Qed.

Lemma filter_none {A : Type} (p : A -> bool) (l : list A) :
  List.Forall (fun a => p a = false) l -> List.filter p l = [].
Proof.
  induction 1 as [|a rest Ha _ IH]; simpl; [reflexivity|]. now rewrite Ha.
Qed.

Lemma filter_all {A : Type} (p : A -> bool) (l : list A) :
  (forall a, p a = true) -> List.filter p l = l.
Proof.
  intros Hall. induction l as [|a rest IH]; simpl; [reflexivity|].
  now rewrite Hall, IH.
Qed.

(** An insertion comes after the pairs of the same score. *)
Lemma insert_by_score_stable z x l :
  StronglySorted (fun a b => fst b <= fst a) l ->
  List.filter (fun p => Z.eqb (fst p) z) (insert_by_score x l) =
  List.filter (fun p => Z.eqb (fst p) z) l ++ List.filter (fun p => Z.eqb (fst p) z) [x].
Proof.
  induction 1 as [|y rest Hsorted IH Hall]; [reflexivity|].
  cbn [insert_by_score].
  destruct (Z.ltb_spec (fst y) (fst x)) as [Hlt|Hge].
  - cbn [List.filter]. destruct (Z.eqb_spec (fst x) z) as [Hz|Hz].
    + assert (List.filter (fun p => Z.eqb (fst p) z) rest = []) as ->.
      { apply filter_none. eapply List.Forall_impl; [|exact Hall].
        simpl. intros b Hb. apply Z.eqb_neq. lia. }
      destruct (Z.eqb_spec (fst y) z); [lia|reflexivity].
    + now rewrite app_nil_r.
  - cbn [List.filter] in *. rewrite IH.
    destruct (Z.eqb (fst y) z); reflexivity.
Qed.

Lemma sort_from_spec (l acc : list (Z * value)) :
  StronglySorted (fun a b => fst b <= fst a) acc ->
  fold_left (fun sorted x => insert_by_score x sorted) l acc ≡ₚ acc ++ l /\
  StronglySorted (fun a b => fst b <= fst a)
                 (fold_left (fun sorted x => insert_by_score x sorted) l acc) /\
  forall z,
    List.filter (fun p => Z.eqb (fst p) z)
                (fold_left (fun sorted x => insert_by_score x sorted) l acc) =
    List.filter (fun p => Z.eqb (fst p) z) acc ++ List.filter (fun p => Z.eqb (fst p) z) l.
Proof.
  revert acc. induction l as [|x rest IH]; intros acc Hacc; simpl fold_left.
  - rewrite app_nil_r. split; [reflexivity|]. split; [exact Hacc|].
    intros z. now rewrite app_nil_r.
  - destruct (IH (insert_by_score x acc) (insert_by_score_sorted x acc Hacc))
      as (Hperm & Hsorted & Hstable).
    split; [|split; [exact Hsorted|]].
    + rewrite Hperm, insert_by_score_perm. simpl. apply Permutation_middle.
    + intros z. rewrite Hstable, insert_by_score_stable by exact Hacc.
      rewrite <- app_assoc. f_equal. cbn [List.filter].
      destruct (Z.eqb (fst x) z); reflexivity.
Qed.

Lemma sort_by_score_spec (l : list (Z * value)) :
  sort_by_score l ≡ₚ l /\
  StronglySorted (fun a b => fst b <= fst a) (sort_by_score l) /\
  forall z,
    List.filter (fun p => Z.eqb (fst p) z) (sort_by_score l) =
    List.filter (fun p => Z.eqb (fst p) z) l.
Proof.
  unfold sort_by_score. apply (sort_from_spec l []). constructor.
Qed.

Lemma scored_map_snd (score : value -> Z) (l : list (Z * value)) :
  List.Forall (fun p => fst p = score (snd p)) l ->
  (StronglySorted (fun a b => fst b <= fst a) l ->
   StronglySorted (fun a b => score b <= score a) (map snd l)) /\
  forall z,
    List.filter (fun e => Z.eqb (score e) z) (map snd l) =
    map snd (List.filter (fun p => Z.eqb (fst p) z) l).
Proof.
  induction 1 as [|p rest Hp Hrest [IHsorted IHfilter]]; simpl.
  - split; [constructor|reflexivity].
  - split.
    + intros Hsorted. apply StronglySorted_inv in Hsorted as [Hs Hall].
      constructor; [auto|]. apply List.Forall_map.
      rewrite List.Forall_forall in *. intros q Hq.
      rewrite <- Hp, <- (Hrest q Hq). auto.
    + intros z. rewrite IHfilter, Hp. now destruct (Z.eqb (score (snd p)) z).
Qed.

Lemma search_results_spec (query : string) :
  search_results query ≡ₚ
    List.filter (example_matches (search_terms query)) (array_items SEARCHABLE_EXAMPLES) /\
  StronglySorted
    (fun a b => relevance (search_terms query) b <= relevance (search_terms query) a)
    (search_results query) /\
  forall z,
    List.filter (fun e => Z.eqb (relevance (search_terms query) e) z) (search_results query) =
    List.filter (fun e => Z.eqb (relevance (search_terms query) e) z)
      (List.filter (example_matches (search_terms query)) (array_items SEARCHABLE_EXAMPLES)).
Proof.
  unfold search_results.
  set (terms := search_terms query).
  set (found := List.filter (example_matches terms) (array_items SEARCHABLE_EXAMPLES)).
  set (scored := map (fun example => (relevance terms example, example)) found).
  destruct (sort_by_score_spec scored) as (Hperm & Hsorted & Hstable).
  assert (map snd scored = found) as Hfound.
  { unfold scored. rewrite map_map. simpl. apply map_id. }
  assert (List.Forall (fun p => fst p = relevance terms (snd p)) scored) as Hscored.
  { unfold scored. apply List.Forall_map. apply List.Forall_forall. reflexivity. }
  assert (List.Forall (fun p => fst p = relevance terms (snd p)) (sort_by_score scored))
    as Hscored'.
  { rewrite List.Forall_forall in *. intros p Hp. apply Hscored.
    eapply Permutation_in; [exact Hperm|exact Hp]. }
  destruct (scored_map_snd (relevance terms) _ Hscored') as [Hs Hf].
  destruct (scored_map_snd (relevance terms) _ Hscored) as [_ Hf0].
  split; [|split].
  - rewrite <- Hfound. now apply Permutation_map.
  - now apply Hs.
  - intros z. rewrite Hf, Hstable, <- Hf0, Hfound. reflexivity.
Qed.

(** X19. The ranking of a search. The results are the examples of the
    table that match the query, each once; their relevance never rises
    along the list; and examples of equal relevance keep the order of the
    table. *)
Theorem search_results_ranked (query : string) (z : Z) :
  search_results query ≡ₚ
    List.filter (example_matches (search_terms query)) (array_items SEARCHABLE_EXAMPLES) /\
  StronglySorted
    (fun a b => relevance (search_terms query) b <= relevance (search_terms query) a)
    (search_results query) /\
  List.filter (fun e => Z.eqb (relevance (search_terms query) e) z) (search_results query) =
  List.filter (fun e => Z.eqb (relevance (search_terms query) e) z)
    (List.filter (example_matches (search_terms query)) (array_items SEARCHABLE_EXAMPLES)).
Proof.
  destruct (search_results_spec query) as (Hperm & Hsorted & Hstable). auto.
Qed.

Lemma is_space_lower c : is_space c = true -> lower_char c = c.
Proof.
  destruct c as [[] [] [] [] [] [] [] []]; try discriminate; reflexivity.
Qed.

Lemma includes_empty s : includes s "" = true.
Proof. destruct s; reflexivity. Qed.

Lemma last_char_lower s :
  last_char (toLowerCase s) = option_map lower_char (last_char s).
Proof.
  induction s as [|c rest IH]; [reflexivity|].
  destruct rest as [|c' rest']; [reflexivity|].
  change (last_char (toLowerCase (String c (String c' rest'))))
    with (last_char (toLowerCase (String c' rest'))).
  rewrite IH. reflexivity.
Qed.

(** A run of white space at the end of the text leaves an empty piece. *)
Lemma split_spaces_trailing s : forall in_run piece c,
  last_char s = Some c -> is_space c = true ->
  (in_run = true -> piece = EmptyString) ->
  In EmptyString (split_spaces in_run piece s).
Proof.
  induction s as [|a rest IH]; intros in_run piece c Hlast Hc Hrun; [discriminate|].
  destruct rest as [|b rest'].
  - injection Hlast as <-. simpl. rewrite Hc.
    destruct in_run; simpl; [left; auto|right; left; reflexivity].
  - change (last_char (String a (String b rest'))) with (last_char (String b rest')) in Hlast.
    cbn [split_spaces]. destruct (is_space a).
    + destruct in_run.
      * apply (IH true piece c Hlast Hc). auto.
      * right. apply (IH true EmptyString c Hlast Hc). auto.
    + apply (IH false _ c Hlast Hc). discriminate.
Qed.

Lemma blank_term s :
  (exists c rest, s = String c rest /\ is_space c = true) \/
  (exists c, last_char s = Some c /\ is_space c = true) ->
  In EmptyString (search_terms s).
Proof.
  unfold search_terms. intros [(c & rest & -> & Hc)|(c & Hlast & Hc)].
  - cbn [toLowerCase split_spaces]. rewrite (is_space_lower c Hc), Hc. now left.
  - apply (split_spaces_trailing _ false EmptyString c); [|exact Hc|discriminate].
    rewrite last_char_lower, Hlast. simpl. now rewrite (is_space_lower c Hc).
Qed.

Lemma blank_term_matches terms example :
  In EmptyString terms -> example_matches terms example = true.
Proof.
  intros Hin. unfold example_matches. apply existsb_exists.
  exists EmptyString. split; [exact Hin|apply includes_empty].
Qed.

(** X20. The blank term. A query that begins or ends with white space
    splits into terms of which one is empty; the empty term occurs in
    every text, so every example of the table matches. The answer to such
    a query, when it misses the cache, holds all the examples and no
    suggestions. *)
Theorem search_blank_term (now : Z) (s : string) (cache : gmap string CacheEntry) :
  valid_param search_motion_examples s = true ->
  cache !! tool_cache_key search_motion_examples s = None ->
  (exists c rest, s = String c rest /\ is_space c = true) \/
  (exists c, last_char s = Some c /\ is_space c = true) ->
  In EmptyString (search_terms s) /\
  search_results s ≡ₚ array_items SEARCHABLE_EXAMPLES /\
  get_prop (fst (toolHandlers search_motion_examples now
                   (tool_request search_motion_examples s) cache)) "results" =
    VArr (search_results s) /\
  get_prop (fst (toolHandlers search_motion_examples now
                   (tool_request search_motion_examples s) cache)) "totalResults" =
    VNum (Z.of_nat (length (array_items SEARCHABLE_EXAMPLES))) /\
  get_prop (fst (toolHandlers search_motion_examples now
                   (tool_request search_motion_examples s) cache)) "suggestions" =
    VUndefined.
Proof.
  intros Hvalid Hmiss Hblank.
  pose proof (blank_term s Hblank) as Hterm.
  assert (search_results s ≡ₚ array_items SEARCHABLE_EXAMPLES) as Hall.
  { destruct (search_results_spec s) as (Hperm & _ & _). rewrite Hperm.
    rewrite filter_all; [reflexivity|]. intros e. now apply blank_term_matches. }
  split; [exact Hterm|]. split; [exact Hall|].
  enter_miss Hvalid Hmiss. rewrite cache_set_ret by discriminate. cbn [fst].
  split; [reflexivity|]. split.
  - change (VNum (Z.of_nat (length (search_results s))) =
            VNum (Z.of_nat (length (array_items SEARCHABLE_EXAMPLES)))).
    now rewrite (Permutation_length Hall).
  - destruct (search_results s) as [|e rest] eqn:Hresults; [|reflexivity].
    apply Permutation_length in Hall. discriminate Hall.
Qed.

Lemma search_blank_term_witness :
  get_prop (fst (toolHandlers search_motion_examples 0
                   (tool_request search_motion_examples "zzz ") ∅)) "totalResults" =
    VNum 10.
Proof.
  refine (proj1 (proj2 (proj2 (proj2
           (search_blank_term 0 "zzz " ∅ _ _ _))))); [reflexivity|reflexivity|].
  right. exists " "%char. split; reflexivity.
Defined.

(** *** get_motion_component: the related components *)

Lemma In_take {A : Type} (n : nat) (l : list A) (x : A) : In x (take n l) -> In x l.
Proof.
  revert n. induction l as [|a rest IH]; intros [|n]; simpl; try tauto.
  intros [->|Hin]; [now left|right; eauto].
Qed.

(** X21. The related components of an answer of get_motion_component:
    at most five names, each a key of the table other than the component
    asked for, whose category in the table is strictly equal to the
    category of the component; they are the first such keys in the order
    of the table. For a name that the table only inherits there are
    none. *)
Theorem related_components (now : Z) (s : string) (cache : gmap string CacheEntry) :
  valid_param get_motion_component s = true ->
  cache !! tool_cache_key get_motion_component s = None ->
  is_error_result (fst (toolHandlers get_motion_component now
                          (tool_request get_motion_component s) cache)) = false ->
  exists related,
    get_prop (fst (toolHandlers get_motion_component now
                     (tool_request get_motion_component s) cache)) "relatedComponents" =
      strings related /\
    (length related <= 5)%nat /\
    ~ In s related /\
    (forall name, In name related ->
       In name (object_keys MOTION_COMPONENTS) /\
       strict_eq (get_prop (get_prop MOTION_COMPONENTS name) "category")
                 (get_prop (get_prop MOTION_COMPONENTS s) "category") = true) /\
    (~ In s (object_keys MOTION_COMPONENTS) -> related = []) /\
    related =
      take 5 (List.filter
                (fun name =>
                   strict_eq (get_prop (get_prop MOTION_COMPONENTS name) "category")
                             (get_prop (get_prop MOTION_COMPONENTS s) "category")
                   && negb (String.eqb name s))
                (object_keys MOTION_COMPONENTS)).
Proof.
  intros Hvalid Hmiss.
  enter_miss Hvalid Hmiss.
  destruct (truthy (get_prop MOTION_COMPONENTS s)) eqn:Htruthy; cbv iota beta delta [negb].
  2:{ rewrite cache_set_ret by discriminate. cbn [fst]. discriminate. }
  rewrite bind_lift.
  destruct (passes_inr _ (table_category_converts MOTION_COMPONENTS s
                            (proj1 tables_categories_convert))) as [c ->].
  cbv iota. rewrite cache_set_ret by discriminate. cbn [fst]. intros _.
  eexists. split; [|split; [|split; [|split; [|split]]]].
  6: reflexivity.
  - unfold spread_if_in.
    destruct (has_prop _ "props"), (has_prop _ "parameters"), (has_prop _ "returns");
      reflexivity.
  - rewrite length_take. lia.
  - intros Hin. apply In_take, List.filter_In in Hin as [_ Hin].
    apply andb_prop in Hin as [_ Hin]. now rewrite String.eqb_refl in Hin.
  - intros name Hin. apply In_take, List.filter_In in Hin as [Hkey Hin].
    apply andb_prop in Hin as [Hcat _]. split; assumption.
  - intros Hout.
    assert (get_prop (get_prop MOTION_COMPONENTS s) "category" = VUndefined) as ->.
    { apply inherited_entry_hollow; [|reflexivity|reflexivity]. now apply assoc_not_in. }
    vm_compute. reflexivity.
Qed.

Lemma related_components_witness :
  exists related,
    get_prop (fst (toolHandlers get_motion_component 0
                     (tool_request get_motion_component "animate") ∅)) "relatedComponents" =
      strings related /\
    ~ In "animate" related.
Proof.
  destruct (related_components 0 "animate" ∅) as (related & Hrelated & _ & Hself & _);
    [reflexivity|reflexivity|reflexivity|].
  exists related. split; assumption.
Defined.

(** *** Resource templates *)

Lemma prefix_split p s :
  String.prefix p s = true <-> exists rest, s = p +:+ rest.
Proof.
  revert s. induction p as [|c p IH]; intros s.
  - split; [intros _; now exists s|intros _; destruct s; reflexivity].
  - destruct s as [|d s]; simpl; [split; [discriminate|intros [rest [=]]]|].
    destruct (Ascii.ascii_dec c d) as [->|Hne].
    + rewrite IH. split; intros [rest H]; exists rest; [now rewrite H|now injection H].
    + split; [discriminate|]. intros [rest [= H _]]. congruence.
Qed.

Lemma drop_chars_app p rest : drop_chars (String.length p) (p +:+ rest) = rest.
Proof. induction p as [|c p IH]; [reflexivity|exact IH]. Qed.

Lemma replace_unfold pattern replacement s :
  replace pattern replacement s =
  if String.prefix pattern s
  then replacement +:+ drop_chars (String.length pattern) s
  else match s with
       | EmptyString => EmptyString
       | String c rest => String c (replace pattern replacement rest)
       end.
Proof. destruct s; reflexivity. Qed.

Lemma replace_prefix p rest : replace p EmptyString (p +:+ rest) = rest.
Proof.
  rewrite replace_unfold.
  assert (String.prefix p (p +:+ rest) = true) as -> by (apply prefix_split; now exists rest).
  apply drop_chars_app.
Qed.

(** X22. A resource uri is answered by a template exactly when it
    begins with one of the three prefixes, and the name the template is
    filled with is the rest of the uri as it stands: it may be empty, and
    it is not validated. Any other uri is answered by [null]. *)
Theorem resource_template_name (uri : string) (r : ResourceContent) :
  getResourceTemplate uri = Some r <->
  (exists name, uri = "motion://component/" +:+ name /\ r = component_template name) \/
  (exists name, uri = "motion://example/" +:+ name /\ r = example_template name) \/
  (exists name, uri = "motion://docs/" +:+ name /\ r = docs_template name).
Proof.
  unfold getResourceTemplate, startsWith. split.
  - destruct (String.prefix "motion://component/" uri) eqn:Hc.
    { apply prefix_split in Hc as [name ->]. rewrite replace_prefix.
      intros [= <-]. left. now exists name. }
    destruct (String.prefix "motion://example/" uri) eqn:He.
    { apply prefix_split in He as [name ->]. rewrite replace_prefix.
      intros [= <-]. right; left. now exists name. }
    destruct (String.prefix "motion://docs/" uri) eqn:Hd; [|discriminate].
    apply prefix_split in Hd as [name ->]. rewrite replace_prefix.
    intros [= <-]. right; right. now exists name.
  - intros [(name & -> & ->)|[(name & -> & ->)|(name & -> & ->)]].
    + assert (String.prefix "motion://component/" ("motion://component/" +:+ name) = true)
        as -> by (apply prefix_split; now exists name).
      now rewrite replace_prefix.
    + change (String.prefix "motion://component/" ("motion://example/" +:+ name)) with false.
      assert (String.prefix "motion://example/" ("motion://example/" +:+ name) = true)
        as -> by (apply prefix_split; now exists name).
      now rewrite replace_prefix.
    + change (String.prefix "motion://component/" ("motion://docs/" +:+ name)) with false.
      change (String.prefix "motion://example/" ("motion://docs/" +:+ name)) with false.
      assert (String.prefix "motion://docs/" ("motion://docs/" +:+ name) = true)
        as -> by (apply prefix_split; now exists name).
      now rewrite replace_prefix.
Qed.

(** *** The start of the server: which key is used *)

Lemma mem_string_In k l : mem_string k l = true <-> In k l.
Proof.
  unfold mem_string. rewrite existsb_exists. split.
  - intros (x & Hin & Heq). apply String.eqb_eq in Heq. now subst.
  - intros Hin. exists k. split; [exact Hin|apply String.eqb_refl].
Qed.

Lemma findIndex_none (p : string -> bool) l :
  List.Forall (fun a => p a = false) l -> findIndex p l = None.
Proof.
  induction 1 as [|a rest Ha _ IH]; simpl; [reflexivity|]. now rewrite Ha, IH.
Qed.

Lemma findIndex_first (p : string -> bool) pre x rest :
  List.Forall (fun a => p a = false) pre -> p x = true ->
  findIndex p (pre ++ x :: rest) = Some (length pre) /\
  (pre ++ x :: rest) !! S (length pre) = rest !! O.
Proof.
  intros Hpre Hx. induction Hpre as [|a pre' Ha _ [IH1 IH2]]; simpl.
  - now rewrite Hx.
  - rewrite Ha, IH1. split; [reflexivity|exact IH2].
Qed.

Lemma parseArgs_key args env :
  mem_string "--help" args || mem_string "-h" args = false ->
  mem_string "--version" args || mem_string "-v" args = false ->
  parseArgs args env =
  match findIndex is_key_flag args with
  | Some i =>
      match args !! S i with
      | Some token =>
          if negb (String.eqb token "") then Parsed (Some token)
          else Parsed (match env with
                       | Some e => if negb (String.eqb e "") then Some e else None
                       | None => None
                       end)
      | None => Parsed (match env with
                        | Some e => if negb (String.eqb e "") then Some e else None
                        | None => None
                        end)
      end
  | None => Parsed (match env with
                    | Some e => if negb (String.eqb e "") then Some e else None
                    | None => None
                    end)
  end.
Proof. intros Hh Hv. unfold parseArgs. now rewrite Hh, Hv. Qed.

(** X23. Which key the server starts with. A help flag anywhere among
    the arguments ends the process before anything else, a version flag
    does so when there is no help flag. Otherwise the key is the argument
    after the first key flag, if there is one and it is not empty, taken
    as it stands; failing that it is the variable of the environment, if
    set and not empty; failing that there is none. The key is never the
    empty string, and the wrapper sends it as [token <key>]. *)
Theorem startup_github_key (args : list string) (env : option string) :
  (parseArgs args env = ExitHelp <-> In "--help" args \/ In "-h" args) /\
  (parseArgs args env = ExitVersion <->
   ~ (In "--help" args \/ In "-h" args) /\ (In "--version" args \/ In "-v" args)) /\
  (forall pre flag token rest,
     ~ (In "--help" args \/ In "-h" args \/ In "--version" args \/ In "-v" args) ->
     args = pre ++ flag :: token :: rest ->
     List.Forall (fun a => is_key_flag a = false) pre ->
     is_key_flag flag = true ->
     token <> "" ->
     parseArgs args env = Parsed (Some token)) /\
  (~ (In "--help" args \/ In "-h" args \/ In "--version" args \/ In "-v" args) ->
   List.Forall (fun a => is_key_flag a = false) args \/
   (exists pre flag rest,
      List.Forall (fun a => is_key_flag a = false) pre /\ is_key_flag flag = true /\
      (rest = [] \/ exists rest', rest = "" :: rest') /\
      args = pre ++ flag :: rest) ->
   parseArgs args env =
     Parsed (match env with
             | Some e => if negb (String.eqb e "") then Some e else None
             | None => None
             end)) /\
  (forall w, main_configure args env = Some w ->
     match getGitHubApiKey w with
     | Some key =>
         key <> "" /\ parseArgs args env = Parsed (Some key) /\
         authorization w = Some ("token " +:+ key)
     | None => parseArgs args env = Parsed None /\ authorization w = None
     end).
Proof.
  assert (forall a b, mem_string a args || mem_string b args = false <->
                      ~ (In a args \/ In b args)) as Hflags.
  { intros a b. rewrite orb_false_iff, <- !mem_string_In.
    destruct (mem_string a args), (mem_string b args); intuition congruence. }
  assert (~ (In "--help" args \/ In "-h" args \/ In "--version" args \/ In "-v" args) ->
          mem_string "--help" args || mem_string "-h" args = false /\
          mem_string "--version" args || mem_string "-v" args = false) as Hrun.
  { intros Hno. split; apply Hflags; tauto. }
  assert (forall k, parseArgs args env = Parsed (Some k) -> k <> "") as Hnonempty.
  { intros k. unfold parseArgs.
    destruct (_ || _); [discriminate|]. destruct (_ || _); [discriminate|].
    assert (forall o, Parsed (match env with
                              | Some e => if negb (String.eqb e "") then Some e else None
                              | None => None
                              end) = Parsed (Some o) -> o <> "") as Henv.
    { destruct env as [e|]; [|discriminate].
      destruct (String.eqb_spec e ""); [discriminate|]. intros o [= <-]. assumption. }
    cbv zeta.
    destruct (findIndex is_key_flag args) as [i|]; [|apply Henv].
    destruct (args !! S i) as [token|]; [|apply Henv].
    destruct (String.eqb_spec token ""); [apply Henv|]. intros [= <-]. assumption. }
  split; [|split; [|split; [|split]]].
  - unfold parseArgs. destruct (mem_string "--help" args || mem_string "-h" args) eqn:Hh.
    + apply orb_true_iff in Hh. rewrite !mem_string_In in Hh. tauto.
    + apply Hflags in Hh. split; [|tauto].
      destruct (_ || _); [discriminate|]. cbv zeta.
      destruct (findIndex _ _); [destruct (_ !! _); [destruct (negb _)|]|]; discriminate.
  - unfold parseArgs. destruct (mem_string "--help" args || mem_string "-h" args) eqn:Hh.
    + apply orb_true_iff in Hh. rewrite !mem_string_In in Hh.
      split; [discriminate|tauto].
    + apply Hflags in Hh.
      destruct (mem_string "--version" args || mem_string "-v" args) eqn:Hv.
      * apply orb_true_iff in Hv. rewrite !mem_string_In in Hv. tauto.
      * apply Hflags in Hv. split; [|tauto]. cbv zeta.
        destruct (findIndex _ _); [destruct (_ !! _); [destruct (negb _)|]|]; discriminate.
  - intros pre flag token rest Hno -> Hpre Hflag Htoken.
    destruct (Hrun Hno) as [Hh Hv]. rewrite (parseArgs_key _ _ Hh Hv).
    destruct (findIndex_first is_key_flag pre flag (token :: rest) Hpre Hflag) as [-> ->].
    simpl. destruct (String.eqb_spec token ""); [contradiction|reflexivity].
  - intros Hno Hshape. destruct (Hrun Hno) as [Hh Hv]. rewrite (parseArgs_key _ _ Hh Hv).
    destruct Hshape as [Hnone|(pre & flag & rest & Hpre & Hflag & Hrest & ->)].
    + now rewrite (findIndex_none _ _ Hnone).
    + destruct (findIndex_first is_key_flag pre flag rest Hpre Hflag) as [-> ->].
      destruct Hrest as [->|[rest' ->]]; reflexivity.
  - intros w. unfold main_configure.
    destruct (parseArgs args env) as [| |[key|]] eqn:Hparsed; try discriminate.
    + pose proof (Hnonempty key eq_refl) as Hkey.
      destruct (String.eqb_spec key ""); [contradiction|].
      intros [= <-]. simpl. auto.
    + intros [= <-]. simpl. auto.
Qed.

(** *** The handlers and the cache: one key per call *)

Lemma leaves_ret {A : Type} k (a : A) : leaves k (ret a).
Proof. intros cache. reflexivity. Qed.

Lemma leaves_lift {A B : Type} k (r : exn + A) (f : A -> M B) :
  (forall a, leaves k (f a)) -> leaves k (bind (lift r) f).
Proof. intros H cache. unfold bind, lift. destruct r as [e|a]; [reflexivity|apply H]. Qed.

Lemma leaves_get k now key (f : value -> M value) :
  key <> k -> (forall v, leaves k (f v)) -> leaves k (bind (cache_get now key) f).
Proof.
  intros Hne H cache. rewrite bind_get, H. now apply get_other_keys.
Qed.

Lemma leaves_set k now key r ttl :
  key <> k -> leaves k (cache_set now key r ttl ;;; ret r).
Proof.
  intros Hne cache. unfold bind, cache_set, ret, Cache.set. simpl.
  now apply lookup_insert_ne.
Qed.

Lemma leaves_if {A : Type} k (b : bool) (m1 m2 : M A) :
  leaves k m1 -> leaves k m2 -> leaves k (if b then m1 else m2).
Proof. now destruct b. Qed.

Lemma leaves_cache_free {A B : Type} k (m : M A) (f : A -> M B) :
  cache_free m -> (forall a, leaves k (f a)) -> leaves k (bind m f).
Proof.
  intros Hm H cache. unfold bind. specialize (Hm cache).
  destruct (m cache) as [[e|a] cache1]; simpl in Hm; subst cache1; [reflexivity|]. apply H.
Qed.

Ltac leaves_step :=
  first
    [ apply leaves_ret
    | apply leaves_lift; intros
    | apply leaves_get; [congruence | intros]
    | apply leaves_set; congruence
    | apply leaves_if
    | apply leaves_cache_free; [repeat cache_free_step | intros] ].

(** Up to the lookup in the cache a body only reads and validates. *)
Lemma one_key_lift {A B : Type} (r : exn + A) (f : A -> M B) :
  (forall a, exists key, forall k', k' <> key -> leaves k' (f a)) ->
  exists key, forall k', k' <> key -> leaves k' (bind (lift r) f).
Proof.
  intros H. destruct r as [e|a].
  - exists EmptyString. intros k' _ cache. reflexivity.
  - destruct (H a) as [key Hkey]. exists key. intros k' Hne cache.
    rewrite bind_lift. now apply Hkey.
Qed.

Ltac one_key :=
  repeat (apply one_key_lift; intros);
  match goal with
  | |- context [cache_get _ ?key] => exists key; intros k' Hne; repeat leaves_step
  end.

(** X24. A call works on one key of the cache. Whatever the parameters,
    every entry but the one under the key of the request is after the
    call what it was before: a handler does not sweep, an expired entry
    under another key is left to the periodic [cleanup] or to the next
    request for its own key. For a request that passes validation the
    key is the cache key of the request. *)
Theorem handler_touches_one_key (t : tool) (now : Z) (params : value) :
  (exists key, forall k' cache,
     k' <> key ->
     snd (toolHandlers t now params cache) !! k' = cache !! k') /\
  (forall s k' cache,
     valid_param t s = true ->
     k' <> tool_cache_key t s ->
     snd (toolHandlers t now (tool_request t s) cache) !! k' = cache !! k').
Proof.
  split.
  - assert (exists key, forall k', k' <> key -> leaves k' (tool_body t now params)) as [key Hkey].
    { destruct t; cbv beta iota delta [tool_body];
        unfold handleGetMotionComponent_body, handleListMotionComponents_body,
               handleGetMotionExample_body, handleSearchMotionExamples_body,
               handleGetMotionDocs_body.
      all: cbv zeta; one_key. }
    exists key. intros k' cache Hne.
    rewrite (proj1 (catch_all_outcome t now params cache)). now apply Hkey.
  - intros s k' cache Hvalid Hne.
    rewrite (proj1 (catch_all_outcome t now (tool_request t s) cache)).
    destruct (tool_body_shape t now s Hvalid) as (compute & Hbody & Hcompute).
    rewrite Hbody, bind_get.
    destruct (truthy (fst (Cache.get cache now (tool_cache_key t s)))).
    + simpl. apply get_other_keys. congruence.
    + destruct (Hcompute (snd (Cache.get cache now (tool_cache_key t s)))) as [props ->].
      simpl. rewrite lookup_insert_ne by congruence. apply get_other_keys. congruence.
Qed.

(** *** The periodic sweep and the handlers *)

Lemma same_live_sym now c1 c2 : same_live now c1 c2 -> same_live now c2 c1.
Proof. intros H k e He. symmetry. now apply H. Qed.

Lemma same_live_trans now c1 c2 c3 :
  same_live now c1 c2 -> same_live now c2 c3 -> same_live now c1 c3.
Proof. intros H12 H23 k e He. rewrite (H12 k e He). now apply H23. Qed.

Lemma same_live_cleanup now swept cache :
  swept <= now -> same_live now (Cache.cleanup cache swept) cache.
Proof.
  intros Hle k e He. unfold Cache.cleanup. rewrite map_lookup_filter_Some. simpl.
  rewrite isExpired_live. split; [tauto|]. intros Hk. split; [exact Hk|lia].
Qed.

Lemma same_live_get_self now cache k :
  same_live now (snd (Cache.get cache now k)) cache.
Proof.
  intros k' e He. unfold Cache.get. destruct (cache !! k) as [entry|] eqn:Hk; [|tauto].
  destruct (Cache.isExpired now entry) eqn:Hexp; [|tauto]. simpl.
  destruct (decide (k = k')) as [<-|Hne].
  - rewrite lookup_delete_eq, Hk. split; [discriminate|]. intros [= ->].
    apply isExpired_spec in Hexp. lia.
  - now rewrite lookup_delete_ne.
Qed.

Lemma same_live_answer now c1 c2 k :
  same_live now c1 c2 -> fst (Cache.get c1 now k) = fst (Cache.get c2 now k).
Proof.
  intros H. unfold Cache.get.
  destruct (c1 !! k) as [e1|] eqn:H1; destruct (c2 !! k) as [e2|] eqn:H2;
    try destruct (Cache.isExpired now e1) eqn:Hx1;
    try destruct (Cache.isExpired now e2) eqn:Hx2; try reflexivity; simpl;
    repeat match goal with
           | Hx : Cache.isExpired now ?e = false |- _ => apply isExpired_live in Hx
           | Hx : Cache.isExpired now ?e = true |- _ => apply isExpired_spec in Hx
           end.
  - pose proof (proj2 (H k e2 Hx2) H2). assert (e1 = e2) by congruence. subst. lia.
  - pose proof (proj1 (H k e1 Hx1) H1). assert (e1 = e2) by congruence. subst. lia.
  - pose proof (proj1 (H k e1 Hx1) H1). assert (e1 = e2) by congruence. now subst.
  - pose proof (proj1 (H k e1 Hx1) H1). congruence.
  - pose proof (proj2 (H k e2 Hx2) H2). congruence.
Qed.

Lemma respects_ret {A : Type} now (a : A) : respects now (ret a).
Proof. intros c1 c2 H. split; [reflexivity|exact H]. Qed.

Lemma respects_lift {A : Type} now (r : exn + A) : respects now (lift r).
Proof. intros c1 c2 H. split; [reflexivity|exact H]. Qed.

Lemma respects_get now k : respects now (cache_get now k).
Proof.
  intros c1 c2 H. unfold cache_get.
  pose proof (same_live_answer now c1 c2 k H) as Hanswer.
  pose proof (same_live_get_self now c1 k) as H1.
  pose proof (same_live_get_self now c2 k) as H2.
  destruct (Cache.get c1 now k) as [v1 c1'], (Cache.get c2 now k) as [v2 c2'].
  simpl in *. split; [now rewrite Hanswer|].
  eapply same_live_trans; [exact H1|]. eapply same_live_trans; [exact H|].
  now apply same_live_sym.
Qed.

Lemma respects_set now k d lifetime : respects now (cache_set now k d lifetime).
Proof.
  intros c1 c2 H. unfold cache_set, Cache.set. simpl. split; [reflexivity|].
  intros k' e He. destruct (decide (k = k')) as [<-|Hne].
  - now rewrite !lookup_insert_eq.
  - rewrite !lookup_insert_ne by exact Hne. now apply H.
Qed.

Lemma respects_bind {A B : Type} now (m : M A) (f : A -> M B) :
  respects now m -> (forall a, respects now (f a)) -> respects now (bind m f).
Proof.
  intros Hm Hf c1 c2 H. unfold bind. destruct (Hm c1 c2 H) as [Hfst Hsnd].
  destruct (m c1) as [[e1|a1] c1'], (m c2) as [[e2|a2] c2']; simpl in *;
    try discriminate.
  - split; [congruence|exact Hsnd].
  - injection Hfst as <-. now apply Hf.
Qed.

Lemma respects_if {A : Type} now (b : bool) (m1 m2 : M A) :
  respects now m1 -> respects now m2 -> respects now (if b then m1 else m2).
Proof. now destruct b. Qed.

Ltac respects_step :=
  first
    [ apply respects_ret
    | apply respects_lift
    | apply respects_get
    | apply respects_set
    | apply respects_if
    | apply respects_bind; [|intros] ].

Lemma tool_body_respects t now params : respects now (tool_body t now params).
Proof.
  destruct t; simpl;
    unfold handleGetMotionComponent_body, handleListMotionComponents_body,
           handleGetMotionExample_body, handleSearchMotionExamples_body,
           handleGetMotionDocs_body;
    repeat respects_step.
Qed.

(** X25. The periodic sweep cannot be seen through the handlers. A
    sweep made at or before the time of a call changes neither the answer
    of the call, whatever the parameters, nor which live entries the
    cache holds after it. *)
Theorem cleanup_unobservable (t : tool) (now swept : Z) (params : value)
    (cache : gmap string CacheEntry) :
  swept <= now ->
  fst (toolHandlers t now params (Cache.cleanup cache swept)) =
    fst (toolHandlers t now params cache) /\
  same_live now (snd (toolHandlers t now params (Cache.cleanup cache swept)))
                (snd (toolHandlers t now params cache)).
Proof.
  intros Hle.
  destruct (tool_body_respects t now params _ _ (same_live_cleanup now swept cache Hle))
    as [Hfst Hsnd].
  destruct (catch_all_outcome t now params (Cache.cleanup cache swept)) as [Hs1 Hf1].
  destruct (catch_all_outcome t now params cache) as [Hs2 Hf2].
  split.
  - rewrite Hf1, Hf2, Hfst. reflexivity.
  - rewrite Hs1, Hs2. exact Hsnd.
Qed.

Lemma cleanup_unobservable_witness :
  let cache := Cache.set ∅ 0 "motion-docs-gestures" (VStr "kept") (Some 1000) in
  fst (toolHandlers get_motion_docs 900 (tool_request get_motion_docs "gestures")
         (Cache.cleanup cache 800)) = VStr "kept".
Proof.
  cbv zeta.
  rewrite (proj1 (cleanup_unobservable get_motion_docs 900 800
                    (tool_request get_motion_docs "gestures")
                    (Cache.set ∅ 0 "motion-docs-gestures" (VStr "kept") (Some 1000))
                    ltac:(lia))).
  reflexivity.
Defined.

(** *** list_motion_components without a category *)

Lemma list_body_without_category now params cache :
  truthy (get_prop (if truthy params then params else obj []) "category") = false ->
  handleListMotionComponents_body now params cache =
  handleListMotionComponents_body now VUndefined cache.
Proof.
  intros Hfalsy. unfold handleListMotionComponents_body. cbv zeta.
  change (truthy VUndefined) with false. cbv iota.
  change (get_prop (obj []) "category") with VUndefined.
  change (truthy VUndefined) with false. cbv iota.
  rewrite Hfalsy. reflexivity.
Qed.

(** X26. list_motion_components without a category. Whenever the
    [category] read from the parameters is falsy, the parameters being
    [undefined], [null], an object without the key, or an object that
    holds [""], [0], [false] or [null] under it, the request is not
    validated and is answered as the request without parameters is. On a
    cache miss that answer is the whole table, with a summary that agrees
    with it: a count per category that is the length of its list, and a
    total that is their sum. *)
Theorem list_without_category (now : Z) (params : value) (cache : gmap string CacheEntry) :
  truthy (get_prop (if truthy params then params else obj []) "category") = false ->
  toolHandlers list_motion_components now params cache =
    toolHandlers list_motion_components now VUndefined cache /\
  (cache !! "motion-components-list-all" = None ->
   get_prop (fst (toolHandlers list_motion_components now params cache)) "categories" =
     MOTION_COMPONENTS_LIST /\
   get_prop (get_prop (fst (toolHandlers list_motion_components now params cache)) "summary")
            "totalComponents" =
     VNum (fold_right Z.add 0
             (map (fun k => array_length (get_prop MOTION_COMPONENTS_LIST k))
                  (object_keys MOTION_COMPONENTS_LIST))) /\
   object_keys
     (get_prop (get_prop (fst (toolHandlers list_motion_components now params cache))
                         "summary") "categoryCounts") =
     object_keys MOTION_COMPONENTS_LIST /\
   forall k, In k (object_keys MOTION_COMPONENTS_LIST) ->
     get_prop
       (get_prop (get_prop (fst (toolHandlers list_motion_components now params cache))
                           "summary") "categoryCounts") k =
     VNum (array_length (get_prop MOTION_COMPONENTS_LIST k))).
Proof.
  intros Hfalsy.
  assert (toolHandlers list_motion_components now params cache =
          toolHandlers list_motion_components now VUndefined cache) as Hsame.
  { cbv beta iota delta [toolHandlers]. unfold handleListMotionComponents, catch_all.
    now rewrite (list_body_without_category now params cache Hfalsy). }
  split; [exact Hsame|]. intros Hmiss. rewrite Hsame.
  cbv beta iota delta [toolHandlers].
  unfold handleListMotionComponents, catch_all, handleListMotionComponents_body.
  cbv zeta. change (truthy VUndefined) with false. cbv iota.
  change (get_prop (obj []) "category") with VUndefined.
  change (truthy VUndefined) with false. cbv iota.
  rewrite !bind_lift. cbv iota.
  rewrite cache_get_miss by exact Hmiss. change (truthy VNull) with false. cbv iota.
  rewrite bind_ret, cache_set_ret by discriminate. cbn [fst].
  split; [reflexivity|]. split; [vm_compute; reflexivity|]. split; [vm_compute; reflexivity|].
  intros k Hk. vm_compute in Hk.
  repeat (destruct Hk as [<-|Hk]; [vm_compute; reflexivity|]). destruct Hk.
Qed.

Lemma list_without_category_witness :
  toolHandlers list_motion_components 0 (obj [("category", VNum 0)]) ∅ =
  toolHandlers list_motion_components 0 VUndefined ∅.
Proof.
  apply (list_without_category 0 (obj [("category", VNum 0)]) ∅). reflexivity.
Defined.
